(** * LectureLab AI: a shallow embedding of the session state machine,
    the upload validation, the score computation, the pre-module gate and
    the response handling of the AI service layer.

    Conventions.
    - A JavaScript string is a [string]: a sequence of code units below 256.
    - An array is a [list]; an object used as a dictionary is a [gmap].
    - A [useState] cell is a field of a state record and an event handler is
      a function from state to state.
    - An [async] function takes the settled outcome of each awaited call as
      an argument, and a thrown [Error] is the [Err] case of [result],
      carrying the error message. *)

From Stdlib Require Import ZArith List String Ascii Bool Lia.
From Stdlib Require Import Floats.SpecFloat DecimalString.
From stdpp Require Import gmap strings list fin_maps sorting.
Import ListNotations.

#[local] Set Warnings "-register-all".

Local Open Scope string_scope.
Local Open Scope Z_scope.

(** ** The values of [types.ts] *)

Module Types.

Record QuizQuestion := {
  question : string;
  options : list string;
  answer : string;
  explanation : string }.

Record Badge := { badge_name : string; badge_description : string }.

Record Flashcard := { front : string; back : string }.

Record ProblemSolvingChallenge := { scenario : string; task : string }.

Record Concept := {
  title : string;
  summary : string;
  story_scene : string;
  concept_image_prompt : string;
  quiz : list QuizQuestion;
  flashcards : list Flashcard;
  badge : Badge;
  narration : string;
  problem_solving_challenge : ProblemSolvingChallenge }.

Record VisualTaskItem := { term : string; image_prompt : string }.

Record ModuleData := {
  simple_summary : string;
  visual_task : list VisualTaskItem;
  concepts : list Concept }.

Record YouTubeVideo := { videoId : string; video_title : string; channelName : string }.

(** The two fields of a browser [File] that the code reads. *)
Record File := { file_type : string; file_size : Z }.

(** [{ selected: string; isCorrect: boolean }] *)
Record Answer := { selected : string; isCorrect : bool }.

(** [Record<number, Record<number, Answer>>], keyed by array position. *)
Abbreviation QuizAnswers := (gmap nat (gmap nat Answer)).

(** [File | YouTubeVideo] *)
Inductive SelectedMedia :=
| LocalFile (f : File)
| RemoteVideo (v : YouTubeVideo).

(** A settled promise: the value, or the message of the thrown [Error]. *)
Inductive result (A : Type) :=
| Ok (a : A)
| Err (message : string).
Arguments Ok {A} a.
Arguments Err {A} message.

(** JavaScript truthiness of a [string | null] cell. *)
Definition truthy (o : option string) : bool :=
  match o with
  | Some s => negb (String.eqb s "")
  | None => false
  end.

End Types.
Import Types.

(** ** The application component: session state and its transitions *)

Module App.

Inductive View := idle | dashboard | error_view.

(** [ModuleStep] without its [null], which is [None] in the state. *)
Inductive ModuleStep := generating | pre_module | learning | results.

Record AppState := {
  view : View;
  error : option string;
  selectedMedia : option SelectedMedia;
  moduleStep : option ModuleStep;
  moduleData : option ModuleData;
  transcription : option string;
  currentConceptIndex : Z;
  quizAnswers : QuizAnswers }.

(** The initial values of the [useState] cells. *)
Definition initial : AppState :=
  {| view := idle; error := None; selectedMedia := None; moduleStep := None;
     moduleData := None; transcription := None; currentConceptIndex := 0;
     quizAnswers := ∅ |}.

Definition resetState (s : AppState) : AppState :=
  {| view := idle; error := None; selectedMedia := None; moduleStep := None;
     moduleData := None; transcription := None; currentConceptIndex := 0;
     quizAnswers := ∅ |}.

Definition resetModule (s : AppState) : AppState :=
  {| view := view s; error := error s; selectedMedia := selectedMedia s;
     moduleStep := None; moduleData := None;
     transcription := transcription s; currentConceptIndex := 0;
     quizAnswers := ∅ |}.

(** What [await generateModuleData(text)] settles to: the module, or a thrown
    value, which is an [Error] with a message or something else. *)
Inductive GenOutcome :=
| Resolved (data : ModuleData)
| Rejected (message : option string).

Definition zero_concepts_message : string :=
  "The AI failed to identify any learning concepts. Please try a different source.".

Definition unknown_error_message : string := "An unknown error occurred.".

(** [startGeneration] up to its [await]. *)
Definition startGeneration_begin (text : string) (s : AppState) : AppState :=
  {| view := view s; error := None; selectedMedia := selectedMedia s;
     moduleStep := Some generating; moduleData := None;
     transcription := Some text; currentConceptIndex := 0;
     quizAnswers := ∅ |}.

(** The [catch] block. *)
Definition startGeneration_catch (message : option string) (s : AppState) : AppState :=
  {| view := error_view;
     error := Some (match message with
                    | Some m => m
                    | None => unknown_error_message
                    end);
     selectedMedia := selectedMedia s; moduleStep := moduleStep s;
     moduleData := moduleData s; transcription := transcription s;
     currentConceptIndex := currentConceptIndex s;
     quizAnswers := quizAnswers s |}.

(** [startGeneration] after its [await]. *)
Definition startGeneration_settle (o : GenOutcome) (s : AppState) : AppState :=
  match o with
  | Resolved data =>
      if (length (concepts data) =? 0)%nat
      then startGeneration_catch (Some zero_concepts_message) s
      else {| view := view s; error := error s;
              selectedMedia := selectedMedia s;
              moduleStep := Some pre_module; moduleData := Some data;
              transcription := transcription s;
              currentConceptIndex := currentConceptIndex s;
              quizAnswers := quizAnswers s |}
  | Rejected message => startGeneration_catch message s
  end.

Definition startGeneration (text : string) (o : GenOutcome) (s : AppState) : AppState :=
  startGeneration_settle o (startGeneration_begin text s).

Definition handleFileSelect (file : File) (s : AppState) : AppState :=
  {| view := dashboard; error := None;
     selectedMedia := Some (LocalFile file);
     moduleStep := moduleStep s; moduleData := moduleData s;
     transcription := transcription s;
     currentConceptIndex := currentConceptIndex s;
     quizAnswers := quizAnswers s |}.

Definition handleVideoSelect (video : YouTubeVideo) (s : AppState) : AppState :=
  {| view := dashboard; error := None;
     selectedMedia := Some (RemoteVideo video);
     moduleStep := moduleStep s; moduleData := moduleData s;
     transcription := transcription s;
     currentConceptIndex := currentConceptIndex s;
     quizAnswers := quizAnswers s |}.

Definition set_moduleStep (st : option ModuleStep) (s : AppState) : AppState :=
  {| view := view s; error := error s; selectedMedia := selectedMedia s;
     moduleStep := st; moduleData := moduleData s;
     transcription := transcription s;
     currentConceptIndex := currentConceptIndex s;
     quizAnswers := quizAnswers s |}.

Definition set_currentConceptIndex (i : Z) (s : AppState) : AppState :=
  {| view := view s; error := error s; selectedMedia := selectedMedia s;
     moduleStep := moduleStep s; moduleData := moduleData s;
     transcription := transcription s; currentConceptIndex := i;
     quizAnswers := quizAnswers s |}.

Definition set_quizAnswers (q : QuizAnswers) (s : AppState) : AppState :=
  {| view := view s; error := error s; selectedMedia := selectedMedia s;
     moduleStep := moduleStep s; moduleData := moduleData s;
     transcription := transcription s;
     currentConceptIndex := currentConceptIndex s; quizAnswers := q |}.

Definition handleStartModule (s : AppState) : AppState :=
  set_moduleStep (Some learning) s.

Definition handleFinishModule (s : AppState) : AppState :=
  set_moduleStep (Some results) s.

(** The updater of [handleAnswerSubmit]:
    [{...prev, [c]: {...prev[c], [q]: {selected, isCorrect}}}];
    spreading an absent [prev[c]] gives the empty object. *)
Definition recordAnswer (conceptIndex questionIndex : nat) (sel : string)
    (correct : bool) (prev : QuizAnswers) : QuizAnswers :=
  <[conceptIndex :=
      <[questionIndex := {| selected := sel; isCorrect := correct |}]>
        (default ∅ (prev !! conceptIndex))]> prev.

Definition handleAnswerSubmit (conceptIndex questionIndex : nat) (sel : string)
    (correct : bool) (s : AppState) : AppState :=
  set_quizAnswers
    (recordAnswer conceptIndex questionIndex sel correct (quizAnswers s)) s.

(** The entry of a question, [answers[c]?.[q]]. *)
Definition answer_at (answers : QuizAnswers) (c q : nat) : option Answer :=
  answers !! c ≫= (.!! q).

Definition handleNextConcept (s : AppState) : AppState :=
  match moduleData s with
  | Some data =>
      if currentConceptIndex s <? Z.of_nat (length (concepts data)) - 1
      then set_currentConceptIndex (currentConceptIndex s + 1) s
      else s
  | None => s
  end.

Definition handlePrevConcept (s : AppState) : AppState :=
  if 0 <? currentConceptIndex s
  then set_currentConceptIndex (currentConceptIndex s - 1) s
  else s.

(** A press of one of the two navigation buttons. *)
Inductive Nav := Next | Prev.

Definition navigate (steps : list Nav) (s : AppState) : AppState :=
  fold_left (fun st n => match n with
                         | Next => handleNextConcept st
                         | Prev => handlePrevConcept st
                         end) steps s.

End App.

(** ** The platform operations the code calls *)

Module JS.

(** A JavaScript number is an IEEE 754 binary64 value. *)
Definition prec : Z := 53.
Definition emax : Z := 1024.

(** The number denoted by an integer literal or counter; exact below 2^53. *)
Definition of_Z (z : Z) : spec_float := binary_normalize prec emax z 0 false.

Definition div (x y : spec_float) : spec_float := SFdiv prec emax x y.
Definition mul (x y : spec_float) : spec_float := SFmul prec emax x y.

(** [floor (v * 2^e + 1/2)] for the finite value of mantissa [v] and
    exponent [e]. *)
Definition round_finite (v e : Z) : Z :=
  if 0 <=? e then v * 2 ^ e else (2 * v + 2 ^ (- e)) / 2 ^ (- e + 1).

(** [Math.round]: the closest integer, a tie going to the greater one; zeros,
    infinities and NaN are returned as they are, and a negative argument
    that rounds to zero gives the negative zero. *)
Definition Math_round (x : spec_float) : spec_float :=
  match x with
  | S754_finite s m e =>
      let n := round_finite (if s then Z.neg m else Z.pos m) e in
      if n =? 0 then S754_zero s else of_Z n
  | _ => x
  end.

(** [s.startsWith(p)] *)
Definition startsWith (p s : string) : bool := String.prefix p s.

(** [s.includes(p)] *)
Definition includes (p s : string) : bool :=
  match String.index 0 p s with
  | Some _ => true
  | None => false
  end.

Fixpoint indexOf_from (c : ascii) (s : string) (i : Z) : Z :=
  match s with
  | EmptyString => -1
  | String a s' => if Ascii.eqb a c then i else indexOf_from c s' (i + 1)
  end.

(** [s.indexOf(c)] for a one-character [c]. *)
Definition indexOf (c : ascii) (s : string) : Z := indexOf_from c s 0.

Fixpoint lastIndexOf_from (c : ascii) (s : string) (i last : Z) : Z :=
  match s with
  | EmptyString => last
  | String a s' =>
      lastIndexOf_from c s' (i + 1) (if Ascii.eqb a c then i else last)
  end.

(** [s.lastIndexOf(c)] for a one-character [c]. *)
Definition lastIndexOf (c : ascii) (s : string) : Z :=
  lastIndexOf_from c s 0 (-1).

(** [s.substring(a, b)]: both indices are clamped to the string and swapped
    when out of order. *)
Definition substring (a b : Z) (s : string) : string :=
  let len := Z.of_nat (String.length s) in
  let a' := Z.min (Z.max a 0) len in
  let b' := Z.min (Z.max b 0) len in
  let lo := Z.min a' b' in
  let hi := Z.max a' b' in
  String.substring (Z.to_nat lo) (Z.to_nat (hi - lo)) s.

(** White space and line terminators among the code units below 256. *)
Definition is_space (c : ascii) : bool :=
  let n := nat_of_ascii c in
  ((9 <=? n) && (n <=? 13) || (n =? 32) || (n =? 160))%nat.

Fixpoint trimStart (s : string) : string :=
  match s with
  | EmptyString => EmptyString
  | String c s' => if is_space c then trimStart s' else s
  end.

Fixpoint trimEnd (s : string) : string :=
  match s with
  | EmptyString => EmptyString
  | String c s' =>
      match trimEnd s' with
      | EmptyString => if is_space c then EmptyString else String c EmptyString
      | r => String c r
      end
  end.

(** [s.trim()] *)
Definition trim (s : string) : string := trimEnd (trimStart s).

(** The decimal text of an integer, as a template literal prints it. *)
Definition Z_to_string (z : Z) : string :=
  NilEmpty.string_of_int (Z.to_int z).

End JS.

(** ** The upload component: validation of a chosen file *)

Module FileUpload.

Definition MAX_FILE_SIZE_MB : Z := 20.
Definition MAX_FILE_SIZE_BYTES : Z := MAX_FILE_SIZE_MB * 1024 * 1024.

Definition invalid_type_message : string :=
  "Please upload a valid audio or video file.".

Definition too_large_message : string :=
  "File is too large. Please select a file smaller than "
  ++ JS.Z_to_string MAX_FILE_SIZE_MB ++ " MB.".

(** [handleFileChange(files)]: the new content of the component's [error]
    cell, and the file handed to [onFileSelect], if any. An absent or empty
    [FileList] only clears the error. *)
Definition handleFileChange (files : list File) : option string * option File :=
  match files with
  | [] => (None, None)
  | file :: _ =>
      if negb (JS.startsWith "audio/" (file_type file))
         && negb (JS.startsWith "video/" (file_type file))
      then (Some invalid_type_message, None)
      else if file_size file >? MAX_FILE_SIZE_BYTES
      then (Some too_large_message, None)
      else (None, Some file)
  end.

(** The component wired to the application: [onFileSelect] is
    [App.handleFileSelect]. The result is the application state and the
    component's [error] cell. *)
Definition selectFile (files : list File) (app : App.AppState)
    : App.AppState * option string :=
  match handleFileChange files with
  | (err, Some file) => (App.handleFileSelect file app, err)
  | (err, None) => (app, err)
  end.

End FileUpload.

(** ** The results component: the score *)

Module ResultsOverview.

Record Score := {
  score : Z;
  totalQuestions : Z;
  percentage : spec_float }.

(** [answers[c] && answers[c][q]?.isCorrect] *)
Definition is_correct (answers : QuizAnswers) (c q : nat) : bool :=
  match answers !! c with
  | Some qs =>
      match qs !! q with
      | Some a => isCorrect a
      | None => false
      end
  | None => false
  end.

(** The inner [forEach], from question index [q] on; the accumulator is
    [(correctAnswers, total)]. *)
Fixpoint count_quiz (answers : QuizAnswers) (c : nat) (qs : list QuizQuestion)
    (q : nat) (acc : Z * Z) : Z * Z :=
  match qs with
  | [] => acc
  | _ :: qs' =>
      count_quiz answers c qs' (S q)
        ((if is_correct answers c q then fst acc + 1 else fst acc),
         snd acc + 1)
  end.

(** The outer [forEach], from concept index [c] on. *)
Fixpoint count_concepts (answers : QuizAnswers) (cs : list Concept) (c : nat)
    (acc : Z * Z) : Z * Z :=
  match cs with
  | [] => acc
  | concept :: cs' =>
      count_concepts answers cs' (S c)
        (count_quiz answers c (quiz concept) 0 acc)
  end.

(** [total > 0 ? Math.round((correctAnswers / total) * 100) : 0] *)
Definition percentage_of (correctAnswers total : Z) : spec_float :=
  if 0 <? total
  then JS.Math_round
         (JS.mul (JS.div (JS.of_Z correctAnswers) (JS.of_Z total)) (JS.of_Z 100))
  else JS.of_Z 0.

(** The [useMemo] of the component. *)
Definition compute_score (concepts : list Concept) (answers : QuizAnswers) : Score :=
  let '(correctAnswers, total) := count_concepts answers concepts 0 (0, 0) in
  {| score := correctAnswers;
     totalQuestions := total;
     percentage := percentage_of correctAnswers total |}.

End ResultsOverview.

(** ** JSON values, a reference [JSON.parse] and response schemas *)

Module Json.

(** A parsed JSON text. Numbers and strings keep their source lexeme: the
    escapes of a string are checked, not decoded. *)
Inductive json :=
| JNull
| JBool (b : bool)
| JNumber (lexeme : string)
| JString (lexeme : string)
| JArray (elements : list json)
| JObject (members : list (string * json)).

Definition is_ws (c : ascii) : bool :=
  let n := nat_of_ascii c in
  ((n =? 32) || (n =? 9) || (n =? 10) || (n =? 13))%nat.

Fixpoint skip_ws (cs : list ascii) : list ascii :=
  match cs with
  | c :: cs' => if is_ws c then skip_ws cs' else cs
  | [] => []
  end.

Definition is_digit (c : ascii) : bool :=
  let n := nat_of_ascii c in ((48 <=? n) && (n <=? 57))%nat.

Definition is_hex (c : ascii) : bool :=
  let n := nat_of_ascii c in
  (is_digit c || (65 <=? n) && (n <=? 70) || (97 <=? n) && (n <=? 102))%nat.

Definition double_quote : ascii := "034".

(** The text [s] between double quotes. *)
Definition quoted (s : string) : string :=
  String double_quote (s ++ String double_quote EmptyString).

(** The characters that may follow a backslash, [u] apart. *)
Definition is_escape (c : ascii) : bool :=
  existsb (Ascii.eqb c) (double_quote :: list_ascii_of_string "\/bfnrt").

(** The rest of a string literal after its opening quote: the lexeme up to
    the closing quote, and what follows it. *)
Fixpoint string_body (cs acc : list ascii) : option (list ascii * list ascii) :=
  match cs with
  | [] => None
  | c :: cs' =>
      if Ascii.eqb c double_quote then Some (rev acc, cs')
      else if Ascii.eqb c "\" then
        match cs' with
        | e :: cs'' =>
            if is_escape e then string_body cs'' (e :: c :: acc)
            else if Ascii.eqb e "u" then
              match cs'' with
              | h1 :: h2 :: h3 :: h4 :: cs3 =>
                  if is_hex h1 && is_hex h2 && is_hex h3 && is_hex h4
                  then string_body cs3 (h4 :: h3 :: h2 :: h1 :: e :: c :: acc)
                  else None
              | _ => None
              end
            else None
        | [] => None
        end
      else if (nat_of_ascii c <? 32)%nat then None
      else string_body cs' (c :: acc)
  end.

Fixpoint digits (cs : list ascii) : list ascii * list ascii :=
  match cs with
  | c :: cs' =>
      if is_digit c then let '(ds, r) := digits cs' in (c :: ds, r) else ([], cs)
  | [] => ([], [])
  end.

(** A digit sequence that must not be empty. *)
Definition digits1 (cs : list ascii) : option (list ascii * list ascii) :=
  match digits cs with
  | ([], _) => None
  | r => Some r
  end.

(** A number lexeme: an optional minus sign; a zero, or a non-zero digit
    and further digits; an optional fraction of a dot and digits; an optional
    exponent of [e] or [E], a sign and digits. *)
Definition number (cs : list ascii) : option (list ascii * list ascii) :=
  let '(sign, cs1) :=
    match cs with
    | c :: r => if Ascii.eqb c "-" then ([c], r) else ([], cs)
    | [] => ([], cs)
    end in
  match cs1 with
  | d :: r =>
      if is_digit d then
        let '(int, r1) := if Ascii.eqb d "0" then ([d], r)
                          else let '(ds, r') := digits r in (d :: ds, r') in
        let frac :=
          match r1 with
          | p :: r' =>
              if Ascii.eqb p "." then
                match digits1 r' with
                | Some (ds, r'') => Some (p :: ds, r'')
                | None => None
                end
              else Some ([], r1)
          | [] => Some ([], r1)
          end in
        match frac with
        | Some (fr, r2) =>
            let exp :=
              match r2 with
              | e :: r' =>
                  if Ascii.eqb e "e" || Ascii.eqb e "E" then
                    let '(sg, r'') :=
                      match r' with
                      | s :: t =>
                          if Ascii.eqb s "+" || Ascii.eqb s "-"
                          then ([s], t) else ([], r')
                      | [] => ([], r')
                      end in
                    match digits1 r'' with
                    | Some (ds, r3) => Some ((e :: sg ++ ds)%list, r3)
                    | None => None
                    end
                  else Some ([], r2)
              | [] => Some ([], r2)
              end in
            match exp with
            | Some (ex, r3) => Some ((sign ++ int ++ fr ++ ex)%list, r3)
            | None => None
            end
        | None => None
        end
      else None
  | [] => None
  end.

(** [cs] without the prefix [p], when it starts with it. *)
Fixpoint strip_chars (p cs : list ascii) : option (list ascii) :=
  match p, cs with
  | [], _ => Some cs
  | a :: p', c :: cs' => if Ascii.eqb a c then strip_chars p' cs' else None
  | _ :: _, [] => None
  end.

Definition literal (cs : list ascii) : option (json * list ascii) :=
  match strip_chars (list_ascii_of_string "true") cs with
  | Some r => Some (JBool true, r)
  | None =>
      match strip_chars (list_ascii_of_string "false") cs with
      | Some r => Some (JBool false, r)
      | None =>
          match strip_chars (list_ascii_of_string "null") cs with
          | Some r => Some (JNull, r)
          | None => None
          end
      end
  end.

(** Recursive descent; every call takes one unit of [fuel]. [elements]
    reads an array after its bracket and [members] an object after its
    brace, both with the items read so far in reverse. *)
Fixpoint value (fuel : nat) (cs : list ascii) : option (json * list ascii) :=
  match fuel with
  | O => None
  | S fuel' =>
      match skip_ws cs with
      | [] => None
      | c :: r =>
          if Ascii.eqb c "[" then
            match skip_ws r with
            | c' :: r' =>
                if Ascii.eqb c' "]" then Some (JArray [], r')
                else elements fuel' r []
            | [] => None
            end
          else if Ascii.eqb c "{" then
            match skip_ws r with
            | c' :: r' =>
                if Ascii.eqb c' "}" then Some (JObject [], r')
                else members fuel' r []
            | [] => None
            end
          else if Ascii.eqb c double_quote then
            match string_body r [] with
            | Some (s, r') => Some (JString (string_of_list_ascii s), r')
            | None => None
            end
          else if Ascii.eqb c "-" || is_digit c then
            match number (c :: r) with
            | Some (n, r') => Some (JNumber (string_of_list_ascii n), r')
            | None => None
            end
          else literal (c :: r)
      end
  end
with elements (fuel : nat) (cs : list ascii) (acc : list json)
    : option (json * list ascii) :=
  match fuel with
  | O => None
  | S fuel' =>
      match value fuel' cs with
      | Some (v, r) =>
          match skip_ws r with
          | c :: r' =>
              if Ascii.eqb c "," then elements fuel' r' (v :: acc)
              else if Ascii.eqb c "]" then Some (JArray (rev (v :: acc)), r')
              else None
          | [] => None
          end
      | None => None
      end
  end
with members (fuel : nat) (cs : list ascii) (acc : list (string * json))
    : option (json * list ascii) :=
  match fuel with
  | O => None
  | S fuel' =>
      match skip_ws cs with
      | q :: r =>
          if Ascii.eqb q double_quote then
            match string_body r [] with
            | Some (k, r1) =>
                match skip_ws r1 with
                | colon :: r2 =>
                    if Ascii.eqb colon ":" then
                      match value fuel' r2 with
                      | Some (v, r3) =>
                          let kv := (string_of_list_ascii k, v) in
                          match skip_ws r3 with
                          | c :: r4 =>
                              if Ascii.eqb c "," then members fuel' r4 (kv :: acc)
                              else if Ascii.eqb c "}"
                              then Some (JObject (rev (kv :: acc)), r4)
                              else None
                          | [] => None
                          end
                      | None => None
                      end
                    else None
                | [] => None
                end
            | None => None
            end
          else None
      | [] => None
      end
  end.

(** The reference parser: one value, then only white space. Two units of
    fuel for each character are enough, since no two calls in a row read
    nothing. *)
Definition parse (s : string) : option json :=
  let cs := list_ascii_of_string s in
  match value (2 * length cs + 2) cs with
  | Some (v, r) =>
      match skip_ws r with
      | [] => Some v
      | _ :: _ => None
      end
  | None => None
  end.

(** The property [k] of an object: the last member of that name. *)
Fixpoint get (k : string) (members : list (string * json)) : option json :=
  match members with
  | [] => None
  | (k', v) :: rest =>
      match get k rest with
      | Some v' => Some v'
      | None => if String.eqb k k' then Some v else None
      end
  end.

(** The shapes [moduleSchema] is built from: [Type.STRING], [Type.ARRAY]
    with its [items], [Type.OBJECT] with its [properties] and [required]. *)
Inductive Schema :=
| TString
| TArray (items : Schema)
| TObject (properties : list (string * Schema)) (required : list string).

Fixpoint conforms (sch : Schema) (v : json) : bool :=
  match sch, v with
  | TString, JString _ => true
  | TArray items, JArray xs => forallb (conforms items) xs
  | TObject properties required, JObject kvs =>
      forallb (fun p : string * Schema =>
                 match get (fst p) kvs with
                 | Some v' => conforms (snd p) v'
                 | None => negb (existsb (String.eqb (fst p)) required)
                 end) properties
      && forallb (fun k => match get k kvs with
                           | Some _ => true
                           | None => false
                           end) required
  | _, _ => false
  end.

End Json.
Import Json.

(** ** The service layer: requests to the external AI capability *)

Module GeminiService.

(** A thrown value: an [Error] with its message, or anything else. *)
Inductive Thrown :=
| ErrorValue (message : string)
| OtherValue.

(** What an awaited call, or a [try] block, ends with. *)
Inductive Settled (A : Type) :=
| Returned (a : A)
| Threw (e : Thrown).
Arguments Returned {A} a.
Arguments Threw {A} e.

(** The [catch] block shared by the operations: an [Error] is thrown again
    with a prefix before its message, anything else as a fixed message. *)
Definition rethrow (prefix unknown : string) (e : Thrown) : string :=
  match e with
  | ErrorValue m => prefix ++ m
  | OtherValue => unknown
  end.

Definition settle {A} (prefix unknown : string) (t : Settled A) : result A :=
  match t with
  | Returned a => Ok a
  | Threw e => Err (rethrow prefix unknown e)
  end.

Definition LF : string := String "010" EmptyString.

Definition strip_prefix (p s : string) : string :=
  if JS.startsWith p s
  then String.substring (String.length p) (String.length s - String.length p) s
  else s.

Fixpoint strip_suffix (p s : string) : string :=
  if String.eqb s p then EmptyString
  else match s with
       | EmptyString => EmptyString
       | String c s' => String c (strip_suffix p s')
       end.

(** [.replace(/^```json\n|```$/g, '')]: without the multiline flag the first
    alternative matches at the start of the text only and the second at
    its end only, and the two matches cannot overlap. *)
Definition strip_fences (s : string) : string :=
  strip_suffix "```" (strip_prefix ("```json" ++ LF) s).

(** The response schema sent with the module request. *)
Definition moduleSchema : Schema :=
  TObject
    [("simple_summary", TString);
     ("visual_task",
      TArray (TObject [("term", TString); ("image_prompt", TString)]
                      ["term"; "image_prompt"]));
     ("concepts",
      TArray
        (TObject
           [("title", TString);
            ("summary", TString);
            ("story_scene", TString);
            ("image_prompt", TString);
            ("quiz",
             TArray (TObject [("question", TString);
                              ("options", TArray TString);
                              ("answer", TString);
                              ("explanation", TString)]
                             ["question"; "answer"; "explanation"]));
            ("flashcards",
             TArray (TObject [("front", TString); ("back", TString)]
                             ["front"; "back"]));
            ("badge",
             TObject [("name", TString); ("description", TString)]
                     ["name"; "description"]);
            ("narration", TString);
            ("problem_solving_challenge",
             TObject [("scenario", TString); ("task", TString)]
                     ["scenario"; "task"])]
           ["title"; "summary"; "story_scene"; "image_prompt"; "quiz";
            "flashcards"; "badge"; "narration"; "problem_solving_challenge"]))]
    ["simple_summary"; "visual_task"; "concepts"].

(** The shape of [YouTubeVideo[]], from the interface in [types.ts]. *)
Definition videoListSchema : Schema :=
  TArray (TObject [("videoId", TString); ("title", TString);
                   ("channelName", TString)]
                  ["videoId"; "title"; "channelName"]).

Definition empty_module_message : string :=
  "The AI failed to generate the module from the transcription. This can happen with complex or lengthy content. Please try a shorter file.".

Definition no_results_message : string :=
  "The AI did not return any search results.".

Definition unexpected_format_message : string :=
  "The AI returned search results in an unexpected format. Please try rephrasing your search.".

Definition malformed_json_message : string :=
  "The AI returned malformed JSON data from search results.".

Definition no_images_message : string :=
  "Image generation failed, no images returned.".

Definition retries_exhausted_message : string :=
  "Failed to generate image after multiple retries due to rate limiting.".

Section WithParser.

(** [JSON.parse]: the value, or the message of the [SyntaxError]. *)
Variable JSON_parse : string -> result json.

(** [generateModuleData], given what [ai.models.generateContent] settled
    to: the [text] of the response, which may be absent. The parsed value
    is returned under the cast [as ModuleData]. *)
Definition generateModuleData (response : Settled (option string)) : result json :=
  settle "Failed to generate module concepts: "
         "An unknown error occurred while generating module concepts."
    match response with
    | Threw e => Threw e
    | Returned responseText =>
        if negb (truthy responseText)
        then Threw (ErrorValue empty_module_message)
        else
          let cleanedJson := JS.trim (strip_fences (default "" responseText)) in
          match JSON_parse cleanedJson with
          | Ok v => Returned v
          | Err m => Threw (ErrorValue m)
          end
    end.

(** [searchYouTube], given what [ai.models.generateContent] settled to. The
    parsed value is returned under the cast [as YouTubeVideo[]]. *)
Definition searchYouTube (response : Settled (option string)) : result json :=
  settle "Failed to search YouTube: "
         "An unknown error occurred during the YouTube search."
    match response with
    | Threw e => Threw e
    | Returned text =>
        if negb (truthy text)
        then Threw (ErrorValue no_results_message)
        else
          let t := default "" text in
          let startIndex := JS.indexOf "[" t in
          let endIndex := JS.lastIndexOf "]" t in
          if (startIndex =? -1) || (endIndex =? -1) || (endIndex <? startIndex)
          then Threw (ErrorValue unexpected_format_message)
          else
            let jsonString := JS.substring startIndex (endIndex + 1) t in
            match JSON_parse jsonString with
            | Ok v => Returned v
            | Err _ => Threw (ErrorValue malformed_json_message)
            end
    end.

End WithParser.

(** [JSON.parse] by the reference parser; the text of a [SyntaxError] is
    left to the engine, and is a fixed one here. *)
Definition JSON_parse_reference (s : string) : result json :=
  match Json.parse s with
  | Some v => Ok v
  | None => Err "Unexpected token in JSON"
  end.

(** What is observed of one run of [generateImage]. *)
Inductive Event :=
| Request
| Sleep (ms : Z).

(** The [try] block of one attempt, given what [ai.models.generateImages]
    settled to: the [imageBytes] of the generated images, a list that may be
    absent. *)
Definition attempt (o : Settled (option (list string))) : Settled string :=
  match o with
  | Threw e => Threw e
  | Returned None => Threw (ErrorValue no_images_message)
  | Returned (Some []) => Threw (ErrorValue no_images_message)
  | Returned (Some (base64ImageBytes :: _)) =>
      Returned ("data:image/png;base64," ++ base64ImageBytes)
  end.

(** [error instanceof Error && error.message.includes('429')] *)
Definition rate_limited (e : Thrown) : bool :=
  match e with
  | ErrorValue m => JS.includes "429" m
  | OtherValue => false
  end.

(** The [while (retries > 0)] loop from attempt number [n] on; [outcomes k]
    is what the request of attempt [k] settles to. Every turn that goes
    round again decrements [retries]. *)
Fixpoint generateImage_loop (outcomes : nat -> Settled (option (list string)))
    (n retries : nat) (backoff : Z) : list Event * result string :=
  match retries with
  | O => ([], Err retries_exhausted_message)
  | S retries' =>
      match attempt (outcomes n) with
      | Returned url => ([Request], Ok url)
      | Threw e =>
          if rate_limited e && (0 <? retries)%nat
          then
            let '(events, r) :=
              generateImage_loop outcomes (S n) retries' (backoff * 2) in
            (Request :: Sleep backoff :: events, r)
          else
            ([Request],
             Err (rethrow "Failed to generate image: "
                    "An unknown error occurred during image generation." e))
      end
  end.

Definition generateImage (outcomes : nat -> Settled (option (list string)))
    : list Event * result string :=
  generateImage_loop outcomes 0 3 1000.

(** The number of requests sent in a run. *)
Definition requests (events : list Event) : nat :=
  length (List.filter (fun e => match e with Request => true | Sleep _ => false end) events).

(** The delays of a run, in order. *)
Definition delays (events : list Event) : list Z :=
  flat_map (fun e => match e with Request => [] | Sleep ms => [ms] end) events.

End GeminiService.

(** ** The pre-module component: the visual task and the start control *)

Module PreQuestView.

Record State := {
  imageUrls : gmap string string;
  isLoading : bool;
  error : option string;
  matchedPairs : list string;
  dropTarget : option string }.

(** The initial values of the [useState] cells. *)
Definition initial : State :=
  {| imageUrls := ∅; isLoading := true; error := None; matchedPairs := [];
     dropTarget := None |}.

Definition images_failed_message : string :=
  "Could not load the visual task images. You can still proceed.".

(** The [for] loop of [fetchImages]: images are requested one after the
    other and the first failure leaves the loop. [generateImage p] is what
    the request for prompt [p] settles to. The result is the [imageUrls]
    cell and whether the loop was left by an exception. *)
Fixpoint fetch_loop (generateImage : string -> result string)
    (items : list VisualTaskItem) (urls : gmap string string)
    : gmap string string * bool :=
  match items with
  | [] => (urls, false)
  | item :: rest =>
      match generateImage (image_prompt item) with
      | Ok url => fetch_loop generateImage rest (<[image_prompt item := url]> urls)
      | Err _ => (urls, true)
      end
  end.

(** [fetchImages], run to its end. *)
Definition fetchImages (generateImage : string -> result string)
    (visualTask : list VisualTaskItem) (s : State) : State :=
  let '(urls, failed) := fetch_loop generateImage visualTask ∅ in
  {| imageUrls := urls; isLoading := false;
     error := if failed then Some images_failed_message else None;
     matchedPairs := matchedPairs s; dropTarget := dropTarget s |}.

(** [visualTask.find(item => item.image_prompt === imagePrompt)?.term] *)
Definition correctTerm (visualTask : list VisualTaskItem) (imagePrompt : string)
    : option string :=
  term <$> List.find (fun item => String.eqb (image_prompt item) imagePrompt)
             visualTask.

(** [matchedPairs.includes(t)] *)
Definition includes (t : string) (l : list string) : bool :=
  existsb (String.eqb t) l.

(** [handleDrop]: [droppedTerm] is the text carried by the drag. *)
Definition handleDrop (visualTask : list VisualTaskItem)
    (droppedTerm imagePrompt : string) (s : State) : State :=
  {| imageUrls := imageUrls s; isLoading := isLoading s; error := error s;
     matchedPairs :=
       match correctTerm visualTask imagePrompt with
       | Some t =>
           if String.eqb droppedTerm t && negb (includes droppedTerm (matchedPairs s))
           then matchedPairs s ++ [droppedTerm]
           else matchedPairs s
       | None => matchedPairs s
       end;
     dropTarget := None |}.

Definition isTaskComplete (visualTask : list VisualTaskItem) (s : State) : bool :=
  (length (matchedPairs s) =? length visualTask)%nat.

(** The [disabled] attribute of the start button. *)
Definition start_disabled (visualTask : list VisualTaskItem) (s : State) : bool :=
  negb (isTaskComplete visualTask s) && negb (truthy (error s)).

(** A drop event: the dragged text and the image it is dropped on. *)
Definition Drop : Type := string * string.

Definition run_drops (visualTask : list VisualTaskItem) (drops : list Drop)
    (s : State) : State :=
  fold_left (fun st d => handleDrop visualTask (fst d) (snd d) st) drops s.

(** Every term of the visual task is among the matched ones. *)
Definition all_terms_matched (visualTask : list VisualTaskItem) (s : State) : bool :=
  forallb (fun item => includes (term item) (matchedPairs s)) visualTask.

(** The request for the image of some item of the visual task fails. *)
Definition any_image_fails (generateImage : string -> result string)
    (visualTask : list VisualTaskItem) : bool :=
  existsb (fun item => match generateImage (image_prompt item) with
                       | Ok _ => false
                       | Err _ => true
                       end) visualTask.

End PreQuestView.

(** ** Sample values *)

Module Samples.

Definition a_question (opts : list string) : QuizQuestion :=
  {| question := "Which law relates force and acceleration?";
     options := opts; answer := "Second"; explanation := "F = m a." |}.

(** A concept with [n] quiz questions. *)
Definition a_concept (n : nat) : Concept :=
  {| title := "Newton's laws"; summary := "Three laws of motion.";
     story_scene := "In the Concept Kingdom an apple falls.";
     concept_image_prompt := "an apple falling from a tree";
     quiz := repeat (a_question ["First"; "Second"; "Third"]) n;
     flashcards := [{| front := "F"; back := "m a" |};
                    {| front := "Inertia"; back := "First law" |}];
     badge := {| badge_name := "Mover"; badge_description := "Knows the laws." |};
     narration := "An apple falls.";
     problem_solving_challenge :=
       {| scenario := "A cart is pushed."; task := "Find its acceleration." |} |}.

Definition a_module (cs : list Concept) : ModuleData :=
  {| simple_summary := "Forces change motion.";
     visual_task := [{| term := "force"; image_prompt := "a push" |};
                     {| term := "mass"; image_prompt := "a weight" |};
                     {| term := "motion"; image_prompt := "a rolling ball" |}];
     concepts := cs |}.

(** A session in the learning step of a module of two concepts, at the
    concept of index [i]. *)
Definition learning_at (i : Z) : App.AppState :=
  {| App.view := App.dashboard; App.error := None;
     App.selectedMedia :=
       Some (LocalFile {| file_type := "audio/mpeg"; file_size := 1024 |});
     App.moduleStep := Some App.learning;
     App.moduleData := Some (a_module [a_concept 3; a_concept 3]);
     App.transcription := Some "Newton's laws...";
     App.currentConceptIndex := i;
     App.quizAnswers := ∅ |}.

(** The first [k] questions of concept [c] answered correctly, on top of
    the answers [m]. *)
Fixpoint correct_in (c k : nat) (m : QuizAnswers) : QuizAnswers :=
  match k with
  | O => m
  | S k' => App.recordAnswer c k' "Second" true (correct_in c k' m)
  end.

(** Ten concepts of four questions each. *)
Definition forty_questions : list Concept := repeat (a_concept 4) 10.

(** All the questions of concepts 0 to 4 and three of concept 5 answered
    correctly: 23 of the forty. *)
Definition twenty_three_correct : QuizAnswers :=
  correct_in 5 3 (correct_in 4 4 (correct_in 3 4 (correct_in 2 4
    (correct_in 1 4 (correct_in 0 4 ∅))))).

(** A visual task of three distinct terms. *)
Definition three_terms : list VisualTaskItem := visual_task (a_module []).


(** Every image request succeeds. *)
Definition images_ok (prompt : string) : result string :=
  Ok ("data:image/png;base64," ++ prompt).

Definition a_file : File := {| file_type := "audio/mpeg"; file_size := 1024 |}.

Definition another_file : File := {| file_type := "video/mp4"; file_size := 2048 |}.

End Samples.

(** ** The score as the specification words it *)

Module ScoreSpec.

(** The entry of question [q] of concept [c] is recorded as correct. *)
Definition recorded_correct (answers : QuizAnswers) (p : nat * nat) : bool :=
  match App.answer_at answers (fst p) (snd p) with
  | Some a => isCorrect a
  | None => false
  end.

(** The (concept, question) positions of the concepts, numbered from [c]. *)
Fixpoint positions_from (c : nat) (cs : list Concept) : list (nat * nat) :=
  match cs with
  | [] => []
  | concept :: cs' =>
      (map (pair c) (seq 0 (length (quiz concept))) ++ positions_from (S c) cs')%list
  end.

(** The number of questions whose entry is recorded as correct. *)
Definition correctCount (cs : list Concept) (answers : QuizAnswers) : Z :=
  Z.of_nat (length (List.filter (recorded_correct answers) (positions_from 0 cs))).

(** The sum of the quiz lengths. *)
Definition totalQuestionCount (cs : list Concept) : Z :=
  Z.of_nat (list_sum (map (fun concept => length (quiz concept)) cs)).

(** [n / d] rounded to the closest integer, a tie going up:
    [floor (n / d + 1 / 2)]. *)
Definition round_half_up (n d : Z) : Z := (2 * n + d) / (2 * d).

(** [n / d] rounded to the closest integer, a tie going to the even one. *)
Definition round_half_even (n d : Z) : Z :=
  let q := n / d in
  let r := n mod d in
  if 2 * r <? d then q
  else if d <? 2 * r then q + 1
  else if Z.even q then q else q + 1.

#[global] Instance spec_float_eq_dec : EqDecision spec_float.
Proof. solve_decision. Defined.

(** The pairs [0 <= c <= t < bound] on which the computed percentage is the
    quotient rounded half up. *)
Definition agrees_below (bound : nat) : bool :=
  forallb (fun t =>
    forallb (fun c =>
      bool_decide
        (ResultsOverview.percentage_of (Z.of_nat c) (Z.of_nat t)
         = JS.of_Z (round_half_up (100 * Z.of_nat c) (Z.of_nat t))))
      (seq 0 (S t)))
    (seq 0 bound).

End ScoreSpec.

(** ** The bracketed region of a text as the specification words it *)

Module TextSpec.

(** The text from the first occurrence of [c] on. *)
Fixpoint from_first (c : ascii) (s : string) : option string :=
  match s with
  | EmptyString => None
  | String a s' => if Ascii.eqb a c then Some s else from_first c s'
  end.

(** The text up to the last occurrence of [c], that one included. *)
Fixpoint upto_last (c : ascii) (s : string) : option string :=
  match s with
  | EmptyString => None
  | String a s' =>
      match upto_last c s' with
      | Some p => Some (String a p)
      | None => if Ascii.eqb a c then Some (String a EmptyString) else None
      end
  end.

(** The region from the first opening bracket to the last closing bracket
    after it, if there is one. *)
Definition bracket_region (text : string) : option string :=
  from_first "[" text ≫= upto_last "]".

(** The character [c] occurs in [s]. *)
Fixpoint occurs (c : ascii) (s : string) : bool :=
  match s with
  | EmptyString => false
  | String a s' => Ascii.eqb a c || occurs c s'
  end.

End TextSpec.

(** ** The quiz item and its wiring into the chapter view *)

Module QuizItem.

(** A call of [onAnswerSubmit]. *)
Record Submission := {
  sub_conceptIndex : nat;
  sub_questionIndex : nat;
  sub_selected : string;
  sub_isCorrect : bool }.

(** [!!answerData]: an entry, being an object, is truthy. *)
Definition isAnswered (answerData : option Answer) : bool :=
  match answerData with
  | Some _ => true
  | None => false
  end.

Definition handleSelectOption (question : QuizQuestion)
    (conceptIndex questionIndex : nat) (answerData : option Answer)
    (opt : string) : option Submission :=
  if isAnswered answerData then None
  else Some {| sub_conceptIndex := conceptIndex;
               sub_questionIndex := questionIndex;
               sub_selected := opt;
               sub_isCorrect := String.eqb opt (answer question) |}.

Definition handleRevealShortAnswer (question : QuizQuestion)
    (conceptIndex questionIndex : nat) (answerData : option Answer)
    : option Submission :=
  if isAnswered answerData then None
  else Some {| sub_conceptIndex := conceptIndex;
               sub_questionIndex := questionIndex;
               sub_selected := answer question;
               sub_isCorrect := true |}.

(** [question.options && question.options.length > 0]: the item shows its
    option buttons; otherwise it shows the reveal button. *)
Definition is_multiple_choice (question : QuizQuestion) : bool :=
  negb (length (options question) =? 0)%nat.

(** A click on one of the buttons of the item. *)
Inductive Click :=
| SelectOption (opt : string)
| Reveal.

(** The button of the click is rendered for the question. *)
Definition rendered (question : QuizQuestion) (c : Click) : bool :=
  match c with
  | SelectOption o =>
      is_multiple_choice question && existsb (String.eqb o) (options question)
  | Reveal => negb (is_multiple_choice question)
  end.

(** The handler behind a click. *)
Definition click (question : QuizQuestion) (conceptIndex questionIndex : nat)
    (answerData : option Answer) (c : Click) : option Submission :=
  match c with
  | SelectOption o =>
      handleSelectOption question conceptIndex questionIndex answerData o
  | Reveal => handleRevealShortAnswer question conceptIndex questionIndex answerData
  end.

(** The item as the chapter view mounts it: [answerData] is
    [answers?.[conceptIndex]?.[i]] and [onAnswerSubmit] is the application's
    [handleAnswerSubmit]. *)
Definition quiz_click (question : QuizQuestion) (conceptIndex questionIndex : nat)
    (c : Click) (s : App.AppState) : App.AppState :=
  match click question conceptIndex questionIndex
          (App.answer_at (App.quizAnswers s) conceptIndex questionIndex) c with
  | Some sub =>
      App.handleAnswerSubmit (sub_conceptIndex sub) (sub_questionIndex sub)
        (sub_selected sub) (sub_isCorrect sub) s
  | None => s
  end.




End QuizItem.

(** ** The chapter view: what it shows of the current concept *)

Module QuestView.

(** [concepts[currentConceptIndex]], which is [undefined] out of range. *)
Definition currentConcept (concepts : list Concept) (currentConceptIndex : Z)
    : option Concept :=
  if currentConceptIndex <? 0 then None
  else concepts !! Z.to_nat currentConceptIndex.

Definition isLastConcept (concepts : list Concept) (currentConceptIndex : Z) : bool :=
  currentConceptIndex =? Z.of_nat (length concepts) - 1.

(** The [disabled] attribute of the Previous button. *)
Definition prev_disabled (currentConceptIndex : Z) : bool :=
  currentConceptIndex =? 0.

(** The Next button is rendered, in place of the button that finishes. *)
Definition next_rendered (concepts : list Concept) (currentConceptIndex : Z) : bool :=
  negb (isLastConcept concepts currentConceptIndex).

(** [((index + 1) / length) * 100] on numbers; the index plus one and the
    length are integers that a number holds exactly. *)
Definition progress_of (index length : Z) : spec_float :=
  JS.mul (JS.div (JS.of_Z (index + 1)) (JS.of_Z length)) (JS.of_Z 100).

(** [progressPercentage], the width of the progress bar in per cent. *)
Definition progressPercentage (concepts : list Concept) (currentConceptIndex : Z)
    : spec_float :=
  progress_of currentConceptIndex (Z.of_nat (length concepts)).

(** For every length from 1 to [bound] and every index below the length,
    the progress is above 0 and at most 100, and is 100 at the last index
    only. *)
Definition progress_in_range (bound : nat) : bool :=
  forallb (fun n =>
    forallb (fun i =>
      let p := progress_of (Z.of_nat i) (Z.of_nat n) in
      SFltb (JS.of_Z 0) p && SFleb p (JS.of_Z 100)
      && Bool.eqb (SFeqb p (JS.of_Z 100)) (Z.of_nat i =? Z.of_nat n - 1))
      (seq 0 n))
    (seq 1 bound).

End QuestView.

(** ** The session as the user drives it

    The application state together with the number of module requests that
    have not settled yet. An event is a press of a control, enabled when the
    component that holds the control is rendered and the control is not
    disabled, or the settling of a pending request. The matching task that
    the pre-module view puts before its start button is left out: the button
    counts as enabled whenever that view is rendered. *)

Module Session.

Inductive Event :=
| SelectFile (files : list File)
| SelectVideo (video : YouTubeVideo)
| TryAgain
| ResetApp
| ResetModule
| CreateModule (localTranscription : string)
| Settle (o : App.GenOutcome)
| StartModule
| NextConcept
| PrevConcept
| FinishModule
| AnswerQuestion (questionIndex : nat) (c : QuizItem.Click).

Record State := { app : App.AppState; pending : nat }.

Definition initial : State := {| app := App.initial; pending := 0 |}.

Definition is_some {A} (o : option A) : bool :=
  match o with
  | Some _ => true
  | None => false
  end.

(** [case 'dashboard': return selectedMedia && <AnalysisView ... />] *)
Definition analysis_rendered (s : App.AppState) : bool :=
  match App.view s with
  | App.dashboard => is_some (App.selectedMedia s)
  | _ => false
  end.

Definition step_is (st : App.ModuleStep) (s : App.AppState) : bool :=
  match App.moduleStep s, st with
  | Some App.generating, App.generating
  | Some App.pre_module, App.pre_module
  | Some App.learning, App.learning
  | Some App.results, App.results => true
  | _, _ => false
  end.

(** [case 'pre-module': return moduleData && <PreQuestView ... />] *)
Definition prequest_rendered (s : App.AppState) : bool :=
  analysis_rendered s && step_is App.pre_module s && is_some (App.moduleData s).

(** [case 'learning': return moduleData && <QuestView ... />] *)
Definition quest_rendered (s : App.AppState) : bool :=
  analysis_rendered s && step_is App.learning s && is_some (App.moduleData s).

(** The concepts of the stored module, none when there is no module. *)
Definition module_concepts (s : App.AppState) : list Concept :=
  match App.moduleData s with
  | Some data => concepts data
  | None => []
  end.

(** The chapter view is rendered with no concept at the current index:
    rendering the chapter reads a property of [undefined] and throws, and
    with no error boundary nothing of the application stays on the page. *)
Definition crashed (s : App.AppState) : bool :=
  quest_rendered s
  && negb (is_some (QuestView.currentConcept (module_concepts s)
                      (App.currentConceptIndex s))).

(** The application state after a press of a control, or [None] when the
    control is not rendered or is disabled. *)
Definition press (e : Event) (s : App.AppState) : option App.AppState :=
  match e with
  | SelectFile files =>
      match App.view s with
      | App.idle => Some (fst (FileUpload.selectFile files s))
      | _ => None
      end
  | SelectVideo video =>
      match App.view s with
      | App.idle => Some (App.handleVideoSelect video s)
      | _ => None
      end
  | TryAgain =>
      match App.view s with
      | App.error_view => Some (App.resetState s)
      | _ => None
      end
  | ResetApp => if analysis_rendered s then Some (App.resetState s) else None
  | ResetModule =>
      if analysis_rendered s && is_some (App.moduleStep s)
      then Some (App.resetModule s) else None
  | CreateModule text =>
      if analysis_rendered s && negb (is_some (App.moduleStep s))
         && truthy (Some text)
      then Some (App.startGeneration_begin text s)
      else None
  | Settle _ => None
  | StartModule =>
      if prequest_rendered s then Some (App.handleStartModule s) else None
  | NextConcept =>
      if quest_rendered s
         && QuestView.next_rendered (module_concepts s) (App.currentConceptIndex s)
      then Some (App.handleNextConcept s) else None
  | PrevConcept =>
      if quest_rendered s
         && negb (QuestView.prev_disabled (App.currentConceptIndex s))
      then Some (App.handlePrevConcept s) else None
  | FinishModule =>
      if quest_rendered s
         && QuestView.isLastConcept (module_concepts s) (App.currentConceptIndex s)
      then Some (App.handleFinishModule s) else None
  | AnswerQuestion questionIndex c =>
      if quest_rendered s then
        match QuestView.currentConcept (module_concepts s)
                (App.currentConceptIndex s) with
        | Some concept =>
            match quiz concept !! questionIndex with
            | Some question =>
                if QuizItem.rendered question c
                then Some (QuizItem.quiz_click question
                             (Z.to_nat (App.currentConceptIndex s))
                             questionIndex c s)
                else None
            | None => None
            end
        | None => None
        end
      else None
  end.

(** The state after an event. A pending request may settle at any time; a
    control can be pressed when the page has not crashed; a request for a
    module adds one to the pending ones. *)
Definition step (e : Event) (st : State) : option State :=
  match e with
  | Settle o =>
      match pending st with
      | O => None
      | S n => Some {| app := App.startGeneration_settle o (app st); pending := n |}
      end
  | _ =>
      if crashed (app st) then None
      else match press e (app st) with
           | Some s' =>
               Some {| app := s';
                       pending := match e with
                                  | CreateModule _ => S (pending st)
                                  | _ => pending st
                                  end |}
           | None => None
           end
  end.

(** The events of a run in order; [None] as soon as one is not enabled. *)
Fixpoint run (events : list Event) (st : State) : option State :=
  match events with
  | [] => Some st
  | e :: rest =>
      match step e st with
      | Some st' => run rest st'
      | None => None
      end
  end.

(** The event is a request that settles. *)
Definition is_settle (e : Event) : bool :=
  match e with
  | Settle _ => true
  | _ => false
  end.

(** A module is requested only when no earlier request is still pending. *)
Fixpoint serial (events : list Event) (st : State) : bool :=
  match events with
  | [] => true
  | e :: rest =>
      match e with
      | CreateModule _ => (pending st =? 0)%nat
      | _ => true
      end
      && match step e st with
         | Some st' => serial rest st'
         | None => true
         end
  end.

(** What holds of every state of a serial run: at most one request is
    pending, and none when a module is stored; a stored module has a concept
    and the index points into it; without a module the index is 0 and no
    step past the generation is shown. *)
Definition invariant (st : State) : Prop :=
  (pending st <= 1)%nat
  /\ match App.moduleData (app st) with
     | Some data =>
         pending st = 0%nat
         /\ (1 <= length (concepts data))%nat
         /\ 0 <= App.currentConceptIndex (app st)
              <= Z.of_nat (length (concepts data)) - 1
     | None =>
         App.currentConceptIndex (app st) = 0
         /\ (App.moduleStep (app st) = None
             \/ App.moduleStep (app st) = Some App.generating)
     end.

(** A module is requested, the module view is reset while the request is
    pending, a second module is requested, the first request settles to
    [first] and the user starts it and moves to its second chapter, then
    the second request settles to [second] and the user starts it. *)
Definition overlapping_requests (first second : ModuleData) : list Event :=
  [SelectFile [{| file_type := "audio/mpeg"; file_size := 1024 |}];
   CreateModule "a lecture"; ResetModule; CreateModule "a lecture";
   Settle (App.Resolved first); StartModule; NextConcept;
   Settle (App.Resolved second); StartModule].

(** A module is requested, the application is reset while the request is
    pending, the request settles to [data], and another file is chosen. *)
Definition reset_while_generating (data : ModuleData) (next : File) : list Event :=
  [SelectFile [{| file_type := "audio/mpeg"; file_size := 1024 |}];
   CreateModule "a lecture"; ResetApp; Settle (App.Resolved data);
   SelectFile [next]].

End Session.

(** ** The visual task of the pre-module view: shuffling and playing *)

Module VisualTask.

(** [sort] with a comparator that subtracts keys: the stable sort by key,
    here by insertion, an element going after those of the same key. *)
Fixpoint insert_by_key {A} (x : A * Z) (sorted : list (A * Z)) : list (A * Z) :=
  match sorted with
  | [] => [x]
  | y :: rest =>
      if snd x <? snd y then x :: y :: rest else y :: insert_by_key x rest
  end.

Definition sort_by_key {A} (l : list (A * Z)) : list (A * Z) :=
  fold_left (fun sorted x => insert_by_key x sorted) l [].

(** [array.map(value => ({ value, sort: Math.random() }))], the draws made
    in order from draw number [k] on; [random k] stands for the [k]-th draw,
    an integer that compares as the double does. *)
Fixpoint with_keys {A} (random : nat -> Z) (k : nat) (array : list A) : list (A * Z) :=
  match array with
  | [] => []
  | value :: rest => (value, random k) :: with_keys random (S k) rest
  end.

(** [useShuffledArray] *)
Definition useShuffledArray {A} (random : nat -> Z) (array : list A) : list A :=
  map fst (sort_by_key (with_keys random 0 array)).

(** The keys of a list never decrease along it. *)
Definition keys_ascend {A} (l : list (A * Z)) : Prop :=
  StronglySorted (fun x y => snd x <= snd y) l.

(** Each term of the visual task dropped on its own image, in the order of
    the task. *)
Definition matching_drops (visualTask : list VisualTaskItem) : list PreQuestView.Drop :=
  map (fun item => (term item, image_prompt item)) visualTask.


End VisualTask.

(** ** The runs of an image request *)

Module ImageRun.

Import GeminiService.

(** Every attempt before attempt [k] fails with a rate limit. *)
Definition rate_limited_before (outcomes : nat -> Settled (option (list string)))
    (k : nat) : Prop :=
  forall j, (j < k)%nat ->
            exists e, attempt (outcomes j) = Threw e /\ rate_limited e = true.

(** The events of [k] attempts that are retried, the first delay being
    [backoff]. *)
Fixpoint retried (k : nat) (backoff : Z) : list Event :=
  match k with
  | O => []
  | S k' => Request :: Sleep backoff :: retried k' (backoff * 2)
  end.

(** What the attempt that is not retried ends the run with. *)
Definition final (t : Settled string) : result string :=
  settle "Failed to generate image: "
         "An unknown error occurred during image generation." t.

End ImageRun.

(** ** The rest of the service layer: text requests *)

Module TextServices.

Import GeminiService.

(** A settled call of a service as the caller's [await] sees it: the
    services throw [Error] objects only. *)
Definition await {A} (r : result A) : Settled A :=
  match r with
  | Ok a => Returned a
  | Err m => Threw (ErrorValue m)
  end.

(** A [catch] block that throws one fixed message, whatever it caught. *)
Definition settle_fixed {A} (message : string) (t : Settled A) : result A :=
  match t with
  | Returned a => Ok a
  | Threw _ => Err message
  end.

Definition transcription_empty_message : string :=
  "Failed to transcribe the file. The transcription was empty.".

Definition transcript_failed_message : string :=
  "Failed to generate a transcript for the YouTube video.".

Definition summary_failed_message : string :=
  "Failed to generate summary and key concepts.".

Definition ideas_failed_message : string :=
  "Failed to generate article ideas.".

Definition article_failed_message : string :=
  "Failed to write the article.".

Definition no_feedback_message : string :=
  "The AI did not return any feedback.".

(** [transcribeFile], given what [ai.models.generateContent] settled to: the
    [text] of the response, which may be absent. *)
Definition transcribeFile (response : Settled (option string)) : result string :=
  settle "Failed to transcribe file: "
         "An unknown error occurred during transcription."
    match response with
    | Threw e => Threw e
    | Returned transcription =>
        if negb (truthy transcription)
           || String.eqb (JS.trim (default "" transcription)) ""
        then Threw (ErrorValue transcription_empty_message)
        else Returned (default "" transcription)
    end.

(** The first line of what [getYouTubeTranscript] returns. *)
Definition transcript_header (video : YouTubeVideo) : string :=
  "A plausible transcript/summary for " ++ quoted (video_title video)
  ++ ":" ++ LF ++ LF.

(** [getYouTubeTranscript] *)
Definition getYouTubeTranscript (video : YouTubeVideo)
    (response : Settled (option string)) : result string :=
  settle_fixed transcript_failed_message
    match response with
    | Threw e => Threw e
    | Returned text =>
        if negb (truthy text)
        then Threw (ErrorValue
                      "Could not generate a plausible transcript for the video.")
        else Returned (transcript_header video ++ default "" text)
    end.

(** [evaluateSolution] *)
Definition evaluateSolution (response : Settled (option string)) : result string :=
  settle "Failed to get feedback: "
         "An unknown error occurred while evaluating the solution."
    match response with
    | Threw e => Threw e
    | Returned feedback =>
        if negb (truthy feedback)
        then Threw (ErrorValue no_feedback_message)
        else Returned (default "" feedback)
    end.

(** [summarizeAndUnderstand] *)
Definition summarizeAndUnderstand (response : Settled (option string))
    : result string :=
  settle_fixed summary_failed_message
    match response with
    | Threw e => Threw e
    | Returned summary =>
        if negb (truthy summary)
        then Threw (ErrorValue "AI failed to generate a summary.")
        else Returned (default "" summary)
    end.

(** [writeArticle] *)
Definition writeArticle (response : Settled (option string)) : result string :=
  settle_fixed article_failed_message
    match response with
    | Threw e => Threw e
    | Returned article =>
        if negb (truthy article)
        then Threw (ErrorValue "AI failed to write the article.")
        else Returned (default "" article)
    end.

(** The opening fence of a fenced JSON text, without its line feed. *)
Definition fence_open : string := "```json".

(** The closing fence. *)
Definition fence_close : string := "```".

(** [.replace(/^```json\n?|```$/g, '')]: as [strip_fences], the line feed
    after the opening fence being optional. *)
Definition strip_fences_optional_lf (s : string) : string :=
  strip_suffix fence_close
    (if JS.startsWith fence_open s
     then strip_prefix LF (strip_prefix fence_open s)
     else s).

Section WithParser.

Variable JSON_parse : string -> result json.

(** [generateArticleIdeas]: reading [replace] on an absent [text] throws a
    [TypeError], whose message is left to the engine. The parsed value is
    returned under the cast [as string[]]. *)
Definition generateArticleIdeas (response : Settled (option string)) : result json :=
  settle_fixed ideas_failed_message
    match response with
    | Threw e => Threw e
    | Returned None => Threw (ErrorValue "Cannot read properties of undefined")
    | Returned (Some text) =>
        let ideasText := JS.trim (strip_fences_optional_lf text) in
        if String.eqb ideasText ""
        then Threw (ErrorValue "AI failed to generate article ideas.")
        else match JSON_parse ideasText with
             | Ok v => Returned v
             | Err m => Threw (ErrorValue m)
             end
    end.

End WithParser.

End TextServices.

(** ** The analysis view: transcription and the analysis workbench *)

Module AnalysisView.

Import GeminiService TextServices.

(** The [useState] cells that the handlers below read or write. *)
Record State := {
  localTranscription : option string;
  isTranscribing : bool;
  summary : option string;
  isSummarizing : bool;
  articleIdeas : option json;
  isGeneratingIdeas : bool;
  ideaCategory : option string;
  selectedArticleIdea : option string;
  articleContent : option string;
  isWritingArticle : bool;
  error : option string }.

Definition initial : State :=
  {| localTranscription := None; isTranscribing := false; summary := None;
     isSummarizing := false; articleIdeas := None; isGeneratingIdeas := false;
     ideaCategory := None; selectedArticleIdea := None; articleContent := None;
     isWritingArticle := false; error := None |}.

Definition set_localTranscription (v : option string) (s : State) : State :=
  {| localTranscription := v; isTranscribing := isTranscribing s;
     summary := summary s; isSummarizing := isSummarizing s;
     articleIdeas := articleIdeas s; isGeneratingIdeas := isGeneratingIdeas s;
     ideaCategory := ideaCategory s; selectedArticleIdea := selectedArticleIdea s;
     articleContent := articleContent s; isWritingArticle := isWritingArticle s;
     error := error s |}.

Definition set_isTranscribing (v : bool) (s : State) : State :=
  {| localTranscription := localTranscription s; isTranscribing := v;
     summary := summary s; isSummarizing := isSummarizing s;
     articleIdeas := articleIdeas s; isGeneratingIdeas := isGeneratingIdeas s;
     ideaCategory := ideaCategory s; selectedArticleIdea := selectedArticleIdea s;
     articleContent := articleContent s; isWritingArticle := isWritingArticle s;
     error := error s |}.

Definition set_summary (v : option string) (s : State) : State :=
  {| localTranscription := localTranscription s;
     isTranscribing := isTranscribing s;
     summary := v; isSummarizing := isSummarizing s;
     articleIdeas := articleIdeas s; isGeneratingIdeas := isGeneratingIdeas s;
     ideaCategory := ideaCategory s; selectedArticleIdea := selectedArticleIdea s;
     articleContent := articleContent s; isWritingArticle := isWritingArticle s;
     error := error s |}.

Definition set_isSummarizing (v : bool) (s : State) : State :=
  {| localTranscription := localTranscription s;
     isTranscribing := isTranscribing s;
     summary := summary s; isSummarizing := v;
     articleIdeas := articleIdeas s; isGeneratingIdeas := isGeneratingIdeas s;
     ideaCategory := ideaCategory s; selectedArticleIdea := selectedArticleIdea s;
     articleContent := articleContent s; isWritingArticle := isWritingArticle s;
     error := error s |}.

Definition set_articleIdeas (v : option json) (s : State) : State :=
  {| localTranscription := localTranscription s;
     isTranscribing := isTranscribing s;
     summary := summary s; isSummarizing := isSummarizing s;
     articleIdeas := v; isGeneratingIdeas := isGeneratingIdeas s;
     ideaCategory := ideaCategory s; selectedArticleIdea := selectedArticleIdea s;
     articleContent := articleContent s; isWritingArticle := isWritingArticle s;
     error := error s |}.

Definition set_isGeneratingIdeas (v : bool) (s : State) : State :=
  {| localTranscription := localTranscription s;
     isTranscribing := isTranscribing s;
     summary := summary s; isSummarizing := isSummarizing s;
     articleIdeas := articleIdeas s; isGeneratingIdeas := v;
     ideaCategory := ideaCategory s; selectedArticleIdea := selectedArticleIdea s;
     articleContent := articleContent s; isWritingArticle := isWritingArticle s;
     error := error s |}.

Definition set_ideaCategory (v : option string) (s : State) : State :=
  {| localTranscription := localTranscription s;
     isTranscribing := isTranscribing s;
     summary := summary s; isSummarizing := isSummarizing s;
     articleIdeas := articleIdeas s; isGeneratingIdeas := isGeneratingIdeas s;
     ideaCategory := v; selectedArticleIdea := selectedArticleIdea s;
     articleContent := articleContent s; isWritingArticle := isWritingArticle s;
     error := error s |}.

Definition set_selectedArticleIdea (v : option string) (s : State) : State :=
  {| localTranscription := localTranscription s;
     isTranscribing := isTranscribing s;
     summary := summary s; isSummarizing := isSummarizing s;
     articleIdeas := articleIdeas s; isGeneratingIdeas := isGeneratingIdeas s;
     ideaCategory := ideaCategory s; selectedArticleIdea := v;
     articleContent := articleContent s; isWritingArticle := isWritingArticle s;
     error := error s |}.

Definition set_articleContent (v : option string) (s : State) : State :=
  {| localTranscription := localTranscription s;
     isTranscribing := isTranscribing s;
     summary := summary s; isSummarizing := isSummarizing s;
     articleIdeas := articleIdeas s; isGeneratingIdeas := isGeneratingIdeas s;
     ideaCategory := ideaCategory s; selectedArticleIdea := selectedArticleIdea s;
     articleContent := v; isWritingArticle := isWritingArticle s;
     error := error s |}.

Definition set_isWritingArticle (v : bool) (s : State) : State :=
  {| localTranscription := localTranscription s;
     isTranscribing := isTranscribing s;
     summary := summary s; isSummarizing := isSummarizing s;
     articleIdeas := articleIdeas s; isGeneratingIdeas := isGeneratingIdeas s;
     ideaCategory := ideaCategory s; selectedArticleIdea := selectedArticleIdea s;
     articleContent := articleContent s; isWritingArticle := v;
     error := error s |}.

Definition set_error (v : option string) (s : State) : State :=
  {| localTranscription := localTranscription s;
     isTranscribing := isTranscribing s;
     summary := summary s; isSummarizing := isSummarizing s;
     articleIdeas := articleIdeas s; isGeneratingIdeas := isGeneratingIdeas s;
     ideaCategory := ideaCategory s; selectedArticleIdea := selectedArticleIdea s;
     articleContent := articleContent s; isWritingArticle := isWritingArticle s;
     error := v |}.

(** [err instanceof Error ? err.message : fallback] *)
Definition caught (fallback : string) (e : Thrown) : string :=
  match e with
  | ErrorValue m => m
  | OtherValue => fallback
  end.

(** [isYouTubeVideo(media) ? getYouTubeTranscript(media) : transcribeFile(media)],
    given what the request settled to. *)
Definition transcript (media : SelectedMedia) (response : Settled (option string))
    : result string :=
  match media with
  | RemoteVideo video => getYouTubeTranscript video response
  | LocalFile _ => transcribeFile response
  end.

(** [processMedia], up to its [await]. *)
Definition processMedia_begin (s : State) : State :=
  set_localTranscription None (set_error None (set_isTranscribing true s)).

(** [processMedia], from its [await] on. *)
Definition processMedia_settle (t : Settled string) (s : State) : State :=
  set_isTranscribing false
    match t with
    | Returned transcriptText => set_localTranscription (Some transcriptText) s
    | Threw e =>
        set_error (Some (caught "An unknown error occurred during processing." e)) s
    end.

(** The effect on [media], run to its end. *)
Definition processMedia (media : SelectedMedia)
    (response : Settled (option string)) (s : State) : State :=
  processMedia_settle (await (transcript media response)) (processMedia_begin s).

(** [handleSummarize], up to its [await]; [None] when it returns at once. *)
Definition handleSummarize_begin (s : State) : option State :=
  if negb (truthy (localTranscription s)) then None
  else Some (set_summary None (set_isSummarizing true s)).

Definition handleSummarize_settle (t : Settled string) (s : State) : State :=
  set_isSummarizing false
    match t with
    | Returned result => set_summary (Some result) s
    | Threw e => set_error (Some (caught "Failed to generate summary." e)) s
    end.

(** [handleGenerateIdeas] *)
Definition handleGenerateIdeas_begin (category : string) (s : State) : option State :=
  if negb (truthy (summary s)) then None
  else Some (set_articleIdeas None
               (set_ideaCategory (Some category) (set_isGeneratingIdeas true s))).

Definition handleGenerateIdeas_settle (t : Settled json) (s : State) : State :=
  set_ideaCategory None
    (set_isGeneratingIdeas false
       match t with
       | Returned ideas => set_articleIdeas (Some ideas) s
       | Threw e => set_error (Some (caught "Failed to generate ideas." e)) s
       end).

(** [handleWriteArticle] *)
Definition handleWriteArticle_begin (idea : string) (s : State) : option State :=
  if negb (truthy (localTranscription s)) then None
  else Some (set_articleContent None
               (set_isWritingArticle true
                  (set_selectedArticleIdea (Some idea) s))).

Definition handleWriteArticle_settle (t : Settled string) (s : State) : State :=
  set_isWritingArticle false
    match t with
    | Returned content => set_articleContent (Some content) s
    | Threw e => set_error (Some (caught "Failed to write article." e)) s
    end.

(** The element of the page that plays the media. *)
Inductive Player := iframe | audio | video.

(** [isYouTubeVideo(media) ? <iframe> : media.type.startsWith('audio/') ?
    <audio> : <video>] *)
Definition player (media : SelectedMedia) : Player :=
  match media with
  | RemoteVideo _ => iframe
  | LocalFile file =>
      if JS.startsWith "audio/" (file_type file) then audio else video
  end.

(** The [disabled] attribute of the button that creates the module. *)
Definition create_disabled (moduleStep : option App.ModuleStep) (s : State) : bool :=
  negb (truthy (localTranscription s)) || Session.is_some moduleStep.

(** What happens on the workbench: a click on one of its buttons, or a
    request of one of its handlers settling. *)
Inductive Event :=
| ClickSummarize
| SummarySettles (response : Settled (option string))
| ClickIdeas (category : string)
| IdeasSettle (response : Settled (option string))
| ClickWrite (idea : string)
| ArticleSettles (response : Settled (option string)).

Section WithParser.

Variable JSON_parse : string -> result json.

Definition step (e : Event) (s : State) : State :=
  match e with
  | ClickSummarize => default s (handleSummarize_begin s)
  | SummarySettles response =>
      handleSummarize_settle (await (summarizeAndUnderstand response)) s
  | ClickIdeas category => default s (handleGenerateIdeas_begin category s)
  | IdeasSettle response =>
      handleGenerateIdeas_settle (await (generateArticleIdeas JSON_parse response)) s
  | ClickWrite idea => default s (handleWriteArticle_begin idea s)
  | ArticleSettles response =>
      handleWriteArticle_settle (await (writeArticle response)) s
  end.

Definition run (events : list Event) (s : State) : State :=
  fold_left (fun st e => step e st) events s.

End WithParser.

End AnalysisView.

(** ** The analysis view: the parts of a summary *)

Module ParseSummary.

(** [s.split('\n')]: the lines of a text, one at least. *)
Fixpoint split_lines (s : string) : list string :=
  match s with
  | EmptyString => [EmptyString]
  | String c s' =>
      match split_lines s' with
      | [] => [String c EmptyString]
      | line :: lines =>
          if Ascii.eqb c "010" then EmptyString :: line :: lines
          else String c line :: lines
      end
  end.

(** The character is one of the two bullets, [*] and [-]. *)
Definition is_bullet (c : ascii) : bool := Ascii.eqb c "*" || Ascii.eqb c "-".

(** [line.replace(/^[\*\-]\s*/, '')]: a leading bullet goes with the white
    space after it. *)
Definition strip_bullet (line : string) : string :=
  match line with
  | EmptyString => EmptyString
  | String c rest => if is_bullet c then JS.trimStart rest else line
  end.

(** [line.startsWith('*') || line.startsWith('-')] *)
Definition starts_with_bullet (line : string) : bool :=
  match line with
  | EmptyString => false
  | String c _ => is_bullet c
  end.

(** [line.substring(1)] *)
Definition after_first (line : string) : string :=
  match line with
  | EmptyString => EmptyString
  | String _ rest => rest
  end.

(** [Boolean] on a string *)
Definition nonempty (s : string) : bool := negb (String.eqb s "").

(** [parts[i] || ''] *)
Definition part (parts : list string) (i : nat) : string := default "" (parts !! i).

(** The text has a line feed in it. *)
Fixpoint has_line_feed (s : string) : bool :=
  match s with
  | EmptyString => false
  | String c s' => Ascii.eqb c "010" || has_line_feed s'
  end.

(** A text of one line, with no white space at its ends. *)
Definition clean (s : string) : Prop := JS.trim s = s /\ has_line_feed s = false.

Section WithPatterns.

(** [text.split(keyConceptsHeaderRegex)]: the text cut at the header lines
    of the key concepts. *)
Variable split_at_header : string -> list string.

(** [text.replace(/^(quick summary|concise summary|summary):?\s*/i, '')]:
    the text without a leading title. *)
Variable strip_title : string -> string.

(** [parseSummary]: the points of the quick summary and the key concepts. *)
Definition parseSummary (text : option string) : list string * list string :=
  if negb (truthy text) then ([], [])
  else
    let summaryParts := split_at_header (default "" text) in
    let quickSummaryText := JS.trim (strip_title (part summaryParts 0)) in
    let keyConceptsText := part summaryParts 1 in
    (List.filter nonempty
       (map strip_bullet (map JS.trim (split_lines quickSummaryText))),
     map (fun line => JS.trim (after_first line))
       (List.filter starts_with_bullet
          (map JS.trim (split_lines keyConceptsText)))).

End WithPatterns.

End ParseSummary.

(** ** The chapter card: the problem-solving challenge *)

Module ConceptCard.

Import GeminiService TextServices.

(** The [useState] cells of the challenge. *)
Record Card := {
  solution : string;
  isEvaluating : bool;
  feedback : option string;
  evaluationError : option string }.

(** The mounted card: its cells, the index of the concept it is given, and
    the number of evaluation requests that have not settled. *)
Record State := { card : Card; conceptIndex : nat; pending : nat }.

Definition initial : State :=
  {| card := {| solution := ""; isEvaluating := false; feedback := None;
                evaluationError := None |};
     conceptIndex := 0; pending := 0 |}.

(** [feedback ? ... : <form>]: the text area and the submit button are
    shown. *)
Definition form_rendered (c : Card) : bool := negb (truthy (feedback c)).

(** [!solution.trim()] *)
Definition blank (s : string) : bool := String.eqb (JS.trim s) "".

(** The [disabled] attribute of the submit button. *)
Definition submit_disabled (c : Card) : bool :=
  isEvaluating c || blank (solution c).

(** [onChange={(e) => setSolution(e.target.value)}] *)
Definition setSolution (text : string) (c : Card) : Card :=
  {| solution := text; isEvaluating := isEvaluating c; feedback := feedback c;
     evaluationError := evaluationError c |}.

(** [handleSolutionSubmit], up to its [await]; [None] when it returns at
    once. *)
Definition handleSolutionSubmit_begin (c : Card) : option Card :=
  if blank (solution c) then None
  else Some {| solution := solution c; isEvaluating := true; feedback := None;
               evaluationError := None |}.

(** [handleSolutionSubmit], from its [await] on. *)
Definition handleSolutionSubmit_settle (t : Settled string) (c : Card) : Card :=
  match t with
  | Returned result =>
      {| solution := solution c; isEvaluating := false; feedback := Some result;
         evaluationError := evaluationError c |}
  | Threw e =>
      {| solution := solution c; isEvaluating := false; feedback := feedback c;
         evaluationError :=
           Some (AnalysisView.caught "An unknown error occurred." e) |}
  end.

Inductive Event :=
| TypeSolution (text : string)
| SubmitSolution
| EvaluationSettles (response : Settled (option string))
| ShowConcept (index : nat).

(** One event on the mounted card; [None] when the page does not offer it:
    the control is not shown or is disabled, or no request is under way. The
    chapter view mounts the card without a key, so that another concept is
    shown by the same card, with its cells as they are. *)
Definition step (e : Event) (st : State) : option State :=
  match e with
  | TypeSolution text =>
      if form_rendered (card st) && negb (isEvaluating (card st))
      then Some {| card := setSolution text (card st);
                   conceptIndex := conceptIndex st; pending := pending st |}
      else None
  | SubmitSolution =>
      if form_rendered (card st) && negb (submit_disabled (card st))
      then match handleSolutionSubmit_begin (card st) with
           | Some c => Some {| card := c; conceptIndex := conceptIndex st;
                               pending := S (pending st) |}
           | None => Some st
           end
      else None
  | EvaluationSettles response =>
      match pending st with
      | O => None
      | S n =>
          Some {| card := handleSolutionSubmit_settle
                            (await (evaluateSolution response)) (card st);
                  conceptIndex := conceptIndex st; pending := n |}
      end
  | ShowConcept index =>
      Some {| card := card st; conceptIndex := index; pending := pending st |}
  end.

Fixpoint run (events : list Event) (st : State) : option State :=
  match events with
  | [] => Some st
  | e :: rest =>
      match step e st with
      | Some st' => run rest st'
      | None => None
      end
  end.

(** The event shows another concept. *)
Definition is_show (e : Event) : bool :=
  match e with
  | ShowConcept _ => true
  | _ => false
  end.

(** At most one request is under way, the card says so, and no feedback is
    shown while one is. *)
Definition invariant (st : State) : Prop :=
  isEvaluating (card st) = (0 <? pending st)%nat
  /\ (pending st <= 1)%nat
  /\ (truthy (feedback (card st)) = true -> pending st = 0%nat).

End ConceptCard.

(** ** The chapter card: the illustration *)

Module ConceptImage.

Import GeminiService.

(** The [useState] cells of the illustration. *)
Record Cells := {
  imageUrl : option string;
  isImageLoading : bool;
  imageError : option string }.

(** A run of the effect whose request has not settled: the number of the
    effect, the prompt it asked an image for and its [isMounted] flag. *)
Record Run := { run_id : nat; run_prompt : string; isMounted : bool }.

(** The mounted card: its cells, [concept.image_prompt] of the concept it is
    given, the number of the latest effect, the runs that have not settled,
    and the prompt whose request returned the image held in [imageUrl]. *)
Record State := {
  cells : Cells;
  prompt : string;
  effect : nat;
  runs : list Run;
  illustrates : option string }.

Definition image_failed_message : string :=
  "Could not generate illustration for this concept.".

(** The function returned by the latest effect: it clears the flag of that
    effect. *)
Definition cleanup (st : State) : list Run :=
  map (fun r =>
         if Nat.eqb (run_id r) (effect st)
         then {| run_id := run_id r; run_prompt := run_prompt r;
                 isMounted := false |}
         else r)
    (runs st).

(** The body of the effect, as effect number [id] for prompt [p], up to its
    [await]. *)
Definition generate_begin (id : nat) (p : string) (st : State) : State :=
  if negb (truthy (Some p))
  then {| cells := cells st; prompt := p; effect := id; runs := runs st;
          illustrates := illustrates st |}
  else {| cells := {| imageUrl := None; isImageLoading := true;
                      imageError := None |};
          prompt := p; effect := id;
          runs := (runs st ++ [{| run_id := id; run_prompt := p;
                                  isMounted := true |}])%list;
          illustrates := None |}.

(** The body of the effect from its [await] on, for a run that settles. *)
Definition generate_settle (r : Run) (t : Settled string) (st : State)
    : Cells * option string :=
  if isMounted r
  then match t with
       | Returned url =>
           ({| imageUrl := Some url; isImageLoading := false;
               imageError := imageError (cells st) |},
            Some (run_prompt r))
       | Threw _ =>
           ({| imageUrl := imageUrl (cells st); isImageLoading := false;
               imageError := Some image_failed_message |},
            illustrates st)
       end
  else (cells st, illustrates st).

(** The card as it is mounted for a concept of prompt [p]: the first
    effect has run up to its [await]. *)
Definition mount (p : string) : State :=
  generate_begin 0 p
    {| cells := {| imageUrl := None; isImageLoading := false;
                   imageError := None |};
       prompt := p; effect := 0; runs := []; illustrates := None |}.

(** The run of effect [id] taken out of the runs. *)
Fixpoint take_run (id : nat) (rs : list Run) : option (Run * list Run) :=
  match rs with
  | [] => None
  | r :: rest =>
      if Nat.eqb (run_id r) id then Some (r, rest)
      else match take_run id rest with
           | Some (x, rest') => Some (x, r :: rest')
           | None => None
           end
  end.

Inductive Event :=
| ShowPrompt (p : string)
| ImageSettles (id : nat) (t : Settled string).

(** One event on the mounted card. The card is given a concept of prompt
    [p]: when the prompt is the one before, the effect does not run;
    otherwise the previous effect is cleaned up and the next one runs. Or
    the request of effect [id] settles, which takes a run of that effect. *)
Definition step (e : Event) (st : State) : option State :=
  match e with
  | ShowPrompt p =>
      if String.eqb p (prompt st) then Some st
      else Some (generate_begin (S (effect st)) p
                   {| cells := cells st; prompt := prompt st;
                      effect := effect st; runs := cleanup st;
                      illustrates := illustrates st |})
  | ImageSettles id t =>
      match take_run id (runs st) with
      | Some (r, rest) =>
          let '(c, shown) := generate_settle r t st in
          Some {| cells := c; prompt := prompt st; effect := effect st;
                  runs := rest; illustrates := shown |}
      | None => None
      end
  end.

Fixpoint run (events : list Event) (st : State) : option State :=
  match events with
  | [] => Some st
  | e :: rest =>
      match step e st with
      | Some st' => run rest st'
      | None => None
      end
  end.

(** A run of a prompt that is not empty; a run whose flag is set is the
    run of the latest effect and asked for the prompt of the concept shown;
    an image that is held was returned for the prompt of the concept shown,
    unless that concept has no prompt; and while the card says it is
    loading, a run has its flag set, unless the concept shown has no
    prompt. *)
Definition invariant (st : State) : Prop :=
  (forall r, r ∈ runs st -> run_prompt r <> "")
  /\ (forall r, r ∈ runs st -> isMounted r = true ->
                run_id r = effect st /\ run_prompt r = prompt st)
  /\ (forall u, imageUrl (cells st) = Some u ->
                exists q, illustrates st = Some q /\ q <> ""
                          /\ (prompt st = q \/ prompt st = ""))
  /\ (isImageLoading (cells st) = true ->
      prompt st = "" \/ exists r, r ∈ runs st /\ isMounted r = true).

End ConceptImage.

(** ** The upload component: the results of a video search *)

Module VideoSearch.

Import GeminiService.

Section Results.

(** The type of a search result, whatever the response held. *)
Context {A : Type}.

Record State := {
  searchQuery : string;
  isSearching : bool;
  searchResults : option (list A);
  searchError : option string;
  showAllResults : bool }.

(** [handleSearch], up to its [await]; [None] when it returns at once. *)
Definition handleSearch_begin (s : State) : option State :=
  if String.eqb (JS.trim (searchQuery s)) "" then None
  else Some {| searchQuery := searchQuery s; isSearching := true;
               searchResults := None; searchError := None;
               showAllResults := false |}.

(** [handleSearch], from its [await] on. *)
Definition handleSearch_settle (t : Settled (list A)) (s : State) : State :=
  match t with
  | Returned results =>
      {| searchQuery := searchQuery s; isSearching := false;
         searchResults := Some results; searchError := searchError s;
         showAllResults := showAllResults s |}
  | Threw e =>
      {| searchQuery := searchQuery s; isSearching := false;
         searchResults := searchResults s;
         searchError :=
           Some (AnalysisView.caught "Could not fetch video results." e);
         showAllResults := showAllResults s |}
  end.

(** [handleSearch], run to its end. *)
Definition handleSearch (t : Settled (list A)) (s : State) : State :=
  match handleSearch_begin s with
  | Some s' => handleSearch_settle t s'
  | None => s
  end.

(** [showAllResults ? searchResults : searchResults.slice(0, 4)], the rows
    of the list; none without results. *)
Definition rows (s : State) : list A :=
  match searchResults s with
  | Some results => if showAllResults s then results else take 4 results
  | None => []
  end.

(** [searchResults.length > 4]: the button that shows more or less. *)
Definition toggle_rendered (s : State) : bool :=
  match searchResults s with
  | Some results => (4 <? length results)%nat
  | None => false
  end.

(** [setShowAllResults(prev => !prev)] *)
Definition toggle (s : State) : State :=
  {| searchQuery := searchQuery s; isSearching := isSearching s;
     searchResults := searchResults s; searchError := searchError s;
     showAllResults := negb (showAllResults s) |}.

End Results.

Arguments State : clear implicits.

End VideoSearch.

(** ** The results component: the message and the colour of a score *)

Module ResultsFeedback.

Definition perfect_message : string :=
  "Perfect Score! You're a true master of this subject!".

Definition excellent_message : string :=
  "Excellent work! You have a strong grasp of the concepts.".

Definition great_message : string :=
  "Great effort! A little more review will make you an expert.".

Definition good_start_message : string :=
  "Good start! Keep practicing to strengthen your knowledge.".

(** [x === y] on numbers *)
Definition strict_equal (x y : spec_float) : bool := SFeqb x y.

(** [x >= y] on numbers *)
Definition ge (x y : spec_float) : bool := SFleb y x.

Definition getFeedbackMessage (percentage : spec_float) : string :=
  if strict_equal percentage (JS.of_Z 100) then perfect_message
  else if ge percentage (JS.of_Z 80) then excellent_message
  else if ge percentage (JS.of_Z 60) then great_message
  else good_start_message.

Definition getScoreColor (percentage : spec_float) : string :=
  if ge percentage (JS.of_Z 80) then "text-green-400"
  else if ge percentage (JS.of_Z 60) then "text-amber-400"
  else "text-red-400".

(** The comparisons of the two functions on the integers from 0 to [bound]
    are those of the integers. *)
Definition compares_as_integers (bound : nat) : bool :=
  forallb (fun n =>
    let x := JS.of_Z (Z.of_nat n) in
    Bool.eqb (strict_equal x (JS.of_Z 100)) (Z.of_nat n =? 100)
    && Bool.eqb (ge x (JS.of_Z 80)) (80 <=? Z.of_nat n)
    && Bool.eqb (ge x (JS.of_Z 60)) (60 <=? Z.of_nat n))
    (seq 0 (S bound)).

End ResultsFeedback.

(** ** The loading indicator *)

Module LoadingIndicator.

Definition messages : list string :=
  ["Transcribing your lecture...";
   "Identifying key concepts...";
   "Structuring learning chapters...";
   "Crafting interactive challenges...";
   "Designing completion badges...";
   "Almost there, your module is nearly ready!"].

(** [(prevIndex + 1) % messages.length], what the interval does every three
    seconds. *)
Definition tick (messageIndex : nat) : nat :=
  (messageIndex + 1) mod length messages.

(** The index after [n] ticks from the initial index 0. *)
Definition after (n : nat) : nat := Nat.iter n tick 0%nat.

End LoadingIndicator.

(** ** Values as they are received

    The module and the search results are what [JSON.parse] returned, under
    a cast that checks nothing. The operations below read such a value as
    the code does; the decoders say when it has the shape that [types.ts]
    declares, which is the shape the typed definitions above are about. *)

Module Unvalidated.

Import GeminiService.

(** The value of a hexadecimal digit. *)
Definition hex_digit (c : ascii) : nat :=
  let n := nat_of_ascii c in
  if is_digit c then (n - 48)%nat
  else if (97 <=? n)%nat then (n - 87)%nat else (n - 55)%nat.

(** The character that an escape letter stands for. *)
Definition escaped (e : ascii) : ascii :=
  if Ascii.eqb e "b" then "008"
  else if Ascii.eqb e "f" then "012"
  else if Ascii.eqb e "n" then "010"
  else if Ascii.eqb e "r" then "013"
  else if Ascii.eqb e "t" then "009"
  else e.

(** The code units that the lexeme of a string denotes, its escapes
    decoded; [None] when one of them is above 255, which the strings of
    this development do not hold. *)
Fixpoint code_units (cs : list ascii) : option (list ascii) :=
  match cs with
  | [] => Some []
  | c :: rest =>
      if Ascii.eqb c "\" then
        match rest with
        | e :: rest' =>
            if Ascii.eqb e "u" then
              match rest' with
              | h1 :: h2 :: h3 :: h4 :: rest'' =>
                  let n := (((hex_digit h1 * 16 + hex_digit h2) * 16
                             + hex_digit h3) * 16 + hex_digit h4)%nat in
                  if (n <? 256)%nat
                  then match code_units rest'' with
                       | Some units => Some (ascii_of_nat n :: units)
                       | None => None
                       end
                  else None
              | _ => None
              end
            else match code_units rest' with
                 | Some units => Some (escaped e :: units)
                 | None => None
                 end
        | [] => None
        end
      else match code_units rest with
           | Some units => Some (c :: units)
           | None => None
           end
  end.

(** The string that a lexeme denotes. *)
Definition text (lexeme : string) : option string :=
  string_of_list_ascii <$> code_units (list_ascii_of_string lexeme).

(** The own property [name] of a parsed object: the last member whose
    name, decoded, is [name]. *)
Fixpoint own (name : string) (members : list (string * json)) : option json :=
  match members with
  | [] => None
  | (k, v) :: rest =>
      match own name rest with
      | Some v' => Some v'
      | None => if bool_decide (text k = Some name) then Some v else None
      end
  end.

(** The [TypeError] of a property read on [undefined] or [null], of the
    [in] operator on a primitive, and of a platform function given a value
    it does not take; its message is left to the engine. *)
Definition type_error : Thrown := ErrorValue "TypeError".

(** [v.name], for a name that no prototype defines: [None] is
    [undefined]. *)
Definition member (name : string) (v : json) : Settled (option json) :=
  match v with
  | JNull => Threw type_error
  | JObject members => Returned (own name members)
  | _ => Returned None
  end.

(** The mantissa of a number lexeme and, after [e] or [E], its exponent. *)
Fixpoint split_exponent (cs : list ascii) : list ascii * option (list ascii) :=
  match cs with
  | [] => ([], None)
  | c :: rest =>
      if Ascii.eqb c "e" || Ascii.eqb c "E" then ([], Some rest)
      else let '(m, x) := split_exponent rest in (c :: m, x)
  end.

(** The integer that the digits among [cs] write, after [acc]. *)
Fixpoint digits_value (cs : list ascii) (acc : Z) : Z :=
  match cs with
  | [] => acc
  | c :: rest =>
      if is_digit c
      then digits_value rest (acc * 10 + Z.of_nat (nat_of_ascii c - 48))
      else digits_value rest acc
  end.

(** The number of digits after the point. *)
Fixpoint fraction_length (cs : list ascii) : nat :=
  match cs with
  | [] => 0
  | c :: rest => if Ascii.eqb c "." then length rest else fraction_length rest
  end.

Definition exponent_value (x : option (list ascii)) : Z :=
  match x with
  | None => 0
  | Some [] => 0
  | Some (c :: ds) =>
      if Ascii.eqb c "-" then - digits_value ds 0 else digits_value (c :: ds) 0
  end.

(** [n === 0] for the number of a lexeme: the digits of the mantissa are
    all zero, or the number, [d * 10 ^ e], is at most [2 ^ -1075] in
    magnitude and is rounded to zero. *)
Definition number_is_zero (lexeme : string) : bool :=
  let '(m, x) := split_exponent (list_ascii_of_string lexeme) in
  let d := digits_value m 0 in
  let e := exponent_value x - Z.of_nat (fraction_length m) in
  (d =? 0) || ((e <? 0) && (d * 2 ^ 1075 <=? 10 ^ (- e))).

(** [c.length === 0] for the value [c] of a property: reading [length] of
    [undefined] or [null] throws; a list and a string have their length, an
    object has the [length] it holds, a number and a boolean have none. *)
Definition length_is_zero (c : option json) : Settled bool :=
  match c with
  | None => Threw type_error
  | Some JNull => Threw type_error
  | Some (JArray elements) => Returned (length elements =? 0)%nat
  | Some (JString lexeme) => Returned (String.eqb lexeme "")
  | Some (JObject members) =>
      Returned match own "length" members with
               | Some (JNumber lexeme) => number_is_zero lexeme
               | _ => false
               end
  | Some (JBool _) => Returned false
  | Some (JNumber _) => Returned false
  end.

(** Truthiness of a parsed value. *)
Definition truthy_value (v : json) : bool :=
  match v with
  | JNull => false
  | JBool b => b
  | JNumber lexeme => negb (number_is_zero lexeme)
  | JString lexeme => negb (String.eqb lexeme "")
  | JArray _ => true
  | JObject _ => true
  end.

(** *** The shapes of [types.ts] *)

Definition field (name : string) (v : json) : option json :=
  match v with
  | JObject members => own name members
  | _ => None
  end.

Definition as_string (v : json) : option string :=
  match v with
  | JString lexeme => text lexeme
  | _ => None
  end.

Definition as_list {A} (item : json -> option A) (v : json) : option (list A) :=
  match v with
  | JArray elements => mapM item elements
  | _ => None
  end.

Definition string_field (name : string) (v : json) : option string :=
  field name v ≫= as_string.

Definition decode_question (v : json) : option QuizQuestion :=
  q ← string_field "question" v;
  o ← field "options" v ≫= as_list as_string;
  a ← string_field "answer" v;
  e ← string_field "explanation" v;
  Some {| question := q; options := o; answer := a; explanation := e |}.

Definition decode_flashcard (v : json) : option Flashcard :=
  f ← string_field "front" v;
  b ← string_field "back" v;
  Some {| front := f; back := b |}.

Definition decode_badge (v : json) : option Badge :=
  n ← string_field "name" v;
  d ← string_field "description" v;
  Some {| badge_name := n; badge_description := d |}.

Definition decode_challenge (v : json) : option ProblemSolvingChallenge :=
  s ← string_field "scenario" v;
  t ← string_field "task" v;
  Some {| scenario := s; task := t |}.

Definition decode_concept (v : json) : option Concept :=
  t ← string_field "title" v;
  s ← string_field "summary" v;
  sc ← string_field "story_scene" v;
  p ← string_field "image_prompt" v;
  q ← field "quiz" v ≫= as_list decode_question;
  f ← field "flashcards" v ≫= as_list decode_flashcard;
  b ← field "badge" v ≫= decode_badge;
  n ← string_field "narration" v;
  c ← field "problem_solving_challenge" v ≫= decode_challenge;
  Some {| title := t; summary := s; story_scene := sc;
          concept_image_prompt := p; quiz := q; flashcards := f; badge := b;
          narration := n; problem_solving_challenge := c |}.

Definition decode_item (v : json) : option VisualTaskItem :=
  t ← string_field "term" v;
  p ← string_field "image_prompt" v;
  Some {| term := t; image_prompt := p |}.

(** The module that a value is, when it has the shape of [ModuleData]. *)
Definition decode_module (v : json) : option ModuleData :=
  s ← string_field "simple_summary" v;
  t ← field "visual_task" v ≫= as_list decode_item;
  c ← field "concepts" v ≫= as_list decode_concept;
  Some {| simple_summary := s; visual_task := t; concepts := c |}.

(** The video that a value is, when it has the shape of [YouTubeVideo]. *)
Definition decode_video (v : json) : option YouTubeVideo :=
  i ← string_field "videoId" v;
  t ← string_field "title" v;
  c ← string_field "channelName" v;
  Some {| videoId := i; video_title := t; channelName := c |}.

(** *** The selected media *)

(** What [selectedMedia] holds: a file of the upload, or an element of the
    search results. *)
Inductive Media :=
| UploadedFile (file : File)
| SearchResult (element : json).

Definition decode_media (media : Media) : option SelectedMedia :=
  match media with
  | UploadedFile file => Some (LocalFile file)
  | SearchResult element => RemoteVideo <$> decode_video element
  end.

(** [selectedMedia && ...]: a file, being an object, is truthy. *)
Definition media_truthy (media : Media) : bool :=
  match media with
  | UploadedFile _ => true
  | SearchResult element => truthy_value element
  end.

(** [isYouTubeVideo(media)], that is ['videoId' in media]: the operator
    throws on a value that is no object; a file has no such property. *)
Definition isYouTubeVideo (media : Media) : Settled bool :=
  match media with
  | UploadedFile _ => Returned false
  | SearchResult (JObject members) =>
      Returned match own "videoId" members with
               | Some _ => true
               | None => false
               end
  | SearchResult (JArray _) => Returned false
  | SearchResult _ => Threw type_error
  end.

(** The element that plays the media in the analysis view, or what the
    render of the view throws: [URL.createObjectURL] throws on what is no
    file. [None] when the view is not rendered at all, the media being
    falsy. *)
Definition media_element (media : Media) : option (Settled AnalysisView.Player) :=
  if media_truthy media
  then Some match isYouTubeVideo media with
            | Threw e => Threw e
            | Returned true => Returned AnalysisView.iframe
            | Returned false =>
                match media with
                | UploadedFile file =>
                    Returned (AnalysisView.player (LocalFile file))
                | SearchResult _ => Threw type_error
                end
            end
  else None.

(** *** The application with the module as it is received *)

Record AppState := {
  view : App.View;
  error : option string;
  selectedMedia : option Media;
  moduleStep : option App.ModuleStep;
  moduleData : option json;
  transcription : option string;
  currentConceptIndex : Z;
  quizAnswers : QuizAnswers }.

Definition initial : AppState :=
  {| view := App.idle; error := None; selectedMedia := None;
     moduleStep := None; moduleData := None; transcription := None;
     currentConceptIndex := 0; quizAnswers := ∅ |}.

(** [startGeneration] up to its [await]. *)
Definition startGeneration_begin (text : string) (s : AppState) : AppState :=
  {| view := view s; error := None; selectedMedia := selectedMedia s;
     moduleStep := Some App.generating; moduleData := None;
     transcription := Some text; currentConceptIndex := 0;
     quizAnswers := ∅ |}.

(** The [catch] block:
    [setError(err instanceof Error ? err.message : 'An unknown error occurred.')]
    and [setView('error')]. *)
Definition startGeneration_catch (e : Thrown) (s : AppState) : AppState :=
  {| view := App.error_view;
     error := Some (AnalysisView.caught App.unknown_error_message e);
     selectedMedia := selectedMedia s; moduleStep := moduleStep s;
     moduleData := moduleData s; transcription := transcription s;
     currentConceptIndex := currentConceptIndex s;
     quizAnswers := quizAnswers s |}.

(** The [try] block after the [await], on the value [data] that
    [generateModuleData] returned: [data.concepts.length === 0] is read and
    tested; the result is the value to store, or what is thrown. *)
Definition checked (data : json) : Settled json :=
  match member "concepts" data with
  | Threw e => Threw e
  | Returned c =>
      match length_is_zero c with
      | Threw e => Threw e
      | Returned true => Threw (ErrorValue App.zero_concepts_message)
      | Returned false => Returned data
      end
  end.

(** [startGeneration] after its [await], given what
    [generateModuleData(text)] settled to. *)
Definition startGeneration_settle (t : Settled json) (s : AppState) : AppState :=
  match match t with
        | Threw e => Threw e
        | Returned data => checked data
        end with
  | Returned data =>
      {| view := view s; error := error s; selectedMedia := selectedMedia s;
         moduleStep := Some App.pre_module; moduleData := Some data;
         transcription := transcription s;
         currentConceptIndex := currentConceptIndex s;
         quizAnswers := quizAnswers s |}
  | Threw e => startGeneration_catch e s
  end.

Definition startGeneration (text : string) (t : Settled json) (s : AppState)
    : AppState :=
  startGeneration_settle t (startGeneration_begin text s).

(** The typed state that a state is, when the values it holds have the
    declared shapes. *)
Definition typed (s : AppState) : option App.AppState :=
  media ← match selectedMedia s with
          | Some m => Some <$> decode_media m
          | None => Some None
          end;
  data ← match moduleData s with
         | Some v => Some <$> decode_module v
         | None => Some None
         end;
  Some {| App.view := view s; App.error := error s;
          App.selectedMedia := media; App.moduleStep := moduleStep s;
          App.moduleData := data; App.transcription := transcription s;
          App.currentConceptIndex := currentConceptIndex s;
          App.quizAnswers := quizAnswers s |}.

(** The outcome of the typed [startGeneration] that a settled request is:
    a thrown value, what the [try] block throws, or the module that the
    stored value is, when it has the declared shape. *)
Definition typed_outcome (t : Settled json) : option App.GenOutcome :=
  match match t with
        | Threw e => Threw e
        | Returned data => checked data
        end with
  | Threw (ErrorValue m) => Some (App.Rejected (Some m))
  | Threw OtherValue => Some (App.Rejected None)
  | Returned data => App.Resolved <$> decode_module data
  end.

(** *** The quiz item on a question as it is received *)

Section ReceivedQuestion.

(** [v > 0] for a parsed value [v], with the conversions of the language. *)
Variable greater_than_zero : json -> bool.





End ReceivedQuestion.

(** *** The events of a session with the values as they are received *)

Inductive Event :=
| SelectFile (files : list File)
| SelectVideo (element : json)
| TryAgain
| ResetApp
| ResetModule
| CreateModule (localTranscription : string)
| Settle (t : Settled json)
| StartModule
| NextConcept
| PrevConcept
| FinishModule
| AnswerQuestion (questionIndex : nat) (c : QuizItem.Click).

(** The event of the typed session that an event is, when the value it
    brings has the declared shape. *)
Definition typed_event (e : Event) : option Session.Event :=
  match e with
  | SelectFile files => Some (Session.SelectFile files)
  | SelectVideo element => Session.SelectVideo <$> decode_video element
  | TryAgain => Some Session.TryAgain
  | ResetApp => Some Session.ResetApp
  | ResetModule => Some Session.ResetModule
  | CreateModule text => Some (Session.CreateModule text)
  | Settle t => Session.Settle <$> typed_outcome t
  | StartModule => Some Session.StartModule
  | NextConcept => Some Session.NextConcept
  | PrevConcept => Some Session.PrevConcept
  | FinishModule => Some Session.FinishModule
  | AnswerQuestion questionIndex c =>
      Some (Session.AnswerQuestion questionIndex c)
  end.

(** Every event brings values of the declared shapes: the events of the
    typed session that they are. *)
Definition typed_events (events : list Event) : option (list Session.Event) :=
  mapM typed_event events.

End Unvalidated.

(** ** Sample values as they are received *)

Module Received.

Definition a_question : json :=
  JObject [("question", JString "Which law relates force and acceleration?");
           ("options", JArray [JString "First"; JString "Second"; JString "Third"]);
           ("answer", JString "Second");
           ("explanation", JString "F = m a.")].

(** A short-answer question without [options], which the schema of the
    request does not require. *)
Definition a_question_without_options : json :=
  JObject [("question", JString "Which law relates force and acceleration?");
           ("answer", JString "Second");
           ("explanation", JString "F = m a.")].

(** A concept with the quiz [questions]. *)
Definition a_concept_of (questions : list json) : json :=
  JObject [("title", JString "Newton's laws");
           ("summary", JString "Three laws of motion.");
           ("story_scene", JString "In the Concept Kingdom an apple falls.");
           ("image_prompt", JString "an apple falling from a tree");
           ("quiz", JArray questions);
           ("flashcards",
            JArray [JObject [("front", JString "F"); ("back", JString "m a")];
                    JObject [("front", JString "Inertia");
                             ("back", JString "First law")]]);
           ("badge", JObject [("name", JString "Mover");
                              ("description", JString "Knows the laws.")]);
           ("narration", JString "An apple falls.");
           ("problem_solving_challenge",
            JObject [("scenario", JString "A cart is pushed.");
                     ("task", JString "Find its acceleration.")])].

(** A concept with [n] quiz questions. *)
Definition a_concept (n : nat) : json := a_concept_of (repeat a_question n).

Definition a_module (cs : list json) : json :=
  JObject [("simple_summary", JString "Forces change motion.");
           ("visual_task",
            JArray [JObject [("term", JString "force");
                             ("image_prompt", JString "a push")];
                    JObject [("term", JString "mass");
                             ("image_prompt", JString "a weight")];
                    JObject [("term", JString "motion");
                             ("image_prompt", JString "a rolling ball")]]);
           ("concepts", JArray cs)].

Definition a_video : json :=
  JObject [("videoId", JString "kKKM8Y-u7ds");
           ("title", JString "Newton's laws of motion");
           ("channelName", JString "Physics lectures")].

End Received.

(** ** The pre-module view over its lifetime

    The analysis view renders the pre-module view without a key, so that one
    mounted view is given the visual task of every module that is stored
    while the pre-module step lasts. Its effect on the visual task fetches
    the images again; the matched terms are not reset. *)

Module PreQuestLife.

Import PreQuestView.

(** The mounted view: the visual task it is given, its cells, and, for the
    statements, what the image requests of the latest fetch settle to, the
    matched terms it held when it was given the task, and the tasks it was
    given before. *)
Record View := {
  task : list VisualTaskItem;
  cells : State;
  images : string -> result string;
  inherited : list string;
  earlier : list (list VisualTaskItem) }.

Definition mount (generateImage : string -> result string)
    (visualTask : list VisualTaskItem) : View :=
  {| task := visualTask;
     cells := fetchImages generateImage visualTask initial;
     images := generateImage; inherited := []; earlier := [] |}.

Inductive Event :=
| DropOn (droppedTerm imagePrompt : string)
| NewTask (visualTask : list VisualTaskItem)
          (generateImage : string -> result string).

Definition step (e : Event) (v : View) : View :=
  match e with
  | DropOn droppedTerm imagePrompt =>
      {| task := task v;
         cells := handleDrop (task v) droppedTerm imagePrompt (cells v);
         images := images v; inherited := inherited v; earlier := earlier v |}
  | NewTask visualTask generateImage =>
      {| task := visualTask;
         cells := fetchImages generateImage visualTask (cells v);
         images := generateImage;
         inherited := matchedPairs (cells v);
         earlier := task v :: earlier v |}
  end.

Definition run (events : list Event) (v : View) : View :=
  fold_left (fun st e => step e st) events v.

(** The events of a sequence of drops. *)
Definition drop_events (drops : list Drop) : list Event :=
  map (fun d => DropOn (fst d) (snd d)) drops.

(** The visual task of a second module. *)
Definition later_task : list VisualTaskItem :=
  [{| term := "energy"; image_prompt := "a battery" |};
   {| term := "work"; image_prompt := "a lifted crate" |};
   {| term := "power"; image_prompt := "a running engine" |}].

(** The terms of the tasks that the view was given, the current one
    included. *)
Definition terms_shown (v : View) : list string :=
  flat_map (map term) (task v :: earlier v).

(** What holds of every view: the error says whether an image request of
    the latest fetch failed; no term is matched twice; the matches held when
    the task was given come first; and a term matched since is a term of the
    task. *)
Definition invariant (v : View) : Prop :=
  truthy (error (cells v)) = any_image_fails (images v) (task v)
  /\ NoDup (matchedPairs (cells v))
  /\ (exists since,
        matchedPairs (cells v) = (inherited v ++ since)%list
        /\ since ⊆ map term (task v))
  /\ inherited v ⊆ flat_map (map term) (earlier v).

End PreQuestLife.

(** * Properties *)

(** ** Concept navigation *)

Lemma set_currentConceptIndex_same (s : App.AppState) :
  App.set_currentConceptIndex (App.currentConceptIndex s) s = s.
Proof. by destruct s. Qed.

(** C2. In a module of [n] concepts and at an index [i] with
    [0 <= i <= n - 1], [handleNextConcept] moves to [i + 1] when [i] is below
    the last index and changes nothing at the last index,
    [handlePrevConcept] moves to [i - 1] when [i] is above 0 and changes
    nothing at 0, neither touches another cell, and both leave the index
    within [0, n - 1]. *)
Theorem next_prev_stay_in_range (s : App.AppState) (data : ModuleData) :
  App.moduleData s = Some data ->
  0 <= App.currentConceptIndex s <= Z.of_nat (length (concepts data)) - 1 ->
  App.handleNextConcept s
    = App.set_currentConceptIndex
        (if App.currentConceptIndex s <? Z.of_nat (length (concepts data)) - 1
         then App.currentConceptIndex s + 1 else App.currentConceptIndex s) s
  /\ App.handlePrevConcept s
    = App.set_currentConceptIndex
        (if 0 <? App.currentConceptIndex s
         then App.currentConceptIndex s - 1 else App.currentConceptIndex s) s
  /\ (App.currentConceptIndex s = Z.of_nat (length (concepts data)) - 1 ->
      App.handleNextConcept s = s)
  /\ (App.currentConceptIndex s = 0 -> App.handlePrevConcept s = s)
  /\ 0 <= App.currentConceptIndex (App.handleNextConcept s)
       <= Z.of_nat (length (concepts data)) - 1
  /\ 0 <= App.currentConceptIndex (App.handlePrevConcept s)
       <= Z.of_nat (length (concepts data)) - 1.
Proof.
  intros Hdata Hrange.
  unfold App.handleNextConcept, App.handlePrevConcept. rewrite Hdata.
  destruct (Z.ltb_spec (App.currentConceptIndex s)
              (Z.of_nat (length (concepts data)) - 1)) as [Hlt | Hge];
    destruct (Z.ltb_spec 0 (App.currentConceptIndex s)) as [Hpos | Hzero];
    repeat split; intros;
    rewrite ?set_currentConceptIndex_same;
    cbn [App.currentConceptIndex App.set_currentConceptIndex];
    try reflexivity; lia.
Qed.

(** Along any sequence of presses the module stays the same and the index
    stays within its range. *)
Lemma navigate_stays_in_range (data : ModuleData) (steps : list App.Nav) :
  forall s : App.AppState,
    App.moduleData s = Some data ->
    0 <= App.currentConceptIndex s <= Z.of_nat (length (concepts data)) - 1 ->
    App.moduleData (App.navigate steps s) = Some data
    /\ 0 <= App.currentConceptIndex (App.navigate steps s)
         <= Z.of_nat (length (concepts data)) - 1.
Proof.
  induction steps as [|n steps IH]; intros s Hdata Hrange; [by split|].
  change (App.navigate (n :: steps) s)
    with (App.navigate steps
            (match n with
             | App.Next => App.handleNextConcept s
             | App.Prev => App.handlePrevConcept s
             end)).
  apply IH; destruct n;
    unfold App.handleNextConcept, App.handlePrevConcept; rewrite ?Hdata;
    repeat match goal with
           | |- context [?a <? ?b] => destruct (Z.ltb_spec a b)
           end;
    cbn [App.currentConceptIndex App.moduleData App.set_currentConceptIndex];
    try assumption; lia.
Qed.

Lemma next_prev_stay_in_range_witness :
  App.currentConceptIndex (App.handleNextConcept (Samples.learning_at 1)) = 1
  /\ App.currentConceptIndex (App.handlePrevConcept (Samples.learning_at 1)) = 0.
Proof.
  destruct (next_prev_stay_in_range (Samples.learning_at 1)
              (Samples.a_module [Samples.a_concept 3; Samples.a_concept 3]))
    as (Hnext & Hprev & _).
  - reflexivity.
  - simpl. lia.
  - rewrite Hnext, Hprev. split; reflexivity.
Defined.

(** ** Module generation in the state machine *)

Lemma startGeneration_begin_step (text : string) (s : App.AppState) :
  App.moduleStep (App.startGeneration_begin text s) = Some App.generating.
Proof. reflexivity. Qed.

Lemma startGeneration_catch_keeps_step (m : option string) (s : App.AppState) :
  App.moduleStep (App.startGeneration_catch m s) = App.moduleStep s
  /\ App.view (App.startGeneration_catch m s) = App.error_view.
Proof. split; reflexivity. Qed.

(** On a module of the declared shape: when the generation settles to a
    module whose list of concepts is
    empty, [startGeneration] ends in the error view with the zero-concepts
    message, the step still [generating] and no module stored; and for any
    outcome whatever, the step after [startGeneration] is [pre_module]
    exactly when the outcome is a module with at least one concept. *)
Theorem startGeneration_zero_concepts (s : App.AppState) (text : string)
    (data : ModuleData) :
  concepts data = [] ->
  App.view (App.startGeneration text (App.Resolved data) s) = App.error_view
  /\ App.error (App.startGeneration text (App.Resolved data) s)
     = Some App.zero_concepts_message
  /\ App.moduleStep (App.startGeneration text (App.Resolved data) s)
     = Some App.generating
  /\ App.moduleData (App.startGeneration text (App.Resolved data) s) = None
  /\ forall o : App.GenOutcome,
       App.moduleStep (App.startGeneration text o s) = Some App.pre_module
       <-> exists d, o = App.Resolved d /\ (1 <= length (concepts d))%nat.
Proof.
  intros Hempty. unfold App.startGeneration, App.startGeneration_settle.
  rewrite Hempty. cbn. repeat split; try reflexivity.
  - destruct o as [d | m]; [|discriminate].
    destruct (concepts d) as [|c cs] eqn:Hc; cbn; [discriminate|].
    intros _. exists d. rewrite Hc. split; [reflexivity | cbn; lia].
  - intros (d & -> & Hlen).
    destruct (concepts d) as [|c cs]; cbn in *; [lia | reflexivity].
Qed.

Lemma startGeneration_zero_concepts_witness :
  App.view (App.startGeneration "Newton's laws..."
              (App.Resolved (Samples.a_module [])) App.initial)
  = App.error_view.
Proof.
  apply (startGeneration_zero_concepts App.initial "Newton's laws..."
           (Samples.a_module [])).
  reflexivity.
Defined.

(** ** Module generation on the value as it is received *)

(** The list that a decoded list is read from. *)
Lemma as_list_length {A} (item : json -> option A) (v : json) (l : list A) :
  Unvalidated.as_list item v = Some l ->
  exists elements, v = JArray elements /\ length elements = length l.
Proof.
  destruct v; try discriminate. cbn. intros H. eexists. split; [reflexivity|].
  by apply length_mapM in H.
Qed.

Lemma decode_module_concepts (data : json) (m : ModuleData) :
  Unvalidated.decode_module data = Some m ->
  exists elements,
    Unvalidated.member "concepts" data = GeminiService.Returned (Some (JArray elements))
    /\ length elements = length (concepts m).
Proof.
  unfold Unvalidated.decode_module. intros H.
  apply bind_Some in H as (s & Hs & H).
  apply bind_Some in H as (t & Ht & H).
  apply bind_Some in H as (c & Hc & H). injection H as <-.
  apply bind_Some in Hc as (v & Hv & Hc).
  apply as_list_length in Hc as (elements & -> & Hlen).
  exists elements. split; [| exact Hlen].
  destruct data; try discriminate. cbn in *. by rewrite Hv.
Qed.

Lemma checked_cases (data : json) :
  Unvalidated.checked data = GeminiService.Returned data
  \/ exists e, Unvalidated.checked data = GeminiService.Threw e.
Proof.
  unfold Unvalidated.checked.
  destruct (Unvalidated.member "concepts" data) as [c | e]; [| eauto].
  destruct (Unvalidated.length_is_zero c) as [[] | e]; eauto.
Qed.

Lemma typed_startGeneration_begin (text : string) (s : Unvalidated.AppState)
    (s' : App.AppState) :
  Unvalidated.typed s = Some s' ->
  Unvalidated.typed (Unvalidated.startGeneration_begin text s)
  = Some (App.startGeneration_begin text s').
Proof.
  unfold Unvalidated.typed. intros H.
  apply bind_Some in H as (media & Hmedia & H).
  apply bind_Some in H as (d & Hd & H). injection H as <-.
  cbn. by rewrite Hmedia.
Qed.

(** On a settled request that the typed model has an outcome for, the
    continuation on the received value does what the typed one does. *)
Lemma startGeneration_settle_typed (t : GeminiService.Settled json)
    (o : App.GenOutcome) (s : Unvalidated.AppState) (s' : App.AppState) :
  Unvalidated.typed_outcome t = Some o ->
  Unvalidated.typed s = Some s' ->
  Unvalidated.typed (Unvalidated.startGeneration_settle t s)
  = Some (App.startGeneration_settle o s').
Proof.
  unfold Unvalidated.typed_outcome, Unvalidated.startGeneration_settle.
  intros Ho Hs.
  assert (forall e m, match e with
                      | GeminiService.ErrorValue x => Some (App.Rejected (Some x))
                      | GeminiService.OtherValue => Some (App.Rejected None)
                      end = Some m ->
                      Unvalidated.typed (Unvalidated.startGeneration_catch e s)
                      = Some (App.startGeneration_settle m s')) as Hcatch.
  { intros e m Hm. unfold Unvalidated.typed in *.
    apply bind_Some in Hs as (media & Hmedia & Hs).
    apply bind_Some in Hs as (d & Hd & Hs). injection Hs as <-.
    cbn. rewrite Hmedia. cbn. rewrite Hd. cbn.
    destruct e; injection Hm as <-; reflexivity. }
  destruct t as [data | e]; [| by apply Hcatch].
  destruct (Unvalidated.checked data) as [v | e] eqn:Hchk; [| by apply Hcatch].
  destruct (checked_cases data) as [Hd | [e He]]; [| congruence].
  rewrite Hchk in Hd. injection Hd as ->.
  destruct (Unvalidated.decode_module data) as [m|] eqn:Hm; [| discriminate].
  injection Ho as <-.
  destruct (decode_module_concepts data m Hm) as (elements & Hc & Hlen).
  unfold Unvalidated.checked in Hchk. rewrite Hc in Hchk. cbn in Hchk.
  destruct (length elements =? 0)%nat eqn:Hz; [discriminate|].
  unfold Unvalidated.typed in *.
  apply bind_Some in Hs as (media & Hmedia & Hs).
  apply bind_Some in Hs as (d & Hd & Hs). injection Hs as <-.
  cbn. rewrite Hmedia. cbn. rewrite Hm. cbn. by rewrite <- Hlen, Hz.
Qed.

Lemma startGeneration_typed (text : string) (t : GeminiService.Settled json)
    (o : App.GenOutcome) (s : Unvalidated.AppState) (s' : App.AppState) :
  Unvalidated.typed_outcome t = Some o ->
  Unvalidated.typed s = Some s' ->
  Unvalidated.typed (Unvalidated.startGeneration text t s)
  = Some (App.startGeneration text o s').
Proof.
  intros Ho Hs. unfold Unvalidated.startGeneration, App.startGeneration.
  apply startGeneration_settle_typed; [exact Ho|].
  by apply typed_startGeneration_begin.
Qed.

(** C4. [startGeneration] on the value that the request settles to, as it
    is received: when its [concepts] is the empty list, the application ends
    in the error view with the zero-concepts message, the step still
    [generating] and nothing stored. The step after [startGeneration] is
    [pre_module] exactly when reading [concepts] of the value succeeds and
    its [length] is not 0; then the value is stored as the module, and
    otherwise the application is in the error view with nothing stored. For
    a value of the declared shape this is exactly when the module has at
    least one concept, and the typed [App.startGeneration] is what
    [startGeneration] does on the values of the declared shapes. *)
Theorem startGeneration_unvalidated (text : string) (data : json)
    (s : Unvalidated.AppState) :
  (Unvalidated.member "concepts" data = GeminiService.Returned (Some (JArray [])) ->
   Unvalidated.view
     (Unvalidated.startGeneration text (GeminiService.Returned data) s)
   = App.error_view
   /\ Unvalidated.error
        (Unvalidated.startGeneration text (GeminiService.Returned data) s)
      = Some App.zero_concepts_message
   /\ Unvalidated.moduleStep
        (Unvalidated.startGeneration text (GeminiService.Returned data) s)
      = Some App.generating
   /\ Unvalidated.moduleData
        (Unvalidated.startGeneration text (GeminiService.Returned data) s)
      = None)
  /\ (Unvalidated.moduleStep
        (Unvalidated.startGeneration text (GeminiService.Returned data) s)
      = Some App.pre_module
      <-> exists c,
            Unvalidated.member "concepts" data = GeminiService.Returned c
            /\ Unvalidated.length_is_zero c = GeminiService.Returned false)
  /\ (Unvalidated.moduleStep
        (Unvalidated.startGeneration text (GeminiService.Returned data) s)
      = Some App.pre_module ->
      Unvalidated.moduleData
        (Unvalidated.startGeneration text (GeminiService.Returned data) s)
      = Some data
      /\ Unvalidated.view
           (Unvalidated.startGeneration text (GeminiService.Returned data) s)
         = Unvalidated.view s)
  /\ (Unvalidated.moduleStep
        (Unvalidated.startGeneration text (GeminiService.Returned data) s)
      <> Some App.pre_module ->
      Unvalidated.view
        (Unvalidated.startGeneration text (GeminiService.Returned data) s)
      = App.error_view
      /\ Unvalidated.moduleStep
           (Unvalidated.startGeneration text (GeminiService.Returned data) s)
         = Some App.generating
      /\ Unvalidated.moduleData
           (Unvalidated.startGeneration text (GeminiService.Returned data) s)
         = None)
  /\ (forall m,
        Unvalidated.decode_module data = Some m ->
        (Unvalidated.moduleStep
           (Unvalidated.startGeneration text (GeminiService.Returned data) s)
         = Some App.pre_module
         <-> (1 <= length (concepts m))%nat))
  /\ (forall o s',
        Unvalidated.typed_outcome (GeminiService.Returned data) = Some o ->
        Unvalidated.typed s = Some s' ->
        Unvalidated.typed
          (Unvalidated.startGeneration text (GeminiService.Returned data) s)
        = Some (App.startGeneration text o s')).
Proof.
  assert (Unvalidated.moduleStep
            (Unvalidated.startGeneration text (GeminiService.Returned data) s)
          = Some App.pre_module
          <-> exists c,
                Unvalidated.member "concepts" data = GeminiService.Returned c
                /\ Unvalidated.length_is_zero c = GeminiService.Returned false)
    as Hiff.
  { unfold Unvalidated.startGeneration, Unvalidated.startGeneration_settle,
      Unvalidated.checked.
    destruct (Unvalidated.member "concepts" data) as [c | e]; cbn.
    - destruct (Unvalidated.length_is_zero c) as [[] | e] eqn:Hz; cbn.
      + split; [discriminate|]. intros (c' & [= <-] & Hz'). congruence.
      + split; [eauto | reflexivity].
      + split; [discriminate|]. intros (c' & [= <-] & Hz'). congruence.
    - split; [discriminate|]. by intros (c' & [=] & _). }
  split; [| split; [exact Hiff | split; [| split; [| split]]]].
  - intros Hc. unfold Unvalidated.startGeneration,
      Unvalidated.startGeneration_settle, Unvalidated.checked.
    rewrite Hc. cbn. by repeat split.
  - unfold Unvalidated.startGeneration, Unvalidated.startGeneration_settle.
    destruct (checked_cases data) as [-> | [e ->]]; cbn; [by split | discriminate].
  - unfold Unvalidated.startGeneration, Unvalidated.startGeneration_settle.
    destruct (checked_cases data) as [-> | [e ->]]; cbn; [congruence | by split].
  - intros m Hm. rewrite Hiff.
    destruct (decode_module_concepts data m Hm) as (elements & Hc & Hlen).
    rewrite <- Hlen. split.
    + intros (c & Hc' & Hz). rewrite Hc in Hc'. injection Hc' as <-.
      cbn in Hz. injection Hz as Hz. apply Nat.eqb_neq in Hz. lia.
    + intros Hpos. eexists. split; [exact Hc|]. cbn. f_equal.
      apply Nat.eqb_neq. lia.
  - intros o s' Ho Hs. by apply startGeneration_typed.
Qed.

(** C4, the claim as stated fails for a response whose [concepts] is no
    list: the text of an object whose [concepts] is the number 5 is parsed
    and returned by [generateModuleData], the length of the number 5 is
    undefined and so not 0, and [startGeneration] reaches [pre_module] and
    stores a value that holds no concept and is no module. *)
Lemma startGeneration_stores_non_list :
  GeminiService.generateModuleData GeminiService.JSON_parse_reference
    (GeminiService.Returned (Some ("{" ++ quoted "concepts" ++ ": 5}")))
  = Ok (JObject [("concepts", JNumber "5")])
  /\ Unvalidated.moduleStep
       (Unvalidated.startGeneration "Newton's laws..."
          (TextServices.await
             (GeminiService.generateModuleData
                GeminiService.JSON_parse_reference
                (GeminiService.Returned
                   (Some ("{" ++ quoted "concepts" ++ ": 5}")))))
          Unvalidated.initial)
     = Some App.pre_module
  /\ Unvalidated.moduleData
       (Unvalidated.startGeneration "Newton's laws..."
          (TextServices.await
             (GeminiService.generateModuleData
                GeminiService.JSON_parse_reference
                (GeminiService.Returned
                   (Some ("{" ++ quoted "concepts" ++ ": 5}")))))
          Unvalidated.initial)
     = Some (JObject [("concepts", JNumber "5")])
  /\ Unvalidated.member "concepts" (JObject [("concepts", JNumber "5")])
     = GeminiService.Returned (Some (JNumber "5"))
  /\ Unvalidated.decode_module (JObject [("concepts", JNumber "5")]) = None.
Proof. vm_compute. repeat split. Qed.

(** ** Resets *)

(** C5. [resetModule] keeps the selected media and the transcription (and
    the view and the error), and clears the module data, the quiz answers,
    the step and the concept index; [resetState], the full reset, gives the
    initial idle state, with no media, no transcription and no error. *)
Theorem reset_effects (s : App.AppState) :
  App.resetModule s
  = {| App.view := App.view s; App.error := App.error s;
       App.selectedMedia := App.selectedMedia s;
       App.moduleStep := None; App.moduleData := None;
       App.transcription := App.transcription s;
       App.currentConceptIndex := 0; App.quizAnswers := ∅ |}
  /\ App.resetState s = App.initial
  /\ App.resetState (App.resetModule s) = App.resetState s
  /\ App.view App.initial = App.idle
  /\ App.selectedMedia App.initial = None
  /\ App.transcription App.initial = None
  /\ App.error App.initial = None
  /\ App.moduleData App.initial = None
  /\ App.quizAnswers App.initial = ∅
  /\ App.currentConceptIndex App.initial = 0.
Proof. repeat split. Qed.

(** ** Recording answers *)

Lemma answer_at_recordAnswer (m : QuizAnswers) (c q : nat) (sel : string)
    (ok : bool) (c' q' : nat) :
  App.answer_at (App.recordAnswer c q sel ok m) c' q'
  = if decide ((c', q') = (c, q))
    then Some {| selected := sel; isCorrect := ok |}
    else App.answer_at m c' q'.
Proof.
  unfold App.answer_at, App.recordAnswer.
  destruct (decide (c = c')) as [<- | Hc].
  - rewrite lookup_insert_eq. cbn.
    destruct (decide (q = q')) as [<- | Hq].
    + rewrite lookup_insert_eq. by rewrite decide_True.
    + rewrite lookup_insert_ne by done.
      rewrite decide_False by congruence.
      by destruct (m !! c).
  - rewrite lookup_insert_ne by done.
    by rewrite decide_False by congruence.
Qed.

(** C7. Recording the same answer twice gives the same mapping as recording
    it once; after the upsert the entry of the question is the recorded
    answer and the entry of every other (concept, question) key is what it
    was before. *)
Theorem recordAnswer_idempotent (m : QuizAnswers) (c q : nat) (sel : string)
    (ok : bool) :
  App.recordAnswer c q sel ok (App.recordAnswer c q sel ok m)
  = App.recordAnswer c q sel ok m
  /\ forall c' q' : nat,
       App.answer_at (App.recordAnswer c q sel ok m) c' q'
       = if decide ((c', q') = (c, q))
         then Some {| selected := sel; isCorrect := ok |}
         else App.answer_at m c' q'.
Proof.
  split; [|apply answer_at_recordAnswer].
  unfold App.recordAnswer.
  rewrite lookup_insert_eq. cbn.
  by rewrite !insert_insert_eq.
Qed.

(** ** Upload validation *)

Lemma MAX_FILE_SIZE_BYTES_value : FileUpload.MAX_FILE_SIZE_BYTES = 20971520.
Proof. reflexivity. Qed.

Lemma too_large_message_value :
  FileUpload.too_large_message
  = "File is too large. Please select a file smaller than 20 MB.".
Proof. reflexivity. Qed.

(** C6. A chosen file whose media type starts with [audio/] or [video/] and
    whose size is at most 20 MB (20 * 1024 * 1024 bytes) is handed to the
    application, which stores it as the selected media and shows the
    dashboard, with no error in the component; any other file leaves the
    application state as it was and sets a non-empty message in the
    component: the type message for a wrong type, the size message for an
    oversized audio or video file. *)
Theorem selectFile_accepts_exactly (file : File) (rest : list File)
    (app : App.AppState) :
  FileUpload.selectFile (file :: rest) app
  = (if (JS.startsWith "audio/" (file_type file)
        || JS.startsWith "video/" (file_type file))
       && (file_size file <=? 20 * 1024 * 1024)
    then (App.handleFileSelect file app, None)
    else (app,
          Some (if JS.startsWith "audio/" (file_type file)
                   || JS.startsWith "video/" (file_type file)
                then FileUpload.too_large_message
                else FileUpload.invalid_type_message)))
  /\ App.selectedMedia (App.handleFileSelect file app) = Some (LocalFile file)
  /\ App.view (App.handleFileSelect file app) = App.dashboard
  /\ truthy (Some FileUpload.too_large_message) = true
  /\ truthy (Some FileUpload.invalid_type_message) = true.
Proof.
  repeat split.
  unfold FileUpload.selectFile, FileUpload.handleFileChange.
  rewrite MAX_FILE_SIZE_BYTES_value.
  destruct (JS.startsWith "audio/" (file_type file));
    destruct (JS.startsWith "video/" (file_type file)); cbn [negb andb orb];
    try reflexivity;
    rewrite Z.gtb_ltb;
    change (20 * 1024 * 1024) with 20971520;
    destruct (Z.ltb_spec 20971520 (file_size file));
    destruct (Z.leb_spec (file_size file) 20971520); try lia; reflexivity.
Qed.

Example selectFile_exactly_20MB :
  FileUpload.selectFile
    [{| file_type := "video/mp4"; file_size := 20971520 |}] App.initial
  = (App.handleFileSelect {| file_type := "video/mp4"; file_size := 20971520 |}
       App.initial, None).
Proof. reflexivity. Qed.

Example selectFile_pdf :
  FileUpload.selectFile
    [{| file_type := "application/pdf"; file_size := 10 |}] App.initial
  = (App.initial, Some "Please upload a valid audio or video file.").
Proof. reflexivity. Qed.

Example selectFile_oversized :
  FileUpload.selectFile
    [{| file_type := "audio/mpeg"; file_size := 20971521 |}] App.initial
  = (App.initial,
     Some "File is too large. Please select a file smaller than 20 MB.").
Proof. reflexivity. Qed.

(** ** The score *)

Lemma is_correct_recorded (answers : QuizAnswers) (c q : nat) :
  ResultsOverview.is_correct answers c q
  = ScoreSpec.recorded_correct answers (c, q).
Proof.
  unfold ResultsOverview.is_correct, ScoreSpec.recorded_correct, App.answer_at.
  cbn. by destruct (answers !! c).
Qed.

Lemma count_quiz_spec (answers : QuizAnswers) (c : nat) (qs : list QuizQuestion) :
  forall (q : nat) (acc : Z * Z),
    ResultsOverview.count_quiz answers c qs q acc
    = (fst acc + Z.of_nat (length (List.filter (ScoreSpec.recorded_correct answers)
                                     (map (pair c) (seq q (length qs))))),
       snd acc + Z.of_nat (length qs)).
Proof.
  induction qs as [|x qs IH]; intros q [a t]; cbn [ResultsOverview.count_quiz].
  - cbn. f_equal; lia.
  - rewrite IH. cbn [fst snd length seq map List.filter].
    rewrite is_correct_recorded.
    destruct (ScoreSpec.recorded_correct answers (c, q)); cbn [length];
      f_equal; lia.
Qed.

Lemma count_concepts_spec (answers : QuizAnswers) (cs : list Concept) :
  forall (c : nat) (acc : Z * Z),
    ResultsOverview.count_concepts answers cs c acc
    = (fst acc + Z.of_nat (length (List.filter (ScoreSpec.recorded_correct answers)
                                     (ScoreSpec.positions_from c cs))),
       snd acc + Z.of_nat (list_sum (map (fun x => length (quiz x)) cs))).
Proof.
  induction cs as [|x cs IH]; intros c [a t];
    cbn [ResultsOverview.count_concepts ScoreSpec.positions_from].
  - cbn. f_equal; lia.
  - rewrite IH, count_quiz_spec. cbn [fst snd map].
    rewrite List.filter_app, length_app.
    unfold list_sum. cbn [fold_right]. f_equal; lia.
Qed.

(** The counters of the score are the specification's counts. *)
Lemma compute_score_counts (cs : list Concept) (answers : QuizAnswers) :
  ResultsOverview.score (ResultsOverview.compute_score cs answers)
  = ScoreSpec.correctCount cs answers
  /\ ResultsOverview.totalQuestions (ResultsOverview.compute_score cs answers)
     = ScoreSpec.totalQuestionCount cs
  /\ ResultsOverview.percentage (ResultsOverview.compute_score cs answers)
     = ResultsOverview.percentage_of (ScoreSpec.correctCount cs answers)
         (ScoreSpec.totalQuestionCount cs).
Proof.
  unfold ResultsOverview.compute_score. rewrite count_concepts_spec. cbn.
  repeat split.
Qed.

Lemma positions_from_length (cs : list Concept) :
  forall c, length (ScoreSpec.positions_from c cs)
            = list_sum (map (fun x => length (quiz x)) cs).
Proof.
  induction cs as [|x cs IH]; intros c; cbn; [reflexivity|].
  by rewrite length_app, length_map, length_seq, IH.
Qed.

Lemma correctCount_bounds (cs : list Concept) (answers : QuizAnswers) :
  0 <= ScoreSpec.correctCount cs answers <= ScoreSpec.totalQuestionCount cs.
Proof.
  unfold ScoreSpec.correctCount, ScoreSpec.totalQuestionCount.
  rewrite <- (positions_from_length cs 0).
  pose proof (List.filter_length_le (ScoreSpec.recorded_correct answers)
                (ScoreSpec.positions_from 0 cs)).
  lia.
Qed.

Lemma agrees_below_40 : ScoreSpec.agrees_below 40 = true.
Proof. vm_compute. reflexivity. Qed.

(** With fewer than forty questions in all, as in every module of at most
    ten concepts of three questions, the percentage is the exact quotient
    rounded half up, and it is 0 when there is no question. *)
Lemma percentage_below_40 (cs : list Concept) (answers : QuizAnswers) :
  ScoreSpec.totalQuestionCount cs < 40 ->
  ResultsOverview.percentage (ResultsOverview.compute_score cs answers)
  = JS.of_Z (ScoreSpec.round_half_up (100 * ScoreSpec.correctCount cs answers)
               (ScoreSpec.totalQuestionCount cs)).
Proof.
  intros Hlt.
  destruct (compute_score_counts cs answers) as (_ & _ & ->).
  pose proof (correctCount_bounds cs answers) as [Hc0 Hct].
  pose proof agrees_below_40 as Htab. unfold ScoreSpec.agrees_below in Htab.
  rewrite List.forallb_forall in Htab.
  specialize (Htab (Z.to_nat (ScoreSpec.totalQuestionCount cs))).
  rewrite List.forallb_forall in Htab.
  specialize (Htab ltac:(apply in_seq; lia)
                (Z.to_nat (ScoreSpec.correctCount cs answers))
                ltac:(apply in_seq; lia)).
  apply bool_decide_eq_true_1 in Htab.
  by rewrite !Z2Nat.id in Htab by lia.
Qed.

Lemma percentage_zero_total (cs : list Concept) (answers : QuizAnswers) :
  ScoreSpec.totalQuestionCount cs = 0 ->
  ResultsOverview.percentage (ResultsOverview.compute_score cs answers)
  = JS.of_Z 0.
Proof.
  intros H0. destruct (compute_score_counts cs answers) as (_ & _ & ->).
  unfold ResultsOverview.percentage_of. by rewrite H0.
Qed.

(** The exact quotient is rounded half up at a tie that the division
    represents exactly: 1 of 8 is 12.5 per cent and gives 13. *)
Example percentage_1_of_8 :
  ResultsOverview.percentage_of 1 8 = JS.of_Z 13
  /\ ScoreSpec.round_half_up (100 * 1) 8 = 13
  /\ ScoreSpec.round_half_even (100 * 1) 8 = 12.
Proof. vm_compute. repeat split. Qed.

(** C1, at a module of ten concepts of four questions with 23 questions
    answered correctly. The counters are 23 and 40, and the exact percentage
    is 57.5; the double [23 / 40] is below 0.575 and its product with 100 is
    57.5 - 2^-47, the double just below 57.5, which [Math.round] takes to
    57, not to 58. *)
Theorem percentage_23_of_40 :
  ResultsOverview.score
    (ResultsOverview.compute_score Samples.forty_questions
       Samples.twenty_three_correct) = 23
  /\ ResultsOverview.totalQuestions
       (ResultsOverview.compute_score Samples.forty_questions
          Samples.twenty_three_correct) = 40
  /\ ScoreSpec.correctCount Samples.forty_questions Samples.twenty_three_correct
     = 23
  /\ ScoreSpec.totalQuestionCount Samples.forty_questions = 40
  /\ JS.mul (JS.div (JS.of_Z 23) (JS.of_Z 40)) (JS.of_Z 100)
     = S754_finite false 8092405580431359 (-47)
  /\ 8092405580431359 + 1 = 115 * 2 ^ 46
  /\ ResultsOverview.percentage
       (ResultsOverview.compute_score Samples.forty_questions
          Samples.twenty_three_correct) = JS.of_Z 57
  /\ ScoreSpec.round_half_up (100 * 23) 40 = 58
  /\ JS.of_Z 57 <> JS.of_Z 58.
Proof. vm_compute. repeat split; discriminate. Qed.

(** ** Image generation and its retries *)

Section GenerateImage.

Import GeminiService.

Variable outcomes : nat -> Settled (option (list string)).

(** An attempt that succeeds ends the run with no delay after it. *)
Lemma generateImage_loop_success (n retries : nat) (backoff : Z) (url : string) :
  attempt (outcomes n) = Returned url ->
  generateImage_loop outcomes n (S retries) backoff = ([Request], Ok url).
Proof. intros H. cbn. by rewrite H. Qed.

(** A failure that is not a rate limit ends the run at once: no delay and no
    further request, whatever number of retries is left. *)
Lemma generateImage_loop_other_failure (n retries : nat) (backoff : Z) (e : Thrown) :
  attempt (outcomes n) = Threw e ->
  rate_limited e = false ->
  generateImage_loop outcomes n (S retries) backoff
  = ([Request],
     Err (rethrow "Failed to generate image: "
            "An unknown error occurred during image generation." e)).
Proof. intros H Hr. cbn. by rewrite H, Hr. Qed.

(** A rate-limit failure sleeps for the current backoff and goes round with
    one retry less and the backoff doubled. *)
Lemma generateImage_loop_rate_limited (n retries : nat) (backoff : Z) (e : Thrown) :
  attempt (outcomes n) = Threw e ->
  rate_limited e = true ->
  generateImage_loop outcomes n (S retries) backoff
  = (Request :: Sleep backoff
       :: fst (generateImage_loop outcomes (S n) retries (backoff * 2)),
     snd (generateImage_loop outcomes (S n) retries (backoff * 2))).
Proof.
  intros H Hr. cbn [generateImage_loop]. rewrite H, Hr. cbn.
  by destruct (generateImage_loop outcomes (S n) retries (backoff * 2)).
Qed.

(** The number of requests of a run never exceeds the initial [retries]. *)
Lemma generateImage_loop_requests (retries : nat) :
  forall (n : nat) (backoff : Z),
    (requests (fst (generateImage_loop outcomes n retries backoff)) <= retries)%nat.
Proof.
  induction retries as [|r IH]; intros n backoff; cbn [generateImage_loop].
  - cbn. lia.
  - destruct (attempt (outcomes n)) as [url | e]; [cbn; lia|].
    destruct (rate_limited e); cbn [andb Nat.ltb Nat.leb]; [|cbn; lia].
    specialize (IH (S n) (backoff * 2)).
    destruct (generateImage_loop outcomes (S n) r (backoff * 2)) as [ev res].
    cbn in *. lia.
Qed.

(** C3, when every attempt fails with a rate-limit error. The run is:
    request, sleep 1000, request, sleep 2000, request, sleep 4000, and then
    the terminal error. Three requests are sent, that is two retries; the
    third delay is followed by no request, and the terminal error comes after
    the third failure. *)
Theorem generateImage_all_rate_limited :
  (forall n, exists e, attempt (outcomes n) = Threw e /\ rate_limited e = true) ->
  generateImage outcomes
  = ([Request; Sleep 1000; Request; Sleep 2000; Request; Sleep 4000],
     Err retries_exhausted_message)
  /\ requests (fst (generateImage outcomes)) = 3%nat
  /\ delays (fst (generateImage outcomes)) = [1000; 2000; 4000].
Proof.
  intros Hall.
  assert (generateImage outcomes
          = ([Request; Sleep 1000; Request; Sleep 2000; Request; Sleep 4000],
             Err retries_exhausted_message)) as Hrun.
  { unfold generateImage.
    destruct (Hall 0%nat) as (e0 & H0 & R0).
    destruct (Hall 1%nat) as (e1 & H1 & R1).
    destruct (Hall 2%nat) as (e2 & H2 & R2).
    rewrite (generateImage_loop_rate_limited _ _ _ _ H0 R0).
    rewrite (generateImage_loop_rate_limited _ _ _ _ H1 R1).
    rewrite (generateImage_loop_rate_limited _ _ _ _ H2 R2).
    reflexivity. }
  rewrite Hrun. repeat split.
Qed.

End GenerateImage.

Lemma generateImage_all_rate_limited_witness :
  GeminiService.requests
    (fst (GeminiService.generateImage
            (fun _ => GeminiService.Threw
                        (GeminiService.ErrorValue "429 Too Many Requests"))))
  = 3%nat.
Proof.
  apply (generateImage_all_rate_limited
           (fun _ => GeminiService.Threw
                       (GeminiService.ErrorValue "429 Too Many Requests"))).
  intros n. eexists. split; reflexivity.
Defined.

(** A request that fails without a rate limit is not retried. *)
Example generateImage_server_error :
  GeminiService.generateImage
    (fun _ => GeminiService.Threw (GeminiService.ErrorValue "500 Internal"))
  = ([GeminiService.Request], Err "Failed to generate image: 500 Internal").
Proof. reflexivity. Qed.

(** One rate limit, then an image. *)
Example generateImage_second_attempt :
  GeminiService.generateImage
    (fun n => match n with
              | O => GeminiService.Threw (GeminiService.ErrorValue "429")
              | S _ => GeminiService.Returned (Some ["iVBOR"])
              end)
  = ([GeminiService.Request; GeminiService.Sleep 1000; GeminiService.Request],
     Ok "data:image/png;base64,iVBOR").
Proof. reflexivity. Qed.

(** ** Locating the bracketed region of a search response *)

Lemma string_app_cons (a : ascii) (s t : string) :
  String a s ++ t = String a (s ++ t).
Proof. reflexivity. Qed.

Lemma string_app_nil (t : string) : "" ++ t = t.
Proof. reflexivity. Qed.

Ltac string_app := rewrite ?string_app_cons, ?string_app_nil.

Lemma string_length_app (s1 s2 : string) :
  String.length (s1 ++ s2) = (String.length s1 + String.length s2)%nat.
Proof.
  induction s1 as [|a s1 IH]; string_app; cbn; [reflexivity | by rewrite IH].
Qed.

Lemma substring_whole_prefix (p post : string) :
  String.substring 0 (String.length p) (p ++ post) = p.
Proof.
  induction p as [|a p IH]; string_app; cbn; [by destruct post | by rewrite IH].
Qed.

Lemma substring_skip (pre s : string) (n : nat) :
  String.substring (String.length pre) n (pre ++ s) = String.substring 0 n s.
Proof.
  induction pre as [|a pre IH]; string_app; cbn; [reflexivity | apply IH].
Qed.

Lemma from_first_split (c : ascii) (s suf : string) :
  TextSpec.from_first c s = Some suf ->
  exists pre rest,
    s = pre ++ suf /\ suf = String c rest /\ TextSpec.occurs c pre = false.
Proof.
  induction s as [|a s IH]; cbn; [discriminate|].
  destruct (Ascii.eqb_spec a c) as [-> | Hne].
  - intros [= <-]. by exists EmptyString, s.
  - intros H. destruct (IH H) as (pre & rest & -> & -> & Hpre).
    exists (String a pre), rest. cbn. rewrite Hpre.
    by destruct (Ascii.eqb_spec a c).
Qed.

Lemma upto_last_none (c : ascii) (s : string) :
  TextSpec.upto_last c s = None -> TextSpec.occurs c s = false.
Proof.
  induction s as [|b s IH]; cbn; [reflexivity|].
  destruct (TextSpec.upto_last c s); [discriminate|].
  destruct (Ascii.eqb b c); [discriminate|]. intros _. by apply IH.
Qed.

Lemma upto_last_split (c : ascii) (s p : string) :
  TextSpec.upto_last c s = Some p ->
  exists init post,
    s = p ++ post /\ p = init ++ String c EmptyString
    /\ TextSpec.occurs c post = false.
Proof.
  revert p. induction s as [|a s IH]; cbn; [discriminate|]. intros p.
  destruct (TextSpec.upto_last c s) as [p'|] eqn:Hs.
  - intros [= <-]. destruct (IH p' eq_refl) as (init & post & -> & -> & Hpost).
    by exists (String a init), post.
  - destruct (Ascii.eqb_spec a c) as [-> | Hne]; [|discriminate].
    intros [= <-]. exists EmptyString, s. repeat split.
    by apply upto_last_none.
Qed.

Lemma upto_last_app (c : ascii) (pre suf : string) :
  TextSpec.upto_last c (pre ++ suf)
  = match TextSpec.upto_last c suf with
    | Some p => Some (pre ++ p)
    | None => TextSpec.upto_last c pre
    end.
Proof.
  induction pre as [|a pre IH]; string_app; cbn.
  - by destruct (TextSpec.upto_last c suf).
  - rewrite IH. by destruct (TextSpec.upto_last c suf).
Qed.

Lemma indexOf_from_spec (c : ascii) (s : string) :
  forall i : Z,
    JS.indexOf_from c s i
    = match TextSpec.from_first c s with
      | Some suf => i + Z.of_nat (String.length s - String.length suf)
      | None => -1
      end.
Proof.
  induction s as [|a s IH]; intros i; cbn [JS.indexOf_from TextSpec.from_first];
    [reflexivity|].
  destruct (Ascii.eqb a c).
  - rewrite Nat.sub_diag. lia.
  - rewrite IH. destruct (TextSpec.from_first c s) as [suf|] eqn:Hs; [|reflexivity].
    destruct (from_first_split _ _ _ Hs) as (pre & rest & -> & _ & _).
    cbn [String.length]. rewrite string_length_app. lia.
Qed.

Lemma lastIndexOf_from_spec (c : ascii) (s : string) :
  forall i last : Z,
    JS.lastIndexOf_from c s i last
    = match TextSpec.upto_last c s with
      | Some p => i + Z.of_nat (String.length p) - 1
      | None => last
      end.
Proof.
  induction s as [|a s IH]; intros i last;
    cbn [JS.lastIndexOf_from TextSpec.upto_last]; [reflexivity|].
  rewrite IH. destruct (TextSpec.upto_last c s) as [p|].
  - cbn [String.length]. lia.
  - destruct (Ascii.eqb a c); cbn [String.length]; lia.
Qed.

Lemma upto_last_length (c : ascii) (s p : string) :
  TextSpec.upto_last c s = Some p ->
  (1 <= String.length p <= String.length s)%nat.
Proof.
  intros H. destruct (upto_last_split _ _ _ H) as (init & post & -> & -> & _).
  rewrite !string_length_app. cbn. lia.
Qed.

(** The index arithmetic of [searchYouTube] selects the bracketed region:
    the guard fails exactly when there is a region, and the substring is
    that region. *)
Lemma substring_is_bracket_region (text : string) :
  let startIndex := JS.indexOf "[" text in
  let endIndex := JS.lastIndexOf "]" text in
  match TextSpec.bracket_region text with
  | Some region =>
      (startIndex =? -1) || (endIndex =? -1) || (endIndex <? startIndex) = false
      /\ JS.substring startIndex (endIndex + 1) text = region
  | None =>
      (startIndex =? -1) || (endIndex =? -1) || (endIndex <? startIndex) = true
  end.
Proof.
  cbv zeta. unfold JS.indexOf, JS.lastIndexOf, TextSpec.bracket_region.
  rewrite indexOf_from_spec, lastIndexOf_from_spec.
  destruct (TextSpec.from_first "[" text) as [suf|] eqn:Hsuf; cbn [mbind option_bind];
    [|reflexivity].
  destruct (from_first_split _ _ _ Hsuf) as (pre & rest & -> & Hrest & _).
  rewrite upto_last_app, string_length_app.
  replace (String.length pre + String.length suf - String.length suf)%nat
    with (String.length pre) by lia.
  destruct (TextSpec.upto_last "]" suf) as [p|] eqn:Hp.
  - pose proof (upto_last_length _ _ _ Hp) as Hlen.
    destruct (upto_last_split _ _ _ Hp) as (init & post & -> & _ & _).
    rewrite string_length_app in *. split.
    + repeat (apply orb_false_intro); [apply Z.eqb_neq | apply Z.eqb_neq
                                      | apply Z.ltb_ge]; lia.
    + unfold JS.substring. rewrite !string_length_app.
      replace (Z.to_nat _) with (String.length pre) by lia.
      replace (Z.to_nat _) with (String.length p) by lia.
      rewrite substring_skip. apply substring_whole_prefix.
  - destruct (TextSpec.upto_last "]" pre) as [p'|] eqn:Hp'.
    + pose proof (upto_last_length _ _ _ Hp') as Hlen.
      apply orb_true_intro. right. apply Z.ltb_lt. lia.
    + rewrite orb_true_iff. left. rewrite orb_true_iff. right. reflexivity.
Qed.

(** A region found by [bracket_region] starts at the first opening bracket
    of the text, ends at its last closing bracket, and is delimited by
    them. *)
Lemma bracket_region_split (text region : string) :
  TextSpec.bracket_region text = Some region ->
  exists pre mid post,
    text = pre ++ region ++ post
    /\ region = "[" ++ mid ++ "]"
    /\ TextSpec.occurs "[" pre = false
    /\ TextSpec.occurs "]" post = false.
Proof.
  unfold TextSpec.bracket_region.
  destruct (TextSpec.from_first "[" text) as [suf|] eqn:Hsuf; [|discriminate].
  cbn [mbind option_bind]. intros Hp.
  destruct (from_first_split _ _ _ Hsuf) as (pre & rest & -> & Hrest & Hpre).
  destruct (upto_last_split _ _ _ Hp) as (init & post & Hs & Hreg & Hpost).
  exists pre.
  destruct init as [|a init].
  - subst region. rewrite Hrest in Hs. discriminate.
  - exists init, post. subst region. rewrite Hs. repeat split; try assumption.
    rewrite Hrest in Hs. by injection Hs as -> _.
Qed.

Section SearchAndGenerate.

Import GeminiService.

Variable JSON_parse : string -> result json.

(** [searchYouTube] on a returned response, by cases on the bracketed
    region of its text. *)
Lemma searchYouTube_by_region (text : option string) :
  searchYouTube JSON_parse (Returned text)
  = if truthy text
    then match TextSpec.bracket_region (default "" text) with
         | Some region =>
             match JSON_parse region with
             | Ok v => Ok v
             | Err _ => Err ("Failed to search YouTube: " ++ malformed_json_message)
             end
         | None => Err ("Failed to search YouTube: " ++ unexpected_format_message)
         end
    else Err ("Failed to search YouTube: " ++ no_results_message).
Proof.
  unfold searchYouTube. destruct (truthy text); cbn [negb]; [|reflexivity].
  pose proof (substring_is_bracket_region (default "" text)) as H.
  cbv zeta in H |- *.
  destruct (TextSpec.bracket_region (default "" text)) as [region|].
  - destruct H as [-> ->]. by destruct (JSON_parse region).
  - by rewrite H.
Qed.

(** C8, as the code has it. For a response without text, or with the empty
    text, [searchYouTube] raises the no-results error. Otherwise it takes the
    region from the first opening bracket to the last closing bracket after
    it and hands that region alone to [JSON.parse]: with no such region it
    raises the unexpected-format error, with a region that is not JSON the
    malformed-JSON error, and with a region that is JSON it returns the
    parsed value as it is. The region, when there is one, is text between
    the two brackets with no opening bracket before it and no closing bracket
    after it. *)
Theorem searchYouTube_parses_bracket_region (text : option string) :
  searchYouTube JSON_parse (Returned text)
  = (if truthy text
     then match TextSpec.bracket_region (default "" text) with
          | Some region =>
              match JSON_parse region with
              | Ok v => Ok v
              | Err _ => Err ("Failed to search YouTube: " ++ malformed_json_message)
              end
          | None => Err ("Failed to search YouTube: " ++ unexpected_format_message)
          end
     else Err ("Failed to search YouTube: " ++ no_results_message))
  /\ forall region,
       TextSpec.bracket_region (default "" text) = Some region ->
       exists pre mid post,
         default "" text = pre ++ region ++ post
         /\ region = "[" ++ mid ++ "]"
         /\ TextSpec.occurs "[" pre = false
         /\ TextSpec.occurs "]" post = false.
Proof.
  split.
  - apply searchYouTube_by_region.
  - intros region Hregion. by apply bracket_region_split.
Qed.

(** C9, as the code has it. When the request returns, [generateModuleData]
    raises an error exactly when the response text is absent or empty or
    the text, with the fence markers and the surrounding white space removed,
    is not JSON; otherwise it returns the parsed value as it is. When the
    request itself throws, it raises an error. *)
Theorem generateModuleData_errors (text : option string) :
  generateModuleData JSON_parse (Returned text)
  = (if truthy text
     then match JSON_parse (JS.trim (strip_fences (default "" text))) with
          | Ok v => Ok v
          | Err m => Err ("Failed to generate module concepts: " ++ m)
          end
     else Err ("Failed to generate module concepts: " ++ empty_module_message))
  /\ ((exists m, generateModuleData JSON_parse (Returned text) = Err m)
      <-> truthy text = false
          \/ exists m, JSON_parse (JS.trim (strip_fences (default "" text))) = Err m)
  /\ forall e, exists m, generateModuleData JSON_parse (Threw e) = Err m.
Proof.
  assert (generateModuleData JSON_parse (Returned text)
          = (if truthy text
             then match JSON_parse (JS.trim (strip_fences (default "" text))) with
                  | Ok v => Ok v
                  | Err m => Err ("Failed to generate module concepts: " ++ m)
                  end
             else Err ("Failed to generate module concepts: " ++ empty_module_message)))
    as Heq.
  { unfold generateModuleData. destruct (truthy text); cbn [negb]; [|reflexivity].
    by destruct (JSON_parse _). }
  split; [exact Heq|]. split.
  - rewrite Heq. destruct (truthy text).
    + destruct (JSON_parse _) as [v | m].
      * split; [intros [m' [=]] | intros [[=] | [m' [=]]]].
      * split; eauto.
    + split; eauto.
  - intros e. unfold generateModuleData. cbn. eauto.
Qed.

End SearchAndGenerate.

(** The reference parser reads a text that starts with an opening bracket
    as an array, if it reads it at all. *)
Lemma elements_array (fuel : nat) :
  forall cs acc v r,
    Json.elements fuel cs acc = Some (v, r) -> exists xs, v = JArray xs.
Proof.
  induction fuel as [|fuel IH]; intros cs acc v r; cbn [Json.elements];
    [discriminate|].
  destruct (Json.value fuel cs) as [[v0 r0]|]; [|discriminate].
  destruct (Json.skip_ws r0) as [|c r']; [discriminate|].
  destruct (Ascii.eqb c ","); [apply IH|].
  destruct (Ascii.eqb c "]"); [|discriminate].
  intros [= <- _]. eauto.
Qed.

Lemma parse_bracket_array (rest : string) (v : json) :
  Json.parse (String "[" rest) = Some v -> exists xs, v = JArray xs.
Proof.
  unfold Json.parse. cbn [list_ascii_of_string length Nat.mul Nat.add].
  rewrite Nat.add_succ_r. cbn [Json.value].
  change (Json.skip_ws ("["%char :: list_ascii_of_string rest))
    with ("["%char :: list_ascii_of_string rest).
  cbn [Ascii.eqb Bool.eqb].
  destruct (Json.skip_ws (list_ascii_of_string rest)) as [|c' r'];
    [discriminate|].
  destruct (Ascii.eqb c' "]").
  - destruct (Json.skip_ws r'); [|discriminate]. intros [= <-]. eauto.
  - destruct (Json.elements _ _ _) as [[v0 r0]|] eqn:He; [|discriminate].
    apply elements_array in He as [xs ->].
    destruct (Json.skip_ws r0); [|discriminate]. intros [= <-]. eauto.
Qed.

(** With the reference parser, whatever [searchYouTube] returns is an array;
    its elements are not looked at. *)
Lemma searchYouTube_reference_array (text : option string) (v : json) :
  GeminiService.searchYouTube GeminiService.JSON_parse_reference
    (GeminiService.Returned text) = Ok v ->
  exists xs, v = JArray xs.
Proof.
  rewrite searchYouTube_by_region. destruct (truthy text); [|discriminate].
  destruct (TextSpec.bracket_region (default "" text)) as [region|] eqn:Hr;
    [|discriminate].
  destruct (bracket_region_split _ _ Hr) as (pre & mid & post & _ & -> & _).
  unfold GeminiService.JSON_parse_reference.
  destruct (Json.parse ("[" ++ mid ++ "]")) as [v'|] eqn:Hp; [|discriminate].
  intros [= <-]. by apply parse_bracket_array in Hp.
Qed.

(** The fence markers of a fenced response are removed before parsing. *)
Example generateModuleData_fenced :
  GeminiService.generateModuleData GeminiService.JSON_parse_reference
    (GeminiService.Returned
       (Some ("```json" ++ GeminiService.LF
              ++ "{" ++ quoted "concepts" ++ ": []}"
              ++ GeminiService.LF ++ "```")))
  = Ok (JObject [("concepts", JArray [])]).
Proof. vm_compute. reflexivity. Qed.

(** C9, the claim as stated fails: the response [{}] is JSON, so no error is
    raised and the empty object is returned, although it has none of the
    properties the module schema requires. *)
Lemma generateModuleData_returns_unvalidated :
  GeminiService.generateModuleData GeminiService.JSON_parse_reference
    (GeminiService.Returned (Some "{}"))
  = Ok (JObject [])
  /\ conforms GeminiService.moduleSchema (JObject []) = false.
Proof. vm_compute. split; reflexivity. Qed.

(** C8, the claim as stated fails: the bracketed region of the response is
    JSON but no list of videos, and it is returned, with no error. *)
Lemma searchYouTube_returns_non_videos :
  GeminiService.searchYouTube GeminiService.JSON_parse_reference
    (GeminiService.Returned (Some "Here you go: [1, 2] enjoy"))
  = Ok (JArray [JNumber "1"; JNumber "2"])
  /\ conforms GeminiService.videoListSchema (JArray [JNumber "1"; JNumber "2"])
     = false.
Proof. vm_compute. split; reflexivity. Qed.

(** A well-formed list of videos, with prose around it. *)
Example searchYouTube_videos :
  GeminiService.searchYouTube GeminiService.JSON_parse_reference
    (GeminiService.Returned
       (Some ("Sure! [{" ++ quoted "videoId" ++ ": " ++ quoted "abc" ++ ", "
              ++ quoted "title" ++ ": " ++ quoted "Physics" ++ ", "
              ++ quoted "channelName" ++ ": " ++ quoted "MIT" ++ "}] Done.")))
  = Ok (JArray [JObject [("videoId", JString "abc"); ("title", JString "Physics");
                         ("channelName", JString "MIT")]])
  /\ conforms GeminiService.videoListSchema
       (JArray [JObject [("videoId", JString "abc"); ("title", JString "Physics");
                         ("channelName", JString "MIT")]]) = true.
Proof. vm_compute. split; reflexivity. Qed.

(** Brackets in the wrong order, or a region that is not JSON. *)
Example searchYouTube_bad_texts :
  GeminiService.searchYouTube GeminiService.JSON_parse_reference
    (GeminiService.Returned (Some "] nothing ["))
  = Err "Failed to search YouTube: The AI returned search results in an unexpected format. Please try rephrasing your search."
  /\ GeminiService.searchYouTube GeminiService.JSON_parse_reference
       (GeminiService.Returned (Some "[see [1] and [2]]"))
     = Err "Failed to search YouTube: The AI returned malformed JSON data from search results.".
Proof. vm_compute. split; reflexivity. Qed.

(** ** The pre-module gate *)

Section PreQuest.

Import PreQuestView.

Variable visualTask : list VisualTaskItem.

Lemma includes_elem_of (t : string) (l : list string) :
  includes t l = true <-> t ∈ l.
Proof.
  unfold includes. rewrite existsb_exists. split.
  - intros (x & Hin & Heq). apply String.eqb_eq in Heq as ->.
    by apply list_elem_of_In.
  - intros Hin. exists t. split; [by apply list_elem_of_In | apply String.eqb_refl].
Qed.

Lemma correctTerm_is_term (imagePrompt t : string) :
  correctTerm visualTask imagePrompt = Some t -> t ∈ map term visualTask.
Proof.
  unfold correctTerm.
  destruct (List.find _ visualTask) as [item|] eqn:Hfind; [|discriminate].
  intros [= <-]. apply find_some in Hfind as [Hin _].
  apply list_elem_of_In, in_map, Hin.
Qed.

(** What a drop does to the matched terms: nothing, or it appends a term of
    the visual task that was not matched yet. *)
Lemma handleDrop_matchedPairs (droppedTerm imagePrompt : string) (s : State) :
  matchedPairs (handleDrop visualTask droppedTerm imagePrompt s) = matchedPairs s
  \/ (matchedPairs (handleDrop visualTask droppedTerm imagePrompt s)
      = (matchedPairs s ++ [droppedTerm])%list
      /\ (droppedTerm ∉ matchedPairs s)
      /\ (droppedTerm ∈ map term visualTask)).
Proof.
  cbn [handleDrop matchedPairs].
  destruct (correctTerm visualTask imagePrompt) as [t|] eqn:Ht; [|by left].
  destruct (String.eqb_spec droppedTerm t) as [-> | Hne]; [|by left].
  destruct (includes t (matchedPairs s)) eqn:Hinc; cbn [negb andb]; [by left|].
  right. split; [reflexivity|]. split; [|by eapply correctTerm_is_term].
  intros Hin. apply includes_elem_of in Hin. congruence.
Qed.

Lemma handleDrop_error (droppedTerm imagePrompt : string) (s : State) :
  error (handleDrop visualTask droppedTerm imagePrompt s) = error s.
Proof. reflexivity. Qed.

Lemma run_drops_cons (d : Drop) (drops : list Drop) (s : State) :
  run_drops visualTask (d :: drops) s
  = run_drops visualTask drops (handleDrop visualTask (fst d) (snd d) s).
Proof. reflexivity. Qed.

Lemma run_drops_error (drops : list Drop) :
  forall s, error (run_drops visualTask drops s) = error s.
Proof.
  induction drops as [|d drops IH]; intros s; [reflexivity|].
  by rewrite run_drops_cons, IH.
Qed.

(** The matched terms stay pairwise distinct terms of the visual task. *)
Lemma run_drops_invariant (drops : list Drop) :
  forall s,
    NoDup (matchedPairs s) ->
    matchedPairs s ⊆ map term visualTask ->
    NoDup (matchedPairs (run_drops visualTask drops s))
    /\ matchedPairs (run_drops visualTask drops s) ⊆ map term visualTask.
Proof.
  induction drops as [|[d p] drops IH]; intros s Hnd Hsub; [by split|].
  rewrite run_drops_cons. cbn [fst snd].
  apply IH;
    destruct (handleDrop_matchedPairs d p s) as [-> | (-> & Hnew & Hterm)];
    try assumption.
  - apply NoDup_app. split; [assumption|]. split; [|apply NoDup_singleton].
    intros x Hx Hx'. apply list_elem_of_singleton in Hx' as ->. by apply Hnew.
  - intros x Hx. apply elem_of_app in Hx as [Hx | Hx]; [by apply Hsub|].
    by apply list_elem_of_singleton in Hx as ->.
Qed.

(** With pairwise distinct terms, as many matched terms as items means
    every term matched. *)
Lemma isTaskComplete_all_terms_matched (s : State) :
  NoDup (map term visualTask) ->
  NoDup (matchedPairs s) ->
  matchedPairs s ⊆ map term visualTask ->
  isTaskComplete visualTask s = all_terms_matched visualTask s.
Proof.
  intros Hterms Hnd Hsub. unfold isTaskComplete, all_terms_matched.
  pose proof (NoDup_submseteq _ _ Hnd Hsub) as Hle.
  apply eq_true_iff_eq. rewrite Nat.eqb_eq, forallb_forall. split.
  - intros Hlen item Hin. apply includes_elem_of.
    assert (matchedPairs s ≡ₚ map term visualTask) as Hperm.
    { apply submseteq_length_Permutation; [assumption|].
      rewrite length_map. lia. }
    rewrite Hperm. apply list_elem_of_In, in_map, Hin.
  - intros Hall.
    assert (map term visualTask ⊆+ matchedPairs s) as Hge.
    { apply NoDup_submseteq; [assumption|]. intros t Ht.
      apply list_elem_of_In, in_map_iff in Ht as (item & <- & Hin).
      apply includes_elem_of, Hall, Hin. }
    apply submseteq_length in Hle, Hge. rewrite length_map in *. lia.
Qed.

Variable generateImage : string -> result string.

Lemma fetch_loop_failed (items : list VisualTaskItem) :
  forall urls, snd (fetch_loop generateImage items urls)
               = any_image_fails generateImage items.
Proof.
  induction items as [|item items IH]; intros urls; cbn; [reflexivity|].
  destruct (generateImage (image_prompt item)); [apply IH | reflexivity].
Qed.

Lemma fetchImages_error (s : State) :
  truthy (error (fetchImages generateImage visualTask s))
  = any_image_fails generateImage visualTask
  /\ matchedPairs (fetchImages generateImage visualTask s) = matchedPairs s.
Proof.
  unfold fetchImages. rewrite <- (fetch_loop_failed visualTask ∅).
  by destruct (fetch_loop generateImage visualTask ∅) as [urls []].
Qed.

(** The view just mounted, for a visual task whose terms are pairwise
    distinct. After the
    images were fetched and after any sequence of drops, the start control is
    disabled exactly when not every term of the visual task is matched and no
    image request failed; so when an image request failed the control is
    enabled whatever was matched, and with no drop at all. *)
Theorem start_disabled_iff (drops : list Drop) :
  NoDup (map term visualTask) ->
  start_disabled visualTask
    (run_drops visualTask drops (fetchImages generateImage visualTask initial))
  = negb (all_terms_matched visualTask
            (run_drops visualTask drops
               (fetchImages generateImage visualTask initial)))
    && negb (any_image_fails generateImage visualTask)
  /\ (any_image_fails generateImage visualTask = true ->
      start_disabled visualTask (fetchImages generateImage visualTask initial)
      = false
      /\ matchedPairs (fetchImages generateImage visualTask initial) = []).
Proof.
  intros Hterms.
  destruct (fetchImages_error initial) as [Herr Hmp].
  split.
  - unfold start_disabled. rewrite run_drops_error, Herr.
    rewrite isTaskComplete_all_terms_matched; [reflexivity | assumption | |];
      apply run_drops_invariant; rewrite Hmp; cbn;
      [apply NoDup_nil_2 | apply list_subseteq_nil
      | apply NoDup_nil_2 | apply list_subseteq_nil].
  - intros Hfail. unfold start_disabled. rewrite Herr, Hfail, andb_false_r.
    by rewrite Hmp.
Qed.

End PreQuest.

(** ** The start control over the lifetime of the view *)

Section ViewLifetime.

Import PreQuestView PreQuestLife.

(** A view just mounted satisfies the invariant of views, and every event
    keeps it. *)
Lemma view_mount_invariant (generateImage : string -> result string)
    (visualTask : list VisualTaskItem) :
  invariant (mount generateImage visualTask).
Proof.
  destruct (fetchImages_error visualTask generateImage initial) as [Herr Hmp].
  unfold invariant, mount. cbn [task cells images inherited earlier].
  rewrite Hmp. split; [exact Herr|]. split; [apply NoDup_nil_2|].
  split; [| apply list_subseteq_nil].
  exists []. split; [reflexivity | apply list_subseteq_nil].
Qed.

Lemma view_step_invariant (e : Event) (v : View) :
  invariant v -> invariant (step e v).
Proof.
  intros (Herr & Hnd & (since & Hsince & Hsub) & Hinh).
  destruct e as [d p | visualTask generateImage]; unfold invariant;
    cbn [step task cells images inherited earlier].
  - split; [exact Herr|].
    destruct (handleDrop_matchedPairs (task v) d p (cells v))
      as [-> | (-> & Hnew & Hterm)].
    + split; [exact Hnd|]. split; [by exists since | exact Hinh].
    + split; [| split; [| exact Hinh]].
      * apply NoDup_app. split; [assumption|]. split; [|apply NoDup_singleton].
        intros x Hx Hx'. apply list_elem_of_singleton in Hx' as ->.
        by apply Hnew.
      * exists (since ++ [d])%list. split; [by rewrite Hsince, app_assoc|].
        intros x Hx. apply elem_of_app in Hx as [Hx | Hx]; [by apply Hsub|].
        by apply list_elem_of_singleton in Hx as ->.
  - destruct (fetchImages_error visualTask generateImage (cells v))
      as [Herr' Hmp].
    rewrite Hmp. split; [exact Herr'|]. split; [exact Hnd|]. split.
    + exists []. split; [by rewrite app_nil_r | apply list_subseteq_nil].
    + rewrite Hsince. cbn [flat_map]. intros x Hx.
      apply elem_of_app in Hx as [Hx | Hx]; apply elem_of_app;
        [right; by apply Hinh | left; by apply Hsub].
Qed.

Lemma view_run_invariant (events : list Event) :
  forall v, invariant v -> invariant (run events v).
Proof.
  induction events as [|e events IH]; intros v Hv; [exact Hv|].
  apply (IH (step e v)), view_step_invariant, Hv.
Qed.

(** A view that held no match when it was given its task has matched
    pairwise distinct terms of the task. *)
Lemma fresh_view_matches (v : View) :
  invariant v -> inherited v = [] ->
  NoDup (matchedPairs (cells v))
  /\ matchedPairs (cells v) ⊆ map term (task v).
Proof.
  intros (_ & Hnd & (since & Hsince & Hsub) & _) Hinh.
  split; [exact Hnd|]. by rewrite Hsince, Hinh.
Qed.


End ViewLifetime.



(** C10, the claim as stated fails for a view that is given a second task:
    the view is not remounted and the fetch of the images does not reset the
    matched terms, so after the three terms of a first task were matched, a
    second task of three other terms is shown with none of its terms matched
    and no image request failed, and yet the control is enabled. *)
Lemma start_enabled_by_stale_matches :
  PreQuestLife.task
    (PreQuestLife.run
       (PreQuestLife.drop_events (VisualTask.matching_drops Samples.three_terms)
        ++ [PreQuestLife.NewTask PreQuestLife.later_task Samples.images_ok])
       (PreQuestLife.mount Samples.images_ok Samples.three_terms))
  = PreQuestLife.later_task
  /\ PreQuestView.matchedPairs
       (PreQuestLife.cells
          (PreQuestLife.run
             (PreQuestLife.drop_events
                (VisualTask.matching_drops Samples.three_terms)
              ++ [PreQuestLife.NewTask PreQuestLife.later_task Samples.images_ok])
             (PreQuestLife.mount Samples.images_ok Samples.three_terms)))
     = ["force"; "mass"; "motion"]
  /\ PreQuestView.all_terms_matched PreQuestLife.later_task
       (PreQuestLife.cells
          (PreQuestLife.run
             (PreQuestLife.drop_events
                (VisualTask.matching_drops Samples.three_terms)
              ++ [PreQuestLife.NewTask PreQuestLife.later_task Samples.images_ok])
             (PreQuestLife.mount Samples.images_ok Samples.three_terms)))
     = false
  /\ PreQuestView.any_image_fails Samples.images_ok PreQuestLife.later_task
     = false
  /\ PreQuestView.start_disabled PreQuestLife.later_task
       (PreQuestLife.cells
          (PreQuestLife.run
             (PreQuestLife.drop_events
                (VisualTask.matching_drops Samples.three_terms)
              ++ [PreQuestLife.NewTask PreQuestLife.later_task Samples.images_ok])
             (PreQuestLife.mount Samples.images_ok Samples.three_terms)))
     = false.
Proof. vm_compute. repeat split. Qed.

(** A failed image request opens the gate with nothing matched. *)
Example start_enabled_after_image_failure :
  PreQuestView.start_disabled Samples.three_terms
    (PreQuestView.fetchImages (fun _ => Err "Failed to generate image: 500")
       Samples.three_terms PreQuestView.initial)
  = false.
Proof. reflexivity. Qed.

(** * Further properties *)

(** ** Answering quiz questions *)

Lemma quiz_click_answered (question : QuizQuestion) (ci qi : nat)
    (c : QuizItem.Click) (s : App.AppState) (a : Answer) :
  App.answer_at (App.quizAnswers s) ci qi = Some a ->
  QuizItem.quiz_click question ci qi c s = s.
Proof.
  intros Ha. unfold QuizItem.quiz_click. rewrite Ha. by destruct c.
Qed.

Lemma quiz_click_unanswered (question : QuizQuestion) (ci qi : nat)
    (c : QuizItem.Click) (s : App.AppState) :
  App.answer_at (App.quizAnswers s) ci qi = None ->
  App.quizAnswers (QuizItem.quiz_click question ci qi c s)
  = App.recordAnswer ci qi
      (match c with
       | QuizItem.SelectOption o => o
       | QuizItem.Reveal => answer question
       end)
      (match c with
       | QuizItem.SelectOption o => String.eqb o (answer question)
       | QuizItem.Reveal => true
       end)
      (App.quizAnswers s).
Proof.
  intros Ha. unfold QuizItem.quiz_click. rewrite Ha. by destruct c.
Qed.

Lemma quiz_click_is_answered (question : QuizQuestion) (ci qi : nat)
    (c : QuizItem.Click) (s : App.AppState) :
  exists a,
    App.answer_at (App.quizAnswers (QuizItem.quiz_click question ci qi c s)) ci qi
    = Some a.
Proof.
  destruct (App.answer_at (App.quizAnswers s) ci qi) as [a|] eqn:Ha.
  - rewrite (quiz_click_answered _ _ _ _ _ _ Ha). eauto.
  - rewrite quiz_click_unanswered by assumption.
    rewrite answer_at_recordAnswer, decide_True by reflexivity. eauto.
Qed.

Lemma quiz_clicks_answered (question : QuizQuestion) (ci qi : nat)
    (cs : list QuizItem.Click) (s : App.AppState) (a : Answer) :
  App.answer_at (App.quizAnswers s) ci qi = Some a ->
  fold_left (fun st c => QuizItem.quiz_click question ci qi c st) cs s = s.
Proof.
  intros Ha. induction cs as [|c cs IH]; [reflexivity|].
  cbn [fold_left]. by rewrite (quiz_click_answered _ _ _ _ _ _ Ha).
Qed.

(** X1. Of any sequence of clicks on the buttons of one quiz item only the
    first has an effect: an answer, once recorded, cannot be changed, and
    when the question is answered already no click does anything. *)
Theorem quiz_first_click_wins (question : QuizQuestion) (ci qi : nat)
    (c : QuizItem.Click) (cs : list QuizItem.Click) (s : App.AppState) :
  fold_left (fun st c' => QuizItem.quiz_click question ci qi c' st) (c :: cs) s
  = QuizItem.quiz_click question ci qi c s
  /\ (QuizItem.isAnswered (App.answer_at (App.quizAnswers s) ci qi) = true ->
      QuizItem.quiz_click question ci qi c s = s).
Proof.
  split.
  - cbn [fold_left].
    destruct (quiz_click_is_answered question ci qi c s) as [a Ha].
    by apply quiz_clicks_answered with a.
  - destruct (App.answer_at (App.quizAnswers s) ci qi) as [a|] eqn:Ha;
      [|discriminate].
    intros _. by apply quiz_click_answered with a.
Qed.

(** X2. A click on an unanswered question records, at the key of that
    question and nowhere else, the option clicked, marked correct exactly
    when it equals the answer key; revealing a short answer records the
    answer key itself, marked correct. *)
Theorem quiz_click_grades_against_key (question : QuizQuestion) (ci qi : nat)
    (c : QuizItem.Click) (s : App.AppState) :
  App.answer_at (App.quizAnswers s) ci qi = None ->
  forall ci' qi',
    App.answer_at (App.quizAnswers (QuizItem.quiz_click question ci qi c s)) ci' qi'
    = if decide ((ci', qi') = (ci, qi))
      then Some
             match c with
             | QuizItem.SelectOption o =>
                 {| selected := o;
                    isCorrect := bool_decide (o = answer question) |}
             | QuizItem.Reveal =>
                 {| selected := answer question; isCorrect := true |}
             end
      else App.answer_at (App.quizAnswers s) ci' qi'.
Proof.
  intros Ha ci' qi'. rewrite quiz_click_unanswered by assumption.
  rewrite answer_at_recordAnswer. case_decide; [|reflexivity].
  destruct c as [o|]; [|reflexivity].
  do 2 f_equal. destruct (String.eqb_spec o (answer question));
    [by rewrite bool_decide_eq_true_2 | by rewrite bool_decide_eq_false_2].
Qed.

Lemma quiz_click_grades_against_key_witness :
  App.answer_at
    (App.quizAnswers
       (QuizItem.quiz_click (Samples.a_question ["First"; "Second"; "Third"])
          0 1 (QuizItem.SelectOption "Third") (Samples.learning_at 0))) 0 1
  = Some {| selected := "Third"; isCorrect := false |}.
Proof.
  rewrite (quiz_click_grades_against_key
             (Samples.a_question ["First"; "Second"; "Third"]) 0 1
             (QuizItem.SelectOption "Third") (Samples.learning_at 0)).
  - reflexivity.
  - reflexivity.
Defined.

(** ** The score and the recorded answers *)

Lemma elem_of_positions_from (cs : list Concept) :
  forall (c0 c q : nat),
    (c, q) ∈ ScoreSpec.positions_from c0 cs
    <-> (c0 <= c)%nat
        /\ exists concept, cs !! (c - c0)%nat = Some concept
                           /\ (q < length (quiz concept))%nat.
Proof.
  induction cs as [|x cs IH]; intros c0 c q; cbn [ScoreSpec.positions_from].
  - split; [by intros ?%elem_of_nil | by intros (_ & concept & [=] & _)].
  - rewrite elem_of_app, IH, list_elem_of_In, in_map_iff. split.
    + intros [(q' & [= <- <-] & Hq) | (Hle & concept & Hc & Hq)].
      * apply in_seq in Hq. split; [lia|]. exists x.
        rewrite Nat.sub_diag. split; [reflexivity | lia].
      * split; [lia|]. exists concept.
        replace (c - c0)%nat with (S (c - S c0)) by lia. by split.
    + intros (Hle & concept & Hc & Hq).
      destruct (decide (c = c0)) as [-> | Hne].
      * left. exists q. rewrite Nat.sub_diag in Hc. injection Hc as <-.
        split; [reflexivity | apply in_seq; lia].
      * right. split; [lia|]. exists concept.
        replace (c - c0)%nat with (S (c - S c0)) in Hc by lia. by split.
Qed.

Lemma positions_from_NoDup (cs : list Concept) :
  forall c0, NoDup (ScoreSpec.positions_from c0 cs).
Proof.
  induction cs as [|x cs IH]; intros c0; cbn [ScoreSpec.positions_from];
    [apply NoDup_nil_2|].
  apply NoDup_app. split; [|split; [|apply IH]].
  - apply (NoDup_fmap_2 (pair c0)), NoDup_ListNoDup, seq_NoDup.
  - intros [c q] Hin Hin'. apply elem_of_positions_from in Hin' as [Hle _].
    apply list_elem_of_In, in_map_iff in Hin as (q' & [= <- <-] & _). lia.
Qed.

Lemma filter_length_change {A : Type} (f g : A -> bool) (p : A) (l : list A) :
  NoDup l -> p ∈ l -> (forall x, x ≠ p -> g x = f x) ->
  Z.of_nat (length (List.filter g l))
  = Z.of_nat (length (List.filter f l)) - Z.b2z (f p) + Z.b2z (g p).
Proof.
  intros Hnd Hin Hext. induction Hnd as [|x l Hx Hnd IH]; [by apply elem_of_nil in Hin|].
  cbn [List.filter].
  apply elem_of_cons in Hin as [-> | Hin].
  - assert (List.filter g l = List.filter f l) as ->.
    { apply List.filter_ext_in. intros y Hy. apply Hext. intros ->.
      by apply Hx, list_elem_of_In. }
    destruct (f x), (g x); cbn [length Z.b2z]; lia.
  - rewrite (Hext x) by (intros ->; contradiction).
    destruct (f x); cbn [length]; rewrite ?Nat2Z.inj_succ, IH by assumption; lia.
Qed.

Lemma recorded_correct_recordAnswer (m : QuizAnswers) (c q : nat) (sel : string)
    (ok : bool) (p : nat * nat) :
  ScoreSpec.recorded_correct (App.recordAnswer c q sel ok m) p
  = if decide (p = (c, q)) then ok else ScoreSpec.recorded_correct m p.
Proof.
  destruct p as [c' q']. unfold ScoreSpec.recorded_correct. cbn [fst snd].
  rewrite answer_at_recordAnswer. by case_decide.
Qed.

(** X3. Recording an answer for a question of the module changes the score
    by what the new entry adds and the old entry loses, and leaves the number
    of questions as it was: a correct answer to a question not yet counted
    raises the score by one. Recording an answer at a position that is no
    question of the module changes nothing in the score. *)
Theorem score_after_recordAnswer (cs : list Concept) (m : QuizAnswers)
    (c q : nat) (sel : string) (ok : bool) :
  ResultsOverview.totalQuestions
    (ResultsOverview.compute_score cs (App.recordAnswer c q sel ok m))
  = ResultsOverview.totalQuestions (ResultsOverview.compute_score cs m)
  /\ ResultsOverview.score
       (ResultsOverview.compute_score cs (App.recordAnswer c q sel ok m))
     = match cs !! c with
       | Some concept =>
           if (q <? length (quiz concept))%nat
           then ResultsOverview.score (ResultsOverview.compute_score cs m)
                - Z.b2z (ResultsOverview.is_correct m c q) + Z.b2z ok
           else ResultsOverview.score (ResultsOverview.compute_score cs m)
       | None => ResultsOverview.score (ResultsOverview.compute_score cs m)
       end.
Proof.
  destruct (compute_score_counts cs (App.recordAnswer c q sel ok m))
    as (-> & -> & _).
  destruct (compute_score_counts cs m) as (-> & -> & _).
  split; [reflexivity|]. unfold ScoreSpec.correctCount.
  assert ((c, q) ∉ ScoreSpec.positions_from 0 cs ->
          List.filter (ScoreSpec.recorded_correct (App.recordAnswer c q sel ok m))
            (ScoreSpec.positions_from 0 cs)
          = List.filter (ScoreSpec.recorded_correct m)
              (ScoreSpec.positions_from 0 cs)) as Hout.
  { intros Hnot. apply List.filter_ext_in. intros p Hp.
    rewrite recorded_correct_recordAnswer, decide_False; [reflexivity|].
    intros ->. by apply Hnot, list_elem_of_In. }
  destruct (cs !! c) as [concept|] eqn:Hc.
  - destruct (Nat.ltb_spec q (length (quiz concept))) as [Hq | Hq].
    + rewrite (filter_length_change (ScoreSpec.recorded_correct m)
                 (ScoreSpec.recorded_correct (App.recordAnswer c q sel ok m))
                 (c, q)).
      * rewrite recorded_correct_recordAnswer, decide_True by reflexivity.
        by rewrite is_correct_recorded.
      * apply positions_from_NoDup.
      * apply elem_of_positions_from. split; [lia|]. exists concept.
        by rewrite Nat.sub_0_r.
      * intros p Hp. by rewrite recorded_correct_recordAnswer, decide_False.
    + rewrite Hout; [reflexivity|].
      intros (_ & concept' & Hc' & Hq')%elem_of_positions_from.
      rewrite Nat.sub_0_r, Hc in Hc'. injection Hc' as <-. lia.
  - rewrite Hout; [reflexivity|].
    intros (_ & concept' & Hc' & _)%elem_of_positions_from.
    rewrite Nat.sub_0_r, Hc in Hc'. discriminate.
Qed.

Lemma round_half_up_bounds (c t : Z) :
  0 <= c <= t -> 0 < t ->
  0 <= ScoreSpec.round_half_up (100 * c) t <= 100
  /\ (c = 0 -> ScoreSpec.round_half_up (100 * c) t = 0)
  /\ (c = t -> ScoreSpec.round_half_up (100 * c) t = 100).
Proof.
  intros Hc Ht. unfold ScoreSpec.round_half_up. repeat split.
  - apply Z.div_pos; lia.
  - enough ((2 * (100 * c) + t) / (2 * t) < 101) by lia.
    apply Z.div_lt_upper_bound; lia.
  - intros ->. apply Z.div_small. lia.
  - intros ->. symmetry. apply (Z.div_unique _ _ 100 t); lia.
Qed.

(** X4. The score is the number of questions of the module whose entry is
    marked correct, the total is the sum of the quiz lengths, and the score
    lies between 0 and the total. With fewer than forty questions in all, as
    in any module of at most ten concepts of three questions, the percentage
    is the exact quotient rounded half up, an integer between 0 and 100: it
    is 0 with no correct answer and 100 with every answer correct. *)
Theorem score_of_contract_sized_module (cs : list Concept) (m : QuizAnswers) :
  ScoreSpec.totalQuestionCount cs < 40 ->
  ResultsOverview.score (ResultsOverview.compute_score cs m)
  = ScoreSpec.correctCount cs m
  /\ ResultsOverview.totalQuestions (ResultsOverview.compute_score cs m)
     = ScoreSpec.totalQuestionCount cs
  /\ 0 <= ScoreSpec.correctCount cs m <= ScoreSpec.totalQuestionCount cs
  /\ ResultsOverview.percentage (ResultsOverview.compute_score cs m)
     = JS.of_Z (ScoreSpec.round_half_up (100 * ScoreSpec.correctCount cs m)
                  (ScoreSpec.totalQuestionCount cs))
  /\ 0 <= ScoreSpec.round_half_up (100 * ScoreSpec.correctCount cs m)
            (ScoreSpec.totalQuestionCount cs) <= 100
  /\ (ScoreSpec.correctCount cs m = 0 ->
      ResultsOverview.percentage (ResultsOverview.compute_score cs m) = JS.of_Z 0)
  /\ (0 < ScoreSpec.totalQuestionCount cs ->
      ScoreSpec.correctCount cs m = ScoreSpec.totalQuestionCount cs ->
      ResultsOverview.percentage (ResultsOverview.compute_score cs m)
      = JS.of_Z 100).
Proof.
  intros Hlt.
  destruct (compute_score_counts cs m) as (Hs & Ht & _).
  pose proof (correctCount_bounds cs m) as Hb.
  pose proof (percentage_below_40 cs m Hlt) as Hp.
  split; [exact Hs|]. split; [exact Ht|]. split; [exact Hb|].
  split; [exact Hp|].
  destruct (Z.eq_dec (ScoreSpec.totalQuestionCount cs) 0) as [H0 | Hne].
  - assert (ScoreSpec.correctCount cs m = 0) as Hc0 by lia.
    rewrite Hp, Hc0, H0.
    change (ScoreSpec.round_half_up (100 * 0) 0) with 0.
    split; [lia|]. split; [reflexivity | intros; lia].
  - destruct (round_half_up_bounds (ScoreSpec.correctCount cs m)
                (ScoreSpec.totalQuestionCount cs)) as (Hr & Hr0 & Hr100);
      [lia | lia |].
    split; [exact Hr|]. split.
    + intros Hc0. by rewrite Hp, (Hr0 Hc0).
    + intros _ Hall. by rewrite Hp, (Hr100 Hall).
Qed.

Lemma score_of_contract_sized_module_witness :
  ResultsOverview.percentage
    (ResultsOverview.compute_score [Samples.a_concept 3; Samples.a_concept 3]
       (Samples.correct_in 0 2 ∅))
  = JS.of_Z (ScoreSpec.round_half_up
               (100 * ScoreSpec.correctCount
                        [Samples.a_concept 3; Samples.a_concept 3]
                        (Samples.correct_in 0 2 ∅))
               (ScoreSpec.totalQuestionCount
                  [Samples.a_concept 3; Samples.a_concept 3])).
Proof.
  apply (score_of_contract_sized_module
           [Samples.a_concept 3; Samples.a_concept 3] (Samples.correct_in 0 2 ∅)).
  vm_compute. reflexivity.
Defined.










(** ** The chapter view and the session *)

(** X6. In the chapter view of a module, at an index within the module, the
    concept shown exists, the Next button is rendered exactly when
    [handleNextConcept] moves to the next index, the button that finishes is
    rendered in its place exactly at the last index, where
    [handleNextConcept] changes nothing, and the Previous button is disabled
    exactly at index 0, where [handlePrevConcept] changes nothing: no enabled
    navigation button is without effect. *)
Theorem quest_buttons_match_handlers (s : App.AppState) (data : ModuleData) :
  App.moduleData s = Some data ->
  0 <= App.currentConceptIndex s <= Z.of_nat (length (concepts data)) - 1 ->
  is_Some (QuestView.currentConcept (concepts data) (App.currentConceptIndex s))
  /\ App.currentConceptIndex (App.handleNextConcept s)
     = (if QuestView.next_rendered (concepts data) (App.currentConceptIndex s)
        then App.currentConceptIndex s + 1 else App.currentConceptIndex s)
  /\ App.currentConceptIndex (App.handlePrevConcept s)
     = (if QuestView.prev_disabled (App.currentConceptIndex s)
        then App.currentConceptIndex s else App.currentConceptIndex s - 1)
  /\ (QuestView.isLastConcept (concepts data) (App.currentConceptIndex s) = true
      -> App.handleNextConcept s = s)
  /\ (QuestView.prev_disabled (App.currentConceptIndex s) = true
      -> App.handlePrevConcept s = s).
Proof.
  intros Hdata Hrange.
  unfold QuestView.currentConcept, QuestView.next_rendered,
    QuestView.isLastConcept, QuestView.prev_disabled,
    App.handleNextConcept, App.handlePrevConcept.
  rewrite Hdata.
  destruct (Z.ltb_spec (App.currentConceptIndex s) 0); [lia|].
  split.
  { apply lookup_lt_is_Some. lia. }
  destruct (Z.ltb_spec (App.currentConceptIndex s)
              (Z.of_nat (length (concepts data)) - 1));
    destruct (Z.eqb_spec (App.currentConceptIndex s)
                (Z.of_nat (length (concepts data)) - 1));
    destruct (Z.ltb_spec 0 (App.currentConceptIndex s));
    destruct (Z.eqb_spec (App.currentConceptIndex s) 0);
    try lia; cbn [negb App.currentConceptIndex App.set_currentConceptIndex];
    repeat split; intros; try reflexivity; try discriminate; lia.
Qed.

Lemma quest_buttons_match_handlers_witness :
  App.currentConceptIndex (App.handleNextConcept (Samples.learning_at 0))
  = (if QuestView.next_rendered
          (concepts (Samples.a_module [Samples.a_concept 3; Samples.a_concept 3]))
          (App.currentConceptIndex (Samples.learning_at 0))
     then App.currentConceptIndex (Samples.learning_at 0) + 1
     else App.currentConceptIndex (Samples.learning_at 0)).
Proof.
  apply (quest_buttons_match_handlers (Samples.learning_at 0)
           (Samples.a_module [Samples.a_concept 3; Samples.a_concept 3])).
  - reflexivity.
  - simpl. lia.
Defined.

Lemma crashed_false_of_invariant (st : Session.State) :
  Session.invariant st -> Session.crashed (Session.app st) = false.
Proof.
  intros [_ Hinv]. unfold Session.crashed, Session.quest_rendered,
    Session.module_concepts.
  destruct (App.moduleData (Session.app st)) as [data|];
    [|by rewrite !andb_false_r].
  destruct Hinv as (_ & Hlen & Hrange).
  unfold QuestView.currentConcept.
  destruct (Z.ltb_spec (App.currentConceptIndex (Session.app st)) 0); [lia|].
  destruct (lookup_lt_is_Some_2 (concepts data)
              (Z.to_nat (App.currentConceptIndex (Session.app st))))
    as [concept ->]; [lia|].
  by rewrite andb_false_r.
Qed.

Lemma press_invariant (e : Session.Event) (st : Session.State) (s' : App.AppState) :
  Session.invariant st ->
  match e with
  | Session.CreateModule _ => Session.pending st = 0%nat
  | _ => True
  end ->
  Session.press e (Session.app st) = Some s' ->
  Session.invariant
    {| Session.app := s';
       Session.pending := match e with
                          | Session.CreateModule _ => S (Session.pending st)
                          | _ => Session.pending st
                          end |}.
Proof.
  destruct st as [s n]. unfold Session.invariant. cbn [Session.app Session.pending].
  intros [Hn Hinv] Hserial Hpress.
  destruct e; cbn [Session.press] in Hpress; try discriminate;
    repeat match type of Hpress with
           | match ?v with _ => _ end = Some _ => destruct v eqn:?; try discriminate
           | (if ?b then _ else _) = Some _ => destruct b eqn:?; try discriminate
           end;
    injection Hpress as <-.
  - (* SelectFile *)
    unfold FileUpload.selectFile.
    destruct (FileUpload.handleFileChange files) as [err [file|]]; by split.
  - by split.
  - split; [exact Hn|]. cbn. auto.
  - split; [exact Hn|]. cbn. auto.
  - split; [exact Hn|]. cbn. auto.
  - subst n. split; [lia|]. cbn. auto.
  - (* StartModule *)
    unfold Session.prequest_rendered in *.
    destruct (App.moduleData s) as [data|] eqn:Hd;
      [|by rewrite andb_false_r in *].
    split; [exact Hn|]. cbn. by rewrite Hd.
  - (* NextConcept *)
    split; [exact Hn|]. unfold App.handleNextConcept.
    destruct (App.moduleData s) as [data|] eqn:Hd; [|by rewrite Hd].
    destruct (Z.ltb_spec (App.currentConceptIndex s)
                (Z.of_nat (length (concepts data)) - 1));
      cbn; rewrite Hd; [|exact Hinv].
    destruct Hinv as (? & ? & ?). repeat split; try assumption; lia.
  - (* PrevConcept *)
    split; [exact Hn|]. unfold App.handlePrevConcept.
    destruct (Z.ltb_spec 0 (App.currentConceptIndex s)); [|exact Hinv].
    cbn. destruct (App.moduleData s) as [data|].
    + destruct Hinv as (? & ? & ?). repeat split; try assumption; lia.
    + lia.
  - (* FinishModule *)
    unfold Session.quest_rendered in *.
    destruct (App.moduleData s) as [data|] eqn:Hd;
      [|by rewrite !andb_false_r in *].
    split; [exact Hn|]. cbn. by rewrite Hd.
  - (* AnswerQuestion *)
    split; [exact Hn|]. unfold QuizItem.quiz_click.
    destruct (QuizItem.click _ _ _ _ _); exact Hinv.
Qed.

Lemma step_invariant (e : Session.Event) (st st' : Session.State) :
  Session.invariant st ->
  match e with
  | Session.CreateModule _ => Session.pending st = 0%nat
  | _ => True
  end ->
  Session.step e st = Some st' ->
  Session.invariant st'.
Proof.
  intros Hinv Hserial Hstep.
  destruct (Session.press e (Session.app st)) as [s'|] eqn:Hp.
  { pose proof (press_invariant e st s' Hinv Hserial Hp) as Hinv'.
    destruct e; try discriminate;
      unfold Session.step in Hstep;
      destruct (Session.crashed (Session.app st)); try discriminate;
      rewrite Hp in Hstep; injection Hstep as <-; exact Hinv'. }
  destruct e;
    try (unfold Session.step in Hstep;
         destruct (Session.crashed (Session.app st)); try discriminate;
         rewrite Hp in Hstep; discriminate).
  clear Hp.
  (* Settle *)
  cbn [Session.step] in Hstep. destruct st as [s n].
  cbn [Session.pending Session.app] in *.
  destruct n as [|n]; [discriminate|]. injection Hstep as <-.
  destruct Hinv as [Hn Hinv]. cbn [Session.pending Session.app] in *.
  destruct (App.moduleData s) as [data|] eqn:Hd; [lia|].
  destruct Hinv as [Hidx Hstep0].
  unfold Session.invariant. cbn [Session.pending Session.app].
  split; [lia|].
  destruct o as [d | m]; cbn [App.startGeneration_settle].
  - destruct (concepts d) as [|c cs] eqn:Hc; cbn.
    + by rewrite Hd.
    + rewrite Hidx, ?Hc. cbn [length]. repeat split; lia.
  - cbn. by rewrite Hd.
Qed.

Lemma initial_invariant : Session.invariant Session.initial.
Proof. split; cbn; [lia | auto]. Qed.

Lemma run_invariant (events : list Session.Event) :
  forall st st',
    Session.invariant st ->
    Session.serial events st = true ->
    Session.run events st = Some st' ->
    Session.invariant st'.
Proof.
  induction events as [|e events IH]; intros st st' Hinv Hser Hrun;
    cbn [Session.run Session.serial] in *.
  - by injection Hrun as <-.
  - destruct (Session.step e st) as [st1|] eqn:Hstep; [|discriminate].
    apply andb_prop in Hser as [Hcreate Hser].
    apply (IH st1 st'); [|assumption..].
    apply (step_invariant e st st1); [assumption | | assumption].
    destruct e; try exact I. by apply Nat.eqb_eq.
Qed.

(** X7. When every value that the session receives has its declared shape,
    the events being those of the typed session, and as long as no module is
    requested while an earlier request is still pending: every state the
    user can reach from the start of the session has at most one pending
    request, a stored module has a concept and the concept index lies within
    it, so the chapter view has a concept to show and the page does not
    crash. *)
Theorem serial_session_index_in_range (received : list Unvalidated.Event)
    (events : list Session.Event) (st : Session.State) :
  Unvalidated.typed_events received = Some events ->
  Session.serial events Session.initial = true ->
  Session.run events Session.initial = Some st ->
  Session.invariant st
  /\ Session.crashed (Session.app st) = false
  /\ (Session.quest_rendered (Session.app st) = true ->
      exists data concept,
        App.moduleData (Session.app st) = Some data
        /\ QuestView.currentConcept (concepts data)
             (App.currentConceptIndex (Session.app st)) = Some concept).
Proof.
  intros _ Hser Hrun.
  pose proof (run_invariant events _ _ initial_invariant Hser Hrun) as Hinv.
  pose proof (crashed_false_of_invariant st Hinv) as Hcrash.
  split; [exact Hinv|]. split; [exact Hcrash|].
  intros Hquest. unfold Session.crashed in Hcrash. rewrite Hquest in Hcrash.
  unfold Session.quest_rendered, Session.module_concepts in *.
  destruct (App.moduleData (Session.app st)) as [data|];
    [|by rewrite andb_false_r in Hquest].
  destruct (QuestView.currentConcept (concepts data) _) as [concept|] eqn:Hcc;
    [|discriminate].
  exists data, concept. by split.
Qed.

Lemma serial_session_index_in_range_witness :
  Session.crashed
    (App.set_currentConceptIndex 1 (Samples.learning_at 0)) = false.
Proof.
  apply (serial_session_index_in_range
           [Unvalidated.SelectFile [Samples.a_file];
            Unvalidated.CreateModule "Newton's laws...";
            Unvalidated.Settle
              (GeminiService.Returned
                 (Received.a_module [Received.a_concept 3; Received.a_concept 3]));
            Unvalidated.StartModule; Unvalidated.NextConcept]
           [Session.SelectFile [Samples.a_file];
            Session.CreateModule "Newton's laws...";
            Session.Settle
              (App.Resolved
                 (Samples.a_module [Samples.a_concept 3; Samples.a_concept 3]));
            Session.StartModule; Session.NextConcept]
           {| Session.app := App.set_currentConceptIndex 1 (Samples.learning_at 0);
              Session.pending := 0 |}).
  - vm_compute. reflexivity.
  - reflexivity.
  - reflexivity.
Defined.

Lemma step_next_moves (s : App.AppState) (n : nat) (data : ModuleData) :
  Session.quest_rendered s = true ->
  App.moduleData s = Some data ->
  0 <= App.currentConceptIndex s ->
  App.currentConceptIndex s < Z.of_nat (length (concepts data)) - 1 ->
  Session.step Session.NextConcept {| Session.app := s; Session.pending := n |}
  = Some {| Session.app :=
              App.set_currentConceptIndex (App.currentConceptIndex s + 1) s;
            Session.pending := n |}.
Proof.
  intros Hquest Hdata H0 Hlt.
  unfold Session.step, Session.crashed, Session.press, Session.module_concepts,
    QuestView.next_rendered, QuestView.isLastConcept, QuestView.currentConcept,
    App.handleNextConcept.
  cbn [Session.app Session.pending]. rewrite Hquest, Hdata.
  destruct (Z.ltb_spec (App.currentConceptIndex s) 0); [lia|].
  destruct (lookup_lt_is_Some_2 (concepts data)
              (Z.to_nat (App.currentConceptIndex s))) as [concept ->]; [lia|].
  destruct (Z.eqb_spec (App.currentConceptIndex s)
              (Z.of_nat (length (concepts data)) - 1)); [lia|].
  destruct (Z.ltb_spec (App.currentConceptIndex s)
              (Z.of_nat (length (concepts data)) - 1)); [|lia].
  reflexivity.
Qed.

Lemma run_app (events1 events2 : list Session.Event) (st : Session.State) :
  Session.run (events1 ++ events2) st
  = Session.run events1 st ≫= Session.run events2.
Proof.
  revert st. induction events1 as [|e events1 IH]; intros st; [reflexivity|].
  cbn [app Session.run]. destruct (Session.step e st); [apply IH | reflexivity].
Qed.

(** X8. Requests for a module are not serialised: after a reset of the
    module view a second module can be requested while the first request is
    pending. When the first module, of two concepts or more, has been opened
    at its second chapter and the second request then settles to a module of
    one concept, that module replaces the first while the concept index stays
    1; once it is started the chapter view has no concept to show and the
    page crashes. *)
Theorem overlapping_requests_crash (first second : ModuleData) :
  (2 <= length (concepts first))%nat ->
  length (concepts second) = 1%nat ->
  exists st,
    Session.run (Session.overlapping_requests first second) Session.initial
    = Some st
    /\ App.moduleStep (Session.app st) = Some App.learning
    /\ App.moduleData (Session.app st) = Some second
    /\ App.currentConceptIndex (Session.app st) = 1
    /\ QuestView.currentConcept (concepts second)
         (App.currentConceptIndex (Session.app st)) = None
    /\ Session.crashed (Session.app st) = true.
Proof.
  intros Hfirst Hsecond.
  destruct first as [sum1 vt1 cs1], second as [sum2 vt2 cs2].
  cbn [concepts] in *.
  destruct cs1 as [|a1 [|a2 cs1]]; cbn [length] in Hfirst; try lia.
  destruct cs2 as [|b [|b2 cs2]]; try discriminate.
  unfold Session.overlapping_requests.
  match goal with
  | |- context [Session.run (?a :: ?b :: ?c :: ?d :: ?rest) ?st] =>
      change (Session.run (a :: b :: c :: d :: rest) st)
        with (Session.run ([a; b; c; d] ++ rest) st)
  end.
  rewrite run_app.
  set (p := Session.run [_; _; _; _] Session.initial).
  vm_compute in (value of p). subst p. cbn [mbind option_bind].
  match goal with
  | |- context [Session.run (?a :: ?b :: ?rest) ?st] =>
      change (Session.run (a :: b :: rest) st)
        with (Session.run ([a; b] ++ rest) st)
  end.
  rewrite run_app.
  remember (Session.run [Session.NextConcept; _; _]) as r eqn:Hr.
  cbn. subst r. cbn [Session.run].
  rewrite (step_next_moves _ _
             {| simple_summary := sum1; visual_task := vt1;
                concepts := a1 :: a2 :: cs1 |});
    [|reflexivity|reflexivity|cbn -[Z.of_nat]; lia..].
  cbn. eexists. split; [reflexivity|]. cbn. repeat split.
Qed.

Lemma overlapping_requests_crash_witness :
  exists st,
    Session.run
      (Session.overlapping_requests
         (Samples.a_module [Samples.a_concept 3; Samples.a_concept 3])
         (Samples.a_module [Samples.a_concept 3])) Session.initial
    = Some st
    /\ App.moduleStep (Session.app st) = Some App.learning
    /\ App.moduleData (Session.app st)
       = Some (Samples.a_module [Samples.a_concept 3])
    /\ App.currentConceptIndex (Session.app st) = 1
    /\ QuestView.currentConcept
         (concepts (Samples.a_module [Samples.a_concept 3]))
         (App.currentConceptIndex (Session.app st)) = None
    /\ Session.crashed (Session.app st) = true.
Proof.
  apply (overlapping_requests_crash
           (Samples.a_module [Samples.a_concept 3; Samples.a_concept 3])
           (Samples.a_module [Samples.a_concept 3])).
  - simpl. lia.
  - reflexivity.
Defined.

(** X9. A reset does not cancel a pending request. When the application is
    reset to its start while a module is being generated and the request then
    settles to a module with a concept, that module and the pre-module step
    are stored in the reset session; as soon as another file is chosen, the
    pre-module view of the old module is rendered over the new file, with no
    transcription stored. This happens in a serial run, with one request
    only. *)
Theorem reset_does_not_cancel_generation (data : ModuleData) (next : File) :
  (1 <= length (concepts data))%nat ->
  FileUpload.handleFileChange [next] = (None, Some next) ->
  Session.serial (Session.reset_while_generating data next) Session.initial = true
  /\ Session.run (Session.reset_while_generating data next) Session.initial
     = Some {| Session.app :=
                 {| App.view := App.dashboard; App.error := None;
                    App.selectedMedia := Some (LocalFile next);
                    App.moduleStep := Some App.pre_module;
                    App.moduleData := Some data;
                    App.transcription := None;
                    App.currentConceptIndex := 0;
                    App.quizAnswers := ∅ |};
               Session.pending := 0 |}
  /\ Session.prequest_rendered
       {| App.view := App.dashboard; App.error := None;
          App.selectedMedia := Some (LocalFile next);
          App.moduleStep := Some App.pre_module;
          App.moduleData := Some data;
          App.transcription := None;
          App.currentConceptIndex := 0;
          App.quizAnswers := ∅ |} = true.
Proof.
  intros Hlen Hvalid. destruct data as [sum vt cs].
  destruct cs as [|c cs]; cbn [concepts length] in Hlen; [lia|].
  unfold Session.reset_while_generating.
  assert (Session.run
            [Session.SelectFile [{| file_type := "audio/mpeg"; file_size := 1024 |}];
             Session.CreateModule "a lecture"; Session.ResetApp;
             Session.Settle
               (App.Resolved
                  {| simple_summary := sum; visual_task := vt; concepts := c :: cs |})]
            Session.initial
          = Some {| Session.app :=
                      {| App.view := App.idle; App.error := None;
                         App.selectedMedia := None;
                         App.moduleStep := Some App.pre_module;
                         App.moduleData :=
                           Some {| simple_summary := sum; visual_task := vt;
                                   concepts := c :: cs |};
                         App.transcription := None;
                         App.currentConceptIndex := 0;
                         App.quizAnswers := ∅ |};
                    Session.pending := 0 |}) as Hrun4 by reflexivity.
  split; [|split].
  - reflexivity.
  - match goal with
    | |- context [Session.run (?a :: ?b :: ?c :: ?d :: ?rest) ?st] =>
        change (Session.run (a :: b :: c :: d :: rest) st)
          with (Session.run ([a; b; c; d] ++ rest) st)
    end.
    rewrite run_app, Hrun4. cbn [mbind option_bind Session.run].
    unfold Session.step, Session.press, Session.crashed, Session.quest_rendered,
      Session.analysis_rendered, FileUpload.selectFile.
    cbn [Session.app Session.pending App.view andb]. by rewrite Hvalid.
  - reflexivity.
Qed.

Lemma reset_does_not_cancel_generation_witness :
  Session.serial
    (Session.reset_while_generating (Samples.a_module [Samples.a_concept 3])
       Samples.another_file) Session.initial = true.
Proof.
  apply (reset_does_not_cancel_generation
           (Samples.a_module [Samples.a_concept 3]) Samples.another_file).
  - simpl. lia.
  - reflexivity.
Defined.

(** ** The visual task *)

Section VisualTaskPlay.

Import PreQuestView.

Variable visualTask : list VisualTaskItem.







End VisualTaskPlay.

(** ** The matching task over the lifetime of the view *)

Section ViewLifetimePlay.

Import PreQuestView PreQuestLife.

Lemma view_run_app (before after : list Event) (v : View) :
  run (before ++ after) v = run after (run before v).
Proof. unfold run. apply fold_left_app. Qed.

Lemma view_run_matches_grow (events : list Event) :
  forall v, matchedPairs (cells v) `prefix_of` matchedPairs (cells (run events v)).
Proof.
  induction events as [|e events IH]; intros v; [reflexivity|].
  cbn [run fold_left]. etrans; [| apply (IH (step e v))].
  destruct e as [d p | visualTask generateImage]; cbn [step cells].
  - destruct (handleDrop_matchedPairs (task v) d p (cells v))
      as [-> | (-> & _)]; [reflexivity | by apply prefix_app_r].
  - destruct (fetchImages_error visualTask generateImage (cells v))
      as [_ ->]. reflexivity.
Qed.






(** X11. From the mount of the view on, whatever is dropped where and
    whatever tasks the view is given, the matched terms only grow, each
    event adding at most one term, a term of the task shown that is not
    matched yet: the earlier matches stay a prefix of the later ones, no
    term is matched twice, and every matched term is a term of a task that
    the view was given. In a view that held no match when it was given its
    task, every matched term is a term of the task and there are never more
    matches than items. *)
Theorem matched_terms_only_grow
    (generateImage : string -> result string)
    (visualTask : list VisualTaskItem) (before after : list Event) :
  matchedPairs (cells (run before (mount generateImage visualTask)))
    `prefix_of`
    matchedPairs (cells (run (before ++ after) (mount generateImage visualTask)))
  /\ NoDup (matchedPairs (cells (run before (mount generateImage visualTask))))
  /\ matchedPairs (cells (run before (mount generateImage visualTask)))
       ⊆ terms_shown (run before (mount generateImage visualTask))
  /\ (inherited (run before (mount generateImage visualTask)) = [] ->
      matchedPairs (cells (run before (mount generateImage visualTask)))
        ⊆ map term (task (run before (mount generateImage visualTask)))
      /\ (length (matchedPairs
                    (cells (run before (mount generateImage visualTask))))
          <= length (task (run before (mount generateImage visualTask))))%nat)
  /\ (forall e v,
        matchedPairs (cells (step e v)) = matchedPairs (cells v)
        \/ exists droppedTerm,
             matchedPairs (cells (step e v))
             = (matchedPairs (cells v) ++ [droppedTerm])%list
             /\ (droppedTerm ∉ matchedPairs (cells v))
             /\ (droppedTerm ∈ map term (task v))).
Proof.
  set (v := run before (mount generateImage visualTask)).
  assert (invariant v) as Hinv.
  { apply view_run_invariant, view_mount_invariant. }
  split; [| split; [| split; [| split]]].
  - rewrite view_run_app. apply view_run_matches_grow.
  - by destruct Hinv as (_ & Hnd & _).
  - destruct Hinv as (_ & _ & (since & -> & Hsub) & Hinh).
    unfold terms_shown. cbn [flat_map]. intros x Hx.
    apply elem_of_app in Hx as [Hx | Hx]; apply elem_of_app;
      [right; by apply Hinh | left; by apply Hsub].
  - intros Hfresh. destruct (fresh_view_matches v Hinv Hfresh) as [Hnd Hsub].
    split; [exact Hsub|]. rewrite <- (length_map term (task v)).
    by apply submseteq_length, NoDup_submseteq.
  - intros e w. destruct e as [d p | vt g]; cbn [step cells].
    + destruct (handleDrop_matchedPairs (task w) d p (cells w))
        as [-> | (-> & Hnew & Hterm)]; [by left | right; by exists d].
    + left. by destruct (fetchImages_error vt g (cells w)) as [_ ->].
Qed.


End ViewLifetimePlay.

Lemma insert_by_key_Permutation {A} (x : A * Z) (sorted : list (A * Z)) :
  VisualTask.insert_by_key x sorted ≡ₚ x :: sorted.
Proof.
  induction sorted as [|y rest IH]; cbn [VisualTask.insert_by_key]; [reflexivity|].
  destruct (snd x <? snd y); [reflexivity|].
  rewrite IH. apply Permutation_swap.
Qed.

Lemma sort_by_key_Permutation {A} (l : list (A * Z)) :
  VisualTask.sort_by_key l ≡ₚ l.
Proof.
  unfold VisualTask.sort_by_key.
  enough (forall acc, fold_left (fun sorted x => VisualTask.insert_by_key x sorted) l acc
                      ≡ₚ (acc ++ l)%list) as H by apply (H []).
  induction l as [|x l IH]; intros acc; cbn [fold_left].
  - by rewrite app_nil_r.
  - rewrite IH, insert_by_key_Permutation. apply Permutation_middle.
Qed.

Lemma insert_by_key_ascend {A} (x : A * Z) (sorted : list (A * Z)) :
  VisualTask.keys_ascend sorted ->
  VisualTask.keys_ascend (VisualTask.insert_by_key x sorted).
Proof.
  unfold VisualTask.keys_ascend.
  induction sorted as [|y rest IH]; intros Hasc; cbn [VisualTask.insert_by_key].
  - repeat constructor.
  - apply StronglySorted_inv in Hasc as [Hrest Hy].
    destruct (Z.ltb_spec (snd x) (snd y)) as [Hlt | Hge].
    + constructor; [by constructor|]. constructor; [lia|].
      eapply Forall_impl; [exact Hy|]. cbn. intros z Hz. lia.
    + constructor; [by apply IH|].
      rewrite insert_by_key_Permutation. by constructor.
Qed.

Lemma sort_by_key_ascend {A} (l : list (A * Z)) :
  VisualTask.keys_ascend (VisualTask.sort_by_key l).
Proof.
  unfold VisualTask.sort_by_key.
  enough (forall acc, VisualTask.keys_ascend acc ->
                      VisualTask.keys_ascend
                        (fold_left (fun sorted x =>
                                      VisualTask.insert_by_key x sorted) l acc)) as H.
  { apply H. constructor. }
  induction l as [|x l IH]; intros acc Hacc; cbn [fold_left]; [exact Hacc|].
  by apply IH, insert_by_key_ascend.
Qed.

Lemma with_keys_fst {A} (random : nat -> Z) (array : list A) :
  forall k, map fst (VisualTask.with_keys random k array) = array.
Proof.
  induction array as [|x l IH]; intros k; cbn; [reflexivity | by rewrite IH].
Qed.

(** X12. Whatever numbers are drawn, the shuffled list of images is a
    permutation of the visual task: every item is displayed, as often as it
    occurs in the task and no more; and the list is that of the items paired
    with their drawn keys, rearranged so that the keys never decrease. *)
Theorem shuffled_is_permutation {A} (random : nat -> Z) (array : list A) :
  VisualTask.useShuffledArray random array ≡ₚ array
  /\ length (VisualTask.useShuffledArray random array) = length array
  /\ (forall x, x ∈ VisualTask.useShuffledArray random array <-> x ∈ array)
  /\ (exists keyed,
        VisualTask.useShuffledArray random array = map fst keyed
        /\ keyed ≡ₚ VisualTask.with_keys random 0 array
        /\ VisualTask.keys_ascend keyed).
Proof.
  assert (VisualTask.useShuffledArray random array ≡ₚ array) as Hperm.
  { unfold VisualTask.useShuffledArray.
    rewrite sort_by_key_Permutation. by rewrite with_keys_fst. }
  split; [exact Hperm|]. split; [by rewrite Hperm|].
  split; [intros x; by rewrite Hperm |].
  exists (VisualTask.sort_by_key (VisualTask.with_keys random 0 array)).
  split; [reflexivity|].
  split; [apply sort_by_key_Permutation | apply sort_by_key_ascend].
Qed.

(** ** Image requests *)

(** X13. Every run of [generateImage] has one shape, whatever the requests
    settle to: some number [k] of attempts, at most three, fail with a rate
    limit, each followed by a delay, the delays being 1000, 2000 and 4000
    milliseconds in this order. With [k] below three, one more request is
    sent with no delay after it and decides the result: the data URL of its
    first image, or the error of a failure that is not a rate limit. With
    [k] equal to three no further request is sent and the result is the
    error of exhausted retries. So a run sends between one and three
    requests. *)
Theorem generateImage_run_shape
    (outcomes : nat -> GeminiService.Settled (option (list string))) :
  exists k,
    (k <= 3)%nat
    /\ ImageRun.rate_limited_before outcomes k
    /\ (if (k <? 3)%nat
        then GeminiService.generateImage outcomes
             = ((ImageRun.retried k 1000 ++ [GeminiService.Request])%list,
                ImageRun.final (GeminiService.attempt (outcomes k)))
             /\ (forall e, GeminiService.attempt (outcomes k) = GeminiService.Threw e ->
                           GeminiService.rate_limited e = false)
        else GeminiService.generateImage outcomes
             = (ImageRun.retried 3 1000,
                Err GeminiService.retries_exhausted_message))
    /\ GeminiService.requests (fst (GeminiService.generateImage outcomes))
       = Nat.min (S k) 3
    /\ GeminiService.delays (fst (GeminiService.generateImage outcomes))
       = take k [1000; 2000; 4000].
Proof.
  unfold GeminiService.generateImage.
  destruct (GeminiService.attempt (outcomes 0%nat)) as [u0 | e0] eqn:H0;
    [| destruct (GeminiService.rate_limited e0) eqn:R0].
  - exists 0%nat. split; [lia|]. split; [intros j Hj; lia|].
    rewrite (generateImage_loop_success _ _ _ _ _ H0), H0.
    repeat split. intros e [=].
  - destruct (GeminiService.attempt (outcomes 1%nat)) as [u1 | e1] eqn:H1;
      [| destruct (GeminiService.rate_limited e1) eqn:R1].
    + exists 1%nat. split; [lia|]. split.
      { intros [|j] Hj; [eauto | lia]. }
      rewrite (generateImage_loop_rate_limited _ _ _ _ _ H0 R0).
      rewrite (generateImage_loop_success _ _ _ _ _ H1), H1.
      repeat split. intros e [=].
    + destruct (GeminiService.attempt (outcomes 2%nat)) as [u2 | e2] eqn:H2;
        [| destruct (GeminiService.rate_limited e2) eqn:R2].
      * exists 2%nat. split; [lia|]. split.
        { intros [|[|j]] Hj; [eauto | eauto | lia]. }
        rewrite (generateImage_loop_rate_limited _ _ _ _ _ H0 R0).
        rewrite (generateImage_loop_rate_limited _ _ _ _ _ H1 R1).
        rewrite (generateImage_loop_success _ _ _ _ _ H2), H2.
        repeat split. intros e [=].
      * exists 3%nat. split; [lia|]. split.
        { intros [|[|[|j]]] Hj; [eauto | eauto | eauto | lia]. }
        rewrite (generateImage_loop_rate_limited _ _ _ _ _ H0 R0).
        rewrite (generateImage_loop_rate_limited _ _ _ _ _ H1 R1).
        rewrite (generateImage_loop_rate_limited _ _ _ _ _ H2 R2).
        repeat split.
      * exists 2%nat. split; [lia|]. split.
        { intros [|[|j]] Hj; [eauto | eauto | lia]. }
        rewrite (generateImage_loop_rate_limited _ _ _ _ _ H0 R0).
        rewrite (generateImage_loop_rate_limited _ _ _ _ _ H1 R1).
        rewrite (generateImage_loop_other_failure _ _ _ _ _ H2 R2), H2.
        repeat split. intros e [= <-]. exact R2.
    + exists 1%nat. split; [lia|]. split.
      { intros [|j] Hj; [eauto | lia]. }
      rewrite (generateImage_loop_rate_limited _ _ _ _ _ H0 R0).
      rewrite (generateImage_loop_other_failure _ _ _ _ _ H1 R1), H1.
      repeat split. intros e [= <-]. exact R1.
  - exists 0%nat. split; [lia|]. split; [intros j Hj; lia|].
    rewrite (generateImage_loop_other_failure _ _ _ _ _ H0 R0), H0.
    repeat split. intros e [= <-]. exact R0.
Qed.

(** ** The images of the visual task *)




(** ** The message and the colour of a score *)

Lemma compares_as_integers_100 : ResultsFeedback.compares_as_integers 100 = true.
Proof. vm_compute. reflexivity. Qed.

Lemma strict_equal_100 (p : spec_float) :
  ResultsFeedback.strict_equal p (JS.of_Z 100) = true -> p = JS.of_Z 100.
Proof.
  unfold ResultsFeedback.strict_equal, SFeqb.
  set (c := JS.of_Z 100). vm_compute in c. subst c.
  destruct p as [s | s | | s m e]; cbv beta iota delta [SFcompare]; try discriminate;
    destruct s; try discriminate.
  destruct (Z.compare_spec e (-46)) as [-> | |]; try discriminate.
  rewrite Pos.compare_cont_spec. unfold Pos.switch_Eq.
  destruct (Pos.compare_spec m 7036874417766400) as [-> | |]; try discriminate.
  reflexivity.
Qed.

Lemma compares_as_integers_spec (n : Z) :
  0 <= n <= 100 ->
  ResultsFeedback.strict_equal (JS.of_Z n) (JS.of_Z 100) = (n =? 100)
  /\ ResultsFeedback.ge (JS.of_Z n) (JS.of_Z 80) = (80 <=? n)
  /\ ResultsFeedback.ge (JS.of_Z n) (JS.of_Z 60) = (60 <=? n).
Proof.
  intros Hn. pose proof compares_as_integers_100 as Htab.
  unfold ResultsFeedback.compares_as_integers in Htab.
  rewrite List.forallb_forall in Htab.
  specialize (Htab (Z.to_nat n)).
  rewrite Z2Nat.id in Htab by lia.
  assert (In (Z.to_nat n) (seq 0 101)) as Hin by (apply in_seq; lia).
  apply Htab in Hin. clear Htab.
  apply andb_prop in Hin as [Htab H60]. apply andb_prop in Htab as [H100 H80].
  apply Bool.eqb_prop in H100, H80, H60. rewrite H100, H80, H60. auto.
Qed.

Lemma round_half_up_100_iff (c t : Z) :
  0 <= c <= t -> 0 < t < 200 ->
  ScoreSpec.round_half_up (100 * c) t = 100 <-> c = t.
Proof.
  intros Hc Ht. split.
  - intros Hr. destruct (Z.eq_dec c t) as [-> | Hne]; [reflexivity | exfalso].
    enough (ScoreSpec.round_half_up (100 * c) t < 100) by lia.
    unfold ScoreSpec.round_half_up. apply Z.div_lt_upper_bound; lia.
  - intros ->. symmetry. apply (Z.div_unique _ _ 100 t); lia.
Qed.

Ltac messages :=
  unfold ResultsFeedback.perfect_message, ResultsFeedback.excellent_message,
    ResultsFeedback.great_message, ResultsFeedback.good_start_message in *.

(** X15. In a module of fewer than forty questions, the message of the
    results page is the perfect one exactly when the module has a question
    and every question is marked correct. The other messages and the three
    colours follow the exact quotient rounded half up: the excellent message
    from 80 to 99, the one for a great effort from 60 to 79 and the one for
    a good start below 60; green from 80 on, amber from 60 to 79 and red
    below 60. A module without questions gets the message for a good start
    in red. *)
Theorem feedback_of_contract_sized_module (cs : list Concept) (m : QuizAnswers) :
  ScoreSpec.totalQuestionCount cs < 40 ->
  let p := ResultsOverview.percentage (ResultsOverview.compute_score cs m) in
  let r := ScoreSpec.round_half_up (100 * ScoreSpec.correctCount cs m)
             (ScoreSpec.totalQuestionCount cs) in
  (ResultsFeedback.getFeedbackMessage p = ResultsFeedback.perfect_message
   <-> 0 < ScoreSpec.totalQuestionCount cs
       /\ ScoreSpec.correctCount cs m = ScoreSpec.totalQuestionCount cs)
  /\ (ResultsFeedback.getFeedbackMessage p = ResultsFeedback.excellent_message
      <-> 80 <= r < 100)
  /\ (ResultsFeedback.getFeedbackMessage p = ResultsFeedback.great_message
      <-> 60 <= r < 80)
  /\ (ResultsFeedback.getFeedbackMessage p = ResultsFeedback.good_start_message
      <-> r < 60)
  /\ (ResultsFeedback.getScoreColor p = "text-green-400"%string <-> 80 <= r)
  /\ (ResultsFeedback.getScoreColor p = "text-amber-400"%string <-> 60 <= r < 80)
  /\ (ResultsFeedback.getScoreColor p = "text-red-400"%string <-> r < 60).
Proof.
  intros Hlt p r.
  pose proof (correctCount_bounds cs m) as Hb.
  assert (p = JS.of_Z r) as Hp by apply (percentage_below_40 cs m Hlt).
  assert (0 <= r <= 100
          /\ (r = 100 <-> 0 < ScoreSpec.totalQuestionCount cs
                          /\ ScoreSpec.correctCount cs m
                             = ScoreSpec.totalQuestionCount cs)) as [Hr H100].
  { destruct (Z.eq_dec (ScoreSpec.totalQuestionCount cs) 0) as [H0 | Hne].
    - assert (ScoreSpec.correctCount cs m = 0) as Hc0 by lia.
      subst r. rewrite Hc0, H0.
      change (ScoreSpec.round_half_up (100 * 0) 0) with 0. lia.
    - destruct (round_half_up_bounds (ScoreSpec.correctCount cs m)
                  (ScoreSpec.totalQuestionCount cs)) as (Hr & _); [lia | lia |].
      split; [exact Hr|].
      pose proof (round_half_up_100_iff (ScoreSpec.correctCount cs m)
                    (ScoreSpec.totalQuestionCount cs)) as Hiff.
      subst r. rewrite Hiff by lia. lia. }
  destruct (compares_as_integers_spec r Hr) as (E100 & E80 & E60).
  unfold ResultsFeedback.getFeedbackMessage, ResultsFeedback.getScoreColor.
  rewrite Hp, E100, E80, E60. rewrite <- H100.
  destruct (Z.eqb_spec r 100), (Z.leb_spec 80 r), (Z.leb_spec 60 r);
    messages; repeat split; intros; try discriminate; try lia.
Qed.

Lemma feedback_of_contract_sized_module_witness :
  ResultsFeedback.getFeedbackMessage
    (ResultsOverview.percentage
       (ResultsOverview.compute_score [Samples.a_concept 3; Samples.a_concept 3]
          (Samples.correct_in 0 2 ∅)))
  = ResultsFeedback.good_start_message
  <-> ScoreSpec.round_half_up
        (100 * ScoreSpec.correctCount [Samples.a_concept 3; Samples.a_concept 3]
                 (Samples.correct_in 0 2 ∅))
        (ScoreSpec.totalQuestionCount [Samples.a_concept 3; Samples.a_concept 3])
      < 60.
Proof.
  apply (feedback_of_contract_sized_module
           [Samples.a_concept 3; Samples.a_concept 3] (Samples.correct_in 0 2 ∅)).
  vm_compute. reflexivity.
Defined.

(** X16. The colour of the score follows its message, for every number the
    percentage could be, a NaN or an infinity as well: green goes with the
    perfect and the excellent message, amber with the message for a great
    effort and red with the message for a good start. *)
Theorem score_colour_follows_message (p : spec_float) :
  (ResultsFeedback.getScoreColor p = "text-green-400"%string
   <-> ResultsFeedback.getFeedbackMessage p = ResultsFeedback.perfect_message
       \/ ResultsFeedback.getFeedbackMessage p = ResultsFeedback.excellent_message)
  /\ (ResultsFeedback.getScoreColor p = "text-amber-400"%string
      <-> ResultsFeedback.getFeedbackMessage p = ResultsFeedback.great_message)
  /\ (ResultsFeedback.getScoreColor p = "text-red-400"%string
      <-> ResultsFeedback.getFeedbackMessage p
          = ResultsFeedback.good_start_message).
Proof.
  unfold ResultsFeedback.getFeedbackMessage, ResultsFeedback.getScoreColor.
  destruct (ResultsFeedback.strict_equal p (JS.of_Z 100)) eqn:E100.
  - apply strict_equal_100 in E100 as ->.
    assert (ResultsFeedback.ge (JS.of_Z 100) (JS.of_Z 80) = true) as ->
        by (vm_compute; reflexivity).
    messages. repeat split; intros; try discriminate; auto.
  - destruct (ResultsFeedback.ge p (JS.of_Z 80)),
      (ResultsFeedback.ge p (JS.of_Z 60));
      messages; repeat split; intros; try discriminate; auto;
      match goal with H : _ \/ _ |- _ => destruct H; discriminate end.
Qed.

(** ** Transcription and the analysis workbench *)

Lemma trim_of_visible (c : ascii) (s : string) :
  JS.is_space c = false -> JS.trim (String c s) <> "".
Proof.
  intros Hc. unfold JS.trim. cbn [JS.trimStart]. rewrite Hc.
  cbn [JS.trimEnd]. rewrite Hc. by destruct (JS.trimEnd s).
Qed.

Lemma truthy_of_trim (t : string) : JS.trim t <> "" -> truthy (Some t) = true.
Proof. destruct t; [by intros [] | reflexivity]. Qed.

Lemma transcribeFile_ok (response : GeminiService.Settled (option string))
    (t : string) :
  TextServices.transcribeFile response = Ok t -> JS.trim t <> "".
Proof.
  unfold TextServices.transcribeFile.
  destruct response as [transcription | e]; [| intros [=]].
  destruct (negb (truthy transcription)
            || String.eqb (JS.trim (default "" transcription)) "") eqn:Hg;
    cbn [GeminiService.settle]; [intros [=]|].
  intros [= <-]. apply orb_false_elim in Hg as [_ Hg].
  by apply String.eqb_neq in Hg.
Qed.

Lemma getYouTubeTranscript_ok (video : YouTubeVideo)
    (response : GeminiService.Settled (option string)) (t : string) :
  TextServices.getYouTubeTranscript video response = Ok t -> JS.trim t <> "".
Proof.
  unfold TextServices.getYouTubeTranscript.
  destruct response as [text | e]; [| intros [=]].
  destruct (negb (truthy text)); cbn [TextServices.settle_fixed]; [intros [=]|].
  intros [= <-]. unfold TextServices.transcript_header. string_app.
  by apply trim_of_visible.
Qed.

Lemma transcript_err_truthy (media : SelectedMedia)
    (response : GeminiService.Settled (option string)) (m : string) :
  AnalysisView.transcript media response = Err m -> truthy (Some m) = true.
Proof.
  destruct media as [f | video]; cbn [AnalysisView.transcript].
  - unfold TextServices.transcribeFile.
    destruct response as [transcription | [m'|]].
    + destruct (_ || _); cbn; intros [=]. by subst m.
    + cbn. by intros [= <-].
    + cbn. by intros [= <-].
  - unfold TextServices.getYouTubeTranscript.
    destruct response as [text | e].
    + destruct (negb _); cbn; intros [=]. by subst m.
    + cbn. by intros [= <-].
Qed.

(** X17. When the transcription of the chosen media has settled, the view
    is no longer transcribing and holds either a transcription or an error
    message, never both and never neither: the transcription when the
    service returned one, the message of the service otherwise. A
    transcription that is held is never blank, so that the button that
    creates the module is enabled exactly when no error is shown. *)
Theorem processMedia_outcome (media : SelectedMedia)
    (response : GeminiService.Settled (option string)) (s : AnalysisView.State) :
  AnalysisView.isTranscribing (AnalysisView.processMedia media response s) = false
  /\ truthy (AnalysisView.localTranscription
               (AnalysisView.processMedia media response s))
     = negb (truthy (AnalysisView.error
                       (AnalysisView.processMedia media response s)))
  /\ (forall t,
        AnalysisView.localTranscription
          (AnalysisView.processMedia media response s) = Some t
        <-> AnalysisView.transcript media response = Ok t)
  /\ (forall m,
        AnalysisView.error (AnalysisView.processMedia media response s) = Some m
        <-> AnalysisView.transcript media response = Err m)
  /\ (forall t,
        AnalysisView.localTranscription
          (AnalysisView.processMedia media response s) = Some t ->
        JS.trim t <> "")
  /\ AnalysisView.create_disabled None
       (AnalysisView.processMedia media response s)
     = truthy (AnalysisView.error (AnalysisView.processMedia media response s)).
Proof.
  assert (forall t, AnalysisView.transcript media response = Ok t ->
                    JS.trim t <> "") as Htrim.
  { intros t. destruct media; cbn;
      [apply transcribeFile_ok | apply getYouTubeTranscript_ok]. }
  pose proof (transcript_err_truthy media response) as Herr.
  unfold AnalysisView.processMedia, AnalysisView.create_disabled.
  destruct (AnalysisView.transcript media response) as [t | m]; cbn -[truthy].
  - rewrite (truthy_of_trim t) by by apply Htrim.
    repeat split; try congruence; intros; try discriminate.
    apply Htrim. congruence.
  - rewrite (Herr m eq_refl).
    repeat split; try congruence; intros; discriminate.
Qed.

Section Workbench.

Variable JSON_parse : string -> result json.

Lemma workbench_step (e : AnalysisView.Event) (s : AnalysisView.State) :
  AnalysisView.localTranscription (AnalysisView.step JSON_parse e s)
  = AnalysisView.localTranscription s
  /\ (AnalysisView.error (AnalysisView.step JSON_parse e s) = AnalysisView.error s
      \/ AnalysisView.error (AnalysisView.step JSON_parse e s)
         = Some TextServices.summary_failed_message
      \/ AnalysisView.error (AnalysisView.step JSON_parse e s)
         = Some TextServices.ideas_failed_message
      \/ AnalysisView.error (AnalysisView.step JSON_parse e s)
         = Some TextServices.article_failed_message).
Proof.
  destruct e as [| response | category | response | idea | response];
    cbn [AnalysisView.step].
  - unfold AnalysisView.handleSummarize_begin.
    destruct (negb _); cbn; auto.
  - unfold TextServices.summarizeAndUnderstand.
    destruct response as [text | e]; [destruct (negb (truthy text))|]; cbn; auto.
  - unfold AnalysisView.handleGenerateIdeas_begin.
    destruct (negb _); cbn; auto.
  - unfold TextServices.generateArticleIdeas.
    destruct response as [[text|] | e]; cbn -[JS.trim]; auto.
    destruct (String.eqb _ _); cbn -[JS.trim]; auto.
    destruct (JSON_parse _); cbn; auto.
  - unfold AnalysisView.handleWriteArticle_begin.
    destruct (negb _); cbn; auto.
  - unfold TextServices.writeArticle.
    destruct response as [text | e]; [destruct (negb (truthy text))|]; cbn; auto.
Qed.

(** X18. No click on the workbench and no request of it that settles
    changes the transcription or removes an error message: after any
    sequence of them the error is the one before, or the fixed message of
    the summary, ideas or article service, whatever made the request fail.
    An error that is shown stays shown; only a new media clears it. The
    fallback messages of the three handlers are never shown. *)
Theorem analysis_error_is_sticky (events : list AnalysisView.Event)
    (s : AnalysisView.State) :
  AnalysisView.localTranscription (AnalysisView.run JSON_parse events s)
  = AnalysisView.localTranscription s
  /\ (AnalysisView.error (AnalysisView.run JSON_parse events s)
      = AnalysisView.error s
      \/ AnalysisView.error (AnalysisView.run JSON_parse events s)
         = Some TextServices.summary_failed_message
      \/ AnalysisView.error (AnalysisView.run JSON_parse events s)
         = Some TextServices.ideas_failed_message
      \/ AnalysisView.error (AnalysisView.run JSON_parse events s)
         = Some TextServices.article_failed_message)
  /\ (truthy (AnalysisView.error s) = true ->
      truthy (AnalysisView.error (AnalysisView.run JSON_parse events s)) = true)
  /\ (AnalysisView.error (AnalysisView.run JSON_parse events s) = None ->
      AnalysisView.error s = None).
Proof.
  assert (AnalysisView.localTranscription (AnalysisView.run JSON_parse events s)
          = AnalysisView.localTranscription s
          /\ (AnalysisView.error (AnalysisView.run JSON_parse events s)
              = AnalysisView.error s
              \/ AnalysisView.error (AnalysisView.run JSON_parse events s)
                 = Some TextServices.summary_failed_message
              \/ AnalysisView.error (AnalysisView.run JSON_parse events s)
                 = Some TextServices.ideas_failed_message
              \/ AnalysisView.error (AnalysisView.run JSON_parse events s)
                 = Some TextServices.article_failed_message)) as [Ht He].
  { unfold AnalysisView.run. revert s.
    induction events as [|e events IH]; intros s; cbn [fold_left]; [auto|].
    destruct (IH (AnalysisView.step JSON_parse e s)) as [Ht He].
    destruct (workbench_step e s) as [Ht' He'].
    split; [congruence|].
    destruct He as [-> | He]; [| auto].
    exact He'. }
  split; [exact Ht|]. split; [exact He|].
  destruct He as [-> | [-> | [-> | ->]]]; split; auto; discriminate.
Qed.

End Workbench.

(** ** The problem-solving challenge of the chapter card *)

Lemma card_step_invariant (e : ConceptCard.Event) (st st' : ConceptCard.State) :
  ConceptCard.invariant st ->
  ConceptCard.step e st = Some st' ->
  ConceptCard.invariant st'.
Proof.
  unfold ConceptCard.invariant. intros (Hev & Hle & Hfb).
  destruct e as [text | | response | index]; cbn [ConceptCard.step].
  - destruct (_ && _); intros [= <-]; cbn. auto.
  - destruct (ConceptCard.form_rendered (ConceptCard.card st)); cbn [andb];
      [| intros [=]].
    unfold ConceptCard.submit_disabled, ConceptCard.handleSolutionSubmit_begin.
    destruct (ConceptCard.isEvaluating (ConceptCard.card st)) eqn:Hi;
      cbn [orb negb]; [intros [=]|].
    destruct (ConceptCard.blank _); cbn [negb]; [intros [=]|].
    intros [= <-]. cbn.
    assert (ConceptCard.pending st = 0%nat) as ->.
    { symmetry in Hev. apply Nat.ltb_ge in Hev. lia. }
    repeat split; [lia | discriminate].
  - destruct (ConceptCard.pending st) as [|n] eqn:Hp; [intros [=]|].
    intros [= <-]. cbn [ConceptCard.pending ConceptCard.card].
    assert (n = 0%nat) as -> by lia.
    destruct (TextServices.await (TextServices.evaluateSolution response));
      cbn; auto.
  - intros [= <-]. cbn. auto.
Qed.

Lemma card_initial_invariant : ConceptCard.invariant ConceptCard.initial.
Proof. repeat split; cbn; try lia; discriminate. Qed.

Lemma card_run_invariant (events : list ConceptCard.Event) :
  forall st st',
    ConceptCard.invariant st ->
    ConceptCard.run events st = Some st' ->
    ConceptCard.invariant st'.
Proof.
  induction events as [|e events IH]; intros st st' Hinv; cbn [ConceptCard.run].
  - by intros [= <-].
  - destruct (ConceptCard.step e st) as [st1|] eqn:Hs; [| intros [=]].
    apply IH. eapply card_step_invariant; eauto.
Qed.

Lemma card_step_with_feedback (e : ConceptCard.Event) (st st' : ConceptCard.State) :
  ConceptCard.invariant st ->
  truthy (ConceptCard.feedback (ConceptCard.card st)) = true ->
  ConceptCard.step e st = Some st' ->
  ConceptCard.card st' = ConceptCard.card st /\ ConceptCard.is_show e = true.
Proof.
  intros (Hev & Hle & Hfb) Ht. specialize (Hfb Ht).
  destruct e as [text | | response | index]; cbn [ConceptCard.step];
    unfold ConceptCard.form_rendered; rewrite ?Ht, ?Hfb; cbn [negb andb];
    try (intros [=]; fail).
  by intros [= <-].
Qed.

(** X19. Feedback on a solution, once shown, is permanent for the mounted
    card. From the moment an evaluation has returned feedback, the page
    offers nothing that changes the cells of the challenge: the text area
    and the submit button are no longer shown and no request is under way,
    so that the only events left show another concept. As the chapter view
    reuses the card for every concept, the solution and the feedback written
    for one concept are shown under the challenge of every concept visited
    afterwards, and none of those challenges can be answered. *)
Theorem feedback_is_permanent (before after : list ConceptCard.Event)
    (st st' : ConceptCard.State) :
  ConceptCard.run before ConceptCard.initial = Some st ->
  truthy (ConceptCard.feedback (ConceptCard.card st)) = true ->
  ConceptCard.run after st = Some st' ->
  ConceptCard.card st' = ConceptCard.card st
  /\ ConceptCard.form_rendered (ConceptCard.card st') = false
  /\ forallb ConceptCard.is_show after = true.
Proof.
  intros Hbefore Ht Hafter.
  pose proof (card_run_invariant before _ _ card_initial_invariant Hbefore) as Hinv.
  clear Hbefore.
  enough (ConceptCard.card st' = ConceptCard.card st
          /\ forallb ConceptCard.is_show after = true) as [Hc Hs].
  { split; [exact Hc|]. split; [| exact Hs].
    unfold ConceptCard.form_rendered. by rewrite Hc, Ht. }
  revert st Ht Hinv Hafter.
  induction after as [|e after IH]; intros st Ht Hinv; cbn [ConceptCard.run forallb].
  - by intros [= <-].
  - destruct (ConceptCard.step e st) as [st1|] eqn:Hs; [| intros [=]].
    intros Hafter.
    destruct (card_step_with_feedback e st st1 Hinv Ht Hs) as [Hc ->].
    destruct (IH st1) as [Hc' Hshow]; try done.
    + by rewrite Hc.
    + eapply card_step_invariant; eauto.
    + split; [congruence | exact Hshow].
Qed.

Lemma feedback_is_permanent_witness :
  ConceptCard.card
    {| ConceptCard.card :=
         {| ConceptCard.solution := "Use a queue"; ConceptCard.isEvaluating := false;
            ConceptCard.feedback := Some "Well done";
            ConceptCard.evaluationError := None |};
       ConceptCard.conceptIndex := 1; ConceptCard.pending := 0 |}
  = {| ConceptCard.solution := "Use a queue"; ConceptCard.isEvaluating := false;
       ConceptCard.feedback := Some "Well done";
       ConceptCard.evaluationError := None |}.
Proof.
  apply (feedback_is_permanent
           [ConceptCard.TypeSolution "Use a queue"; ConceptCard.SubmitSolution;
            ConceptCard.EvaluationSettles
              (GeminiService.Returned (Some "Well done"))]
           [ConceptCard.ShowConcept 1]
           {| ConceptCard.card :=
                {| ConceptCard.solution := "Use a queue";
                   ConceptCard.isEvaluating := false;
                   ConceptCard.feedback := Some "Well done";
                   ConceptCard.evaluationError := None |};
              ConceptCard.conceptIndex := 0; ConceptCard.pending := 0 |}).
  - vm_compute. reflexivity.
  - vm_compute. reflexivity.
  - vm_compute. reflexivity.
Defined.

(** ** The results of a video search *)

(** X20. The rows of the video search, whatever the results hold. The rows
    are a prefix of the results, at most four of them while the list is not
    expanded. The button that expands the list is missing only when there
    are at most four results, and then the rows are all of them, so that no
    result is out of reach. Expanding and collapsing again changes nothing.
    A search that returns shows the first four results, whether the list
    was expanded before or not; a search for a blank query does nothing at
    all. *)
Theorem search_rows {A : Type} (s : VideoSearch.State A) :
  VideoSearch.rows s `prefix_of` default [] (VideoSearch.searchResults s)
  /\ (VideoSearch.showAllResults s = false ->
      (length (VideoSearch.rows s) <= 4)%nat)
  /\ (VideoSearch.toggle_rendered s = false ->
      VideoSearch.rows s = default [] (VideoSearch.searchResults s))
  /\ VideoSearch.toggle (VideoSearch.toggle s) = s
  /\ (forall results,
        JS.trim (VideoSearch.searchQuery s) <> "" ->
        VideoSearch.rows
          (VideoSearch.handleSearch (GeminiService.Returned results) s)
        = take 4 results)
  /\ (forall t,
        JS.trim (VideoSearch.searchQuery s) = "" ->
        VideoSearch.handleSearch t s = s).
Proof.
  unfold VideoSearch.rows, VideoSearch.toggle_rendered, VideoSearch.handleSearch,
    VideoSearch.handleSearch_begin.
  destruct s as [q searching [results|] err showAll]; cbn -[Nat.ltb take];
    (split; [| split; [| split; [| split; [| split]]]]).
  - destruct showAll; [done | apply prefix_take].
  - intros ->. rewrite length_take. lia.
  - intros Hle%Nat.ltb_ge. destruct showAll; [done | by apply take_ge].
  - by destruct showAll.
  - intros rs Hq. apply String.eqb_neq in Hq. by rewrite Hq.
  - intros t Hq. by rewrite Hq.
  - done.
  - cbn. lia.
  - done.
  - by destruct showAll.
  - intros rs Hq. apply String.eqb_neq in Hq. by rewrite Hq.
  - intros t Hq. by rewrite Hq.
Qed.

(** ** Fenced responses *)

Lemma substring_whole (s : string) : String.substring 0 (String.length s) s = s.
Proof. induction s as [|a s IH]; cbn; [reflexivity | by rewrite IH]. Qed.

Lemma startsWith_app (p rest : string) : JS.startsWith p (p ++ rest) = true.
Proof.
  unfold JS.startsWith.
  induction p as [|a p IH]; string_app; cbn; [by destruct rest|].
  destruct (ascii_dec a a); [exact IH | done].
Qed.

Lemma strip_prefix_app (p rest : string) :
  GeminiService.strip_prefix p (p ++ rest) = rest.
Proof.
  unfold GeminiService.strip_prefix. rewrite startsWith_app.
  rewrite string_length_app, Nat.add_sub_swap, Nat.sub_diag by lia.
  cbn [Nat.add]. by rewrite substring_skip, substring_whole.
Qed.

Lemma strip_suffix_app (body : string) :
  GeminiService.strip_suffix "```" (body ++ "```") = body.
Proof.
  induction body as [|c body IH]; string_app; [reflexivity|].
  cbn [GeminiService.strip_suffix].
  assert (String.eqb (String c (body ++ "```")) "```" = false) as ->.
  { apply String.eqb_neq. intros H. apply (f_equal String.length) in H.
    cbn in H. rewrite string_length_app in H. cbn in H. lia. }
  by rewrite IH.
Qed.

Lemma strip_suffix_after_line_feed (s : string) :
  GeminiService.strip_suffix "```" (s ++ GeminiService.LF) = s ++ GeminiService.LF.
Proof.
  induction s as [|c s IH]; string_app; [reflexivity|].
  cbn [GeminiService.strip_suffix].
  assert (String.eqb (String c (s ++ GeminiService.LF)) "```" = false) as ->.
  { apply String.eqb_neq.
    destruct s as [|a [|b [|d s]]]; string_app; unfold GeminiService.LF;
      intros [=]. }
  by rewrite IH.
Qed.

Lemma trimStart_before_fence (body : string) :
  exists kept,
    JS.trimStart (body ++ "```" ++ GeminiService.LF)
    = kept ++ "```" ++ GeminiService.LF.
Proof.
  induction body as [|c body IH]; string_app.
  - by exists "".
  - cbn [JS.trimStart]. destruct (JS.is_space c); [exact IH|].
    exists (String c body). by string_app.
Qed.

Lemma trimEnd_after_fence (kept : string) :
  JS.trimEnd (kept ++ "```" ++ GeminiService.LF) = kept ++ "```".
Proof.
  induction kept as [|c kept IH]; [reflexivity|].
  rewrite !(string_app_cons c kept). cbn [JS.trimEnd]. rewrite IH.
  by destruct kept.
Qed.

Lemma string_append_assoc (s1 s2 s3 : string) :
  (s1 ++ s2) ++ s3 = s1 ++ s2 ++ s3.
Proof.
  induction s1 as [|a s1 IH]; [reflexivity|].
  rewrite !(string_app_cons a). by rewrite IH.
Qed.

(** X21. Cleaning a fenced response. A text made of the opening fence with
    its line feed, a body and the closing fence is cleaned to the body, by
    the pattern of the module request and by that of the ideas request; the
    latter also accepts an opening fence without line feed. The module
    request on such a response returns what parsing the trimmed body gives,
    a parse error coming back with the prefix of the operation. But when
    a line feed follows the closing fence the pattern no longer finds it at
    the end of the text: only the opening fence is removed, and the cleaned
    and trimmed text handed to the parser still ends with the three
    backquotes. *)
Theorem fenced_response_cleaning (JSON_parse : string -> result json)
    (body : string) :
  GeminiService.strip_fences
    (("```json" ++ GeminiService.LF) ++ body ++ "```") = body
  /\ TextServices.strip_fences_optional_lf
       (("```json" ++ GeminiService.LF) ++ body ++ "```") = body
  /\ (JS.startsWith GeminiService.LF body = false ->
      TextServices.strip_fences_optional_lf ("```json" ++ body ++ "```") = body)
  /\ GeminiService.generateModuleData JSON_parse
       (GeminiService.Returned
          (Some (("```json" ++ GeminiService.LF) ++ body ++ "```")))
     = match JSON_parse (JS.trim body) with
       | Ok v => Ok v
       | Err m => Err ("Failed to generate module concepts: " ++ m)
       end
  /\ GeminiService.strip_fences
       (("```json" ++ GeminiService.LF) ++ body ++ "```" ++ GeminiService.LF)
     = body ++ "```" ++ GeminiService.LF
  /\ exists kept,
       JS.trim (GeminiService.strip_fences
                  (("```json" ++ GeminiService.LF) ++ body ++ "```"
                   ++ GeminiService.LF))
       = kept ++ "```".
Proof.
  assert (GeminiService.strip_fences
            (("```json" ++ GeminiService.LF) ++ body ++ "```") = body) as Hstrip.
  { unfold GeminiService.strip_fences.
    by rewrite strip_prefix_app, strip_suffix_app. }
  assert (GeminiService.strip_fences
            (("```json" ++ GeminiService.LF) ++ body ++ "```" ++ GeminiService.LF)
          = body ++ "```" ++ GeminiService.LF) as Hkeep.
  { unfold GeminiService.strip_fences. rewrite strip_prefix_app.
    rewrite <- (string_append_assoc body "```" GeminiService.LF).
    apply strip_suffix_after_line_feed. }
  split; [exact Hstrip|]. split.
  { unfold TextServices.strip_fences_optional_lf, TextServices.fence_open,
      TextServices.fence_close.
    rewrite (string_append_assoc "```json" GeminiService.LF), startsWith_app.
    by rewrite !strip_prefix_app, strip_suffix_app. }
  split.
  { intros Hlf.
    unfold TextServices.strip_fences_optional_lf, TextServices.fence_open,
      TextServices.fence_close.
    rewrite startsWith_app, strip_prefix_app.
    assert (GeminiService.strip_prefix GeminiService.LF (body ++ "```")
            = body ++ "```") as ->.
    { unfold GeminiService.strip_prefix.
      destruct (JS.startsWith GeminiService.LF (body ++ "```")) eqn:Hs;
        [exfalso | reflexivity].
      destruct body as [|c body]; [vm_compute in Hs; discriminate|].
      rewrite string_app_cons in Hs.
      unfold JS.startsWith, GeminiService.LF in *.
      cbn [String.prefix] in *.
      destruct (ascii_dec "010" c); cbn in Hs, Hlf; [|discriminate].
      destruct body; discriminate. }
    apply strip_suffix_app. }
  split.
  { unfold GeminiService.generateModuleData.
    assert (negb (truthy (Some (("```json" ++ GeminiService.LF) ++ body ++ "```")))
            = false) as -> by reflexivity.
    cbn [default from_option id]. rewrite Hstrip.
    by destruct (JSON_parse (JS.trim body)). }
  split; [exact Hkeep|].
  rewrite Hkeep. unfold JS.trim.
  destruct (trimStart_before_fence body) as [kept ->].
  exists kept. apply trimEnd_after_fence.
Qed.

(** ** The loading indicator *)

(** X22. The loading indicator shows, after [n] ticks of its interval, the
    message of index [n] modulo six: the index never leaves the six
    messages, so a message is always shown, and the sequence repeats every
    six ticks, the last message being followed by the first one. *)
Theorem loading_message_cycles (n : nat) :
  LoadingIndicator.after n = (n mod 6)%nat
  /\ is_Some (LoadingIndicator.messages !! LoadingIndicator.after n)
  /\ LoadingIndicator.after (n + 6) = LoadingIndicator.after n.
Proof.
  assert (forall k, LoadingIndicator.after k = (k mod 6)%nat) as Hmod.
  { induction k as [|k IH]; [reflexivity|].
    unfold LoadingIndicator.after in *. rewrite Nat.iter_succ, IH.
    unfold LoadingIndicator.tick.
    change (length LoadingIndicator.messages) with 6%nat.
    rewrite Nat.Div0.add_mod_idemp_l. f_equal. lia. }
  split; [apply Hmod|]. split.
  - apply lookup_lt_is_Some. rewrite Hmod.
    change (length LoadingIndicator.messages) with 6%nat.
    apply Nat.mod_upper_bound. lia.
  - rewrite !Hmod.
    replace (n + 6)%nat with (n + 1 * 6)%nat by lia.
    apply Nat.Div0.mod_add.
Qed.

(** ** The progress bar of the chapter view *)

Lemma progress_in_range_40 : QuestView.progress_in_range 40 = true.
Proof. vm_compute. reflexivity. Qed.

(** X23. In a module of at most forty concepts and at an index within the
    concepts, the width of the progress bar is a number above 0 and at most
    100 per cent, and it is 100 exactly on the last concept, the one on
    which the chapter view offers the results in place of the next
    chapter. *)
Theorem progress_full_on_last_concept (concepts : list Concept)
    (currentConceptIndex : Z) :
  (length concepts <= 40)%nat ->
  0 <= currentConceptIndex < Z.of_nat (length concepts) ->
  SFltb (JS.of_Z 0) (QuestView.progressPercentage concepts currentConceptIndex)
  = true
  /\ SFleb (QuestView.progressPercentage concepts currentConceptIndex)
       (JS.of_Z 100) = true
  /\ SFeqb (QuestView.progressPercentage concepts currentConceptIndex)
       (JS.of_Z 100)
     = QuestView.isLastConcept concepts currentConceptIndex
  /\ QuestView.next_rendered concepts currentConceptIndex
     = negb (SFeqb (QuestView.progressPercentage concepts currentConceptIndex)
               (JS.of_Z 100)).
Proof.
  intros Hlen Hi.
  pose proof progress_in_range_40 as Htab.
  unfold QuestView.progress_in_range in Htab.
  rewrite List.forallb_forall in Htab.
  specialize (Htab (length concepts) ltac:(apply in_seq; lia)).
  rewrite List.forallb_forall in Htab.
  specialize (Htab (Z.to_nat currentConceptIndex) ltac:(apply in_seq; lia)).
  cbv zeta in Htab. rewrite Z2Nat.id in Htab by lia.
  apply andb_prop in Htab as [Htab Heq]. apply andb_prop in Htab as [Hlt Hle].
  apply Bool.eqb_prop in Heq.
  unfold QuestView.next_rendered, QuestView.progressPercentage,
    QuestView.isLastConcept.
  by rewrite Hlt, Hle, Heq.
Qed.

Lemma progress_full_on_last_concept_witness :
  SFeqb (QuestView.progressPercentage
           [Samples.a_concept 3; Samples.a_concept 3; Samples.a_concept 3] 2)
    (JS.of_Z 100)
  = QuestView.isLastConcept
      [Samples.a_concept 3; Samples.a_concept 3; Samples.a_concept 3] 2.
Proof.
  apply (progress_full_on_last_concept
           [Samples.a_concept 3; Samples.a_concept 3; Samples.a_concept 3] 2).
  - cbn. lia.
  - cbn. lia.
Defined.

(** ** The illustration of the chapter card *)

Lemma take_run_spec (id : nat) (rs : list ConceptImage.Run) :
  forall r rest,
    ConceptImage.take_run id rs = Some (r, rest) ->
    r ∈ rs
    /\ (forall x, x ∈ rest -> x ∈ rs)
    /\ (forall x, x ∈ rs -> x = r \/ x ∈ rest).
Proof.
  induction rs as [|a rs IH]; intros r rest; cbn [ConceptImage.take_run];
    [intros [=]|].
  destruct (Nat.eqb (ConceptImage.run_id a) id).
  - intros [= <- <-]. split; [apply list_elem_of_here|]. split.
    + intros x Hx. by apply list_elem_of_further.
    + intros x [-> | Hx]%elem_of_cons; auto.
  - destruct (ConceptImage.take_run id rs) as [[x rest']|]; [| intros [=]].
    intros [= <- <-]. destruct (IH x rest' eq_refl) as (Hin & Hsub & Hsplit).
    split; [by apply list_elem_of_further|]. split.
    + intros y [-> | Hy]%elem_of_cons;
        [apply list_elem_of_here | by apply list_elem_of_further, Hsub].
    + intros y [-> | Hy]%elem_of_cons.
      * right. apply list_elem_of_here.
      * destruct (Hsplit y Hy) as [-> | Hr]; [by left|].
        right. by apply list_elem_of_further.
Qed.

Lemma cleanup_spec (st : ConceptImage.State) (r : ConceptImage.Run) :
  ConceptImage.invariant st ->
  r ∈ ConceptImage.cleanup st ->
  ConceptImage.isMounted r = false /\ ConceptImage.run_prompt r <> "".
Proof.
  intros (Hne & Hm & _) Hin. unfold ConceptImage.cleanup in Hin.
  apply list_elem_of_fmap in Hin as (x & -> & Hx).
  destruct (Nat.eqb_spec (ConceptImage.run_id x) (ConceptImage.effect st))
    as [Heq | Hneq]; cbn.
  - split; [reflexivity | by apply Hne].
  - split; [| by apply Hne].
    destruct (ConceptImage.isMounted x) eqn:Hmx; [| reflexivity].
    by destruct (Hm x Hx Hmx).
Qed.

Lemma image_mount_invariant (p : string) :
  ConceptImage.invariant (ConceptImage.mount p).
Proof.
  unfold ConceptImage.mount, ConceptImage.generate_begin, ConceptImage.invariant.
  destruct (negb (truthy (Some p))) eqn:Hp; cbn -[truthy].
  - split; [| split; [| split]].
    + intros r Hr. by apply elem_of_nil in Hr.
    + intros r Hr. by apply elem_of_nil in Hr.
    + intros u [=].
    + intros [=].
  - assert (p <> "") as Hne by (by intros ->).
    split; [| split; [| split]].
    + intros r ->%list_elem_of_singleton. exact Hne.
    + by intros r ->%list_elem_of_singleton _.
    + intros u [=].
    + intros _. right. eexists. split; [apply list_elem_of_here | reflexivity].
Qed.

Lemma image_step_invariant (e : ConceptImage.Event)
    (st st' : ConceptImage.State) :
  ConceptImage.invariant st ->
  ConceptImage.step e st = Some st' ->
  ConceptImage.invariant st'.
Proof.
  intros Hinv. pose proof Hinv as (Hne & Hm & Hu & Hl).
  destruct e as [p | id t]; cbn [ConceptImage.step].
  - destruct (String.eqb_spec p (ConceptImage.prompt st)) as [-> | Hp];
      [by intros [= <-]|].
    intros [= <-]. pose proof (cleanup_spec st) as Hclean.
    unfold ConceptImage.generate_begin, ConceptImage.invariant.
    destruct (negb (truthy (Some p))) eqn:Htp; cbn -[truthy ConceptImage.cleanup].
    + assert (p = "") as -> by (by destruct p).
      split; [| split; [| split]].
      * intros r Hr. by apply (Hclean r Hinv).
      * intros r Hr Hmr. destruct (Hclean r Hinv Hr) as [Hf _]. congruence.
      * intros u Hsome. destruct (Hu u Hsome) as (q & Hq & Hqne & _). eauto.
      * auto.
    + assert (p <> "") as Hpne by (by intros ->).
      split; [| split; [| split]].
      * intros r [Hr | ->%list_elem_of_singleton]%elem_of_app;
          [by apply (Hclean r Hinv) | exact Hpne].
      * intros r [Hr | ->%list_elem_of_singleton]%elem_of_app Hmr; [| done].
        destruct (Hclean r Hinv Hr) as [Hf _]. congruence.
      * intros u [=].
      * intros _. right.
        exists {| ConceptImage.run_id := S (ConceptImage.effect st);
                  ConceptImage.run_prompt := p; ConceptImage.isMounted := true |}.
        split; [| reflexivity].
        apply elem_of_app. right. apply list_elem_of_here.
  - destruct (ConceptImage.take_run id (ConceptImage.runs st))
      as [[r rest]|] eqn:Htake; [| intros [=]].
    destruct (take_run_spec _ _ _ _ Htake) as (Hin & Hsub & Hsplit).
    unfold ConceptImage.generate_settle.
    destruct (ConceptImage.isMounted r) eqn:Hmr.
    + destruct (Hm r Hin Hmr) as [Hid Hprompt].
      destruct t as [url | e]; intros [= <-]; unfold ConceptImage.invariant; cbn.
      * split; [| split; [| split]]; auto.
        -- intros u [= <-]. exists (ConceptImage.run_prompt r).
           split; [reflexivity|]. split; [by apply Hne | by left].
        -- intros [=].
      * split; [| split; [| split]]; auto. intros [=].
    + intros [= <-]. unfold ConceptImage.invariant; cbn.
      split; [| split; [| split]]; auto.
      intros Hload. destruct (Hl Hload) as [Hp | (x & Hx & Hmx)]; [by left|].
      right. exists x. split; [| exact Hmx].
      destruct (Hsplit x Hx) as [-> | Hr]; [congruence | exact Hr].
Qed.

Lemma image_run_invariant (events : list ConceptImage.Event) :
  forall st st',
    ConceptImage.invariant st ->
    ConceptImage.run events st = Some st' ->
    ConceptImage.invariant st'.
Proof.
  induction events as [|e events IH]; intros st st' Hinv; cbn [ConceptImage.run].
  - by intros [= <-].
  - destruct (ConceptImage.step e st) as [st1|] eqn:Hs; [| intros [=]].
    apply IH. eapply image_step_invariant; eauto.
Qed.

(** X24. The illustration of the chapter card is never a stale one. However
    the concepts shown and the image requests that settle interleave, an
    image that is held was returned by the request for the prompt of the
    concept now shown: the result of a request made for an earlier concept
    is dropped when it arrives, because the effect that made it was cleaned
    up. The one exception is a concept whose prompt is empty: its effect
    returns at once and the card keeps what it had, the image of the concept
    before or its loading notice. Only the run of the latest effect can
    still write to the card. *)
Theorem illustration_belongs_to_prompt (p : string)
    (events : list ConceptImage.Event) (st : ConceptImage.State) :
  ConceptImage.run events (ConceptImage.mount p) = Some st ->
  (forall u,
      ConceptImage.imageUrl (ConceptImage.cells st) = Some u ->
      exists q, ConceptImage.illustrates st = Some q /\ q <> ""
                /\ (ConceptImage.prompt st = q \/ ConceptImage.prompt st = ""))
  /\ (forall r,
        r ∈ ConceptImage.runs st -> ConceptImage.isMounted r = true ->
        ConceptImage.run_prompt r = ConceptImage.prompt st)
  /\ (ConceptImage.isImageLoading (ConceptImage.cells st) = true ->
      ConceptImage.prompt st = ""
      \/ exists r, r ∈ ConceptImage.runs st /\ ConceptImage.isMounted r = true).
Proof.
  intros Hrun.
  destruct (image_run_invariant events _ _ (image_mount_invariant p) Hrun)
    as (_ & Hm & Hu & Hl).
  split; [exact Hu|]. split; [| exact Hl].
  intros r Hr Hmr. by destruct (Hm r Hr Hmr).
Qed.

Lemma illustration_belongs_to_prompt_witness :
  exists q,
    ConceptImage.illustrates
      {| ConceptImage.cells :=
           {| ConceptImage.imageUrl := Some "data:b";
              ConceptImage.isImageLoading := false;
              ConceptImage.imageError := None |};
         ConceptImage.prompt := "a bridge"; ConceptImage.effect := 1;
         ConceptImage.runs := []; ConceptImage.illustrates := Some "a bridge" |}
    = Some q
    /\ q <> ""
    /\ ("a bridge" = q \/ "a bridge" = "").
Proof.
  refine (proj1 (illustration_belongs_to_prompt "a castle"
           [ConceptImage.ShowPrompt "a bridge";
            ConceptImage.ImageSettles 0 (GeminiService.Returned "data:a");
            ConceptImage.ImageSettles 1 (GeminiService.Returned "data:b")]
           {| ConceptImage.cells :=
                {| ConceptImage.imageUrl := Some "data:b";
                   ConceptImage.isImageLoading := false;
                   ConceptImage.imageError := None |};
              ConceptImage.prompt := "a bridge"; ConceptImage.effect := 1;
              ConceptImage.runs := [];
              ConceptImage.illustrates := Some "a bridge" |}
           _) "data:b" _); reflexivity.
Defined.

(** ** The parts of a summary *)

Lemma trimStart_length (s : string) :
  (String.length (JS.trimStart s) <= String.length s)%nat.
Proof.
  induction s as [|c s IH]; cbn [JS.trimStart]; [done|].
  destruct (JS.is_space c); cbn; lia.
Qed.

Lemma trimStart_fixed (c : ascii) (s : string) :
  JS.trimStart (String c s) = String c s -> JS.is_space c = false.
Proof.
  cbn [JS.trimStart]. destruct (JS.is_space c); [| done].
  intros H. apply (f_equal String.length) in H. cbn in H.
  pose proof (trimStart_length s). lia.
Qed.

Lemma trimStart_idem (s : string) : JS.trimStart (JS.trimStart s) = JS.trimStart s.
Proof.
  induction s as [|c s IH]; cbn [JS.trimStart]; [done|].
  destruct (JS.is_space c) eqn:Hc; [exact IH|]. cbn [JS.trimStart]. by rewrite Hc.
Qed.

Lemma trimEnd_cons (c : ascii) (s : string) :
  JS.trimEnd (String c s)
  = match JS.trimEnd s with
    | EmptyString => if JS.is_space c then EmptyString else String c EmptyString
    | r => String c r
    end.
Proof. reflexivity. Qed.

Lemma trimEnd_idem (s : string) : JS.trimEnd (JS.trimEnd s) = JS.trimEnd s.
Proof.
  induction s as [|c s IH]; [done|]. rewrite trimEnd_cons.
  destruct (JS.trimEnd s) as [|a r] eqn:Hr.
  - destruct (JS.is_space c) eqn:Hc; [done|].
    rewrite trimEnd_cons. cbn [JS.trimEnd]. by rewrite Hc.
  - rewrite trimEnd_cons, IH. reflexivity.
Qed.

Lemma trimEnd_fixed_tail (c : ascii) (s : string) :
  JS.trimEnd (String c s) = String c s -> JS.trimEnd s = s.
Proof.
  rewrite trimEnd_cons. destruct (JS.trimEnd s) as [|a r].
  - destruct (JS.is_space c); [discriminate | by intros [= <-]].
  - by intros [= <-].
Qed.

Lemma trimStart_keeps_trimmed_end (s : string) :
  JS.trimEnd s = s -> JS.trimEnd (JS.trimStart s) = JS.trimStart s.
Proof.
  induction s as [|c s IH]; [done|]. intros H. cbn [JS.trimStart].
  destruct (JS.is_space c); [| exact H].
  apply IH. by apply trimEnd_fixed_tail in H.
Qed.

Lemma trimEnd_keeps_trimmed_start (s : string) :
  JS.trimStart s = s -> JS.trimStart (JS.trimEnd s) = JS.trimEnd s.
Proof.
  destruct s as [|c s]; [done|]. intros Hc%trimStart_fixed.
  rewrite trimEnd_cons. destruct (JS.trimEnd s); rewrite ?Hc;
    cbn [JS.trimStart]; by rewrite Hc.
Qed.

Lemma trim_fixed (s : string) :
  JS.trim s = s <-> JS.trimStart s = s /\ JS.trimEnd s = s.
Proof.
  unfold JS.trim. split.
  - intros H.
    assert (JS.trimStart s = s) as Hs.
    { rewrite <- H at 1. rewrite trimEnd_keeps_trimmed_start by apply trimStart_idem.
      exact H. }
    split; [exact Hs|]. by rewrite Hs in H.
  - intros [Hs He]. by rewrite Hs.
Qed.

Lemma trim_idem (s : string) : JS.trim (JS.trim s) = JS.trim s.
Proof.
  apply trim_fixed. unfold JS.trim. split.
  - apply trimEnd_keeps_trimmed_start, trimStart_idem.
  - apply trimEnd_idem.
Qed.

Lemma trimStart_line_feed (s : string) :
  ParseSummary.has_line_feed s = false ->
  ParseSummary.has_line_feed (JS.trimStart s) = false.
Proof.
  induction s as [|c s IH]; [done|]. intros H. cbn [JS.trimStart].
  destruct (JS.is_space c); [| exact H].
  apply IH. cbn in H. by apply orb_false_elim in H as [_ H].
Qed.

Lemma trimEnd_line_feed (s : string) :
  ParseSummary.has_line_feed s = false ->
  ParseSummary.has_line_feed (JS.trimEnd s) = false.
Proof.
  induction s as [|c s IH]; [done|]. intros H. cbn in H.
  apply orb_false_elim in H as [Hc H]. specialize (IH H).
  rewrite trimEnd_cons. destruct (JS.trimEnd s) as [|a r].
  - destruct (JS.is_space c); [done|]. cbn. by rewrite Hc.
  - cbn [ParseSummary.has_line_feed] in *. by rewrite Hc, IH.
Qed.

Lemma trim_clean (s : string) :
  ParseSummary.has_line_feed s = false -> ParseSummary.clean (JS.trim s).
Proof.
  intros H. split; [apply trim_idem|].
  by apply trimEnd_line_feed, trimStart_line_feed.
Qed.

Lemma split_lines_nonempty (s : string) : ParseSummary.split_lines s <> [].
Proof.
  destruct s as [|c s]; cbn [ParseSummary.split_lines]; [done|].
  destruct (ParseSummary.split_lines s); [done|].
  by destruct (Ascii.eqb c "010").
Qed.

Lemma split_lines_line_feed (s : string) :
  Forall (fun line => ParseSummary.has_line_feed line = false)
    (ParseSummary.split_lines s).
Proof.
  induction s as [|c s IH]; cbn [ParseSummary.split_lines].
  - by constructor.
  - pose proof (split_lines_nonempty s) as Hne.
    destruct (ParseSummary.split_lines s) as [|line lines]; [done|].
    apply Forall_cons in IH as [Hl Hls].
    destruct (Ascii.eqb c "010") eqn:Hc.
    + constructor; [done|]. by constructor.
    + constructor; [| done]. cbn. by rewrite Hc.
Qed.

Lemma strip_bullet_clean (line : string) :
  ParseSummary.clean line -> ParseSummary.clean (ParseSummary.strip_bullet line).
Proof.
  intros [Ht Hl]. destruct line as [|c rest]; [done|].
  cbn [ParseSummary.strip_bullet].
  destruct (ParseSummary.is_bullet c); [| done].
  apply trim_fixed in Ht as [_ He]. apply trimEnd_fixed_tail in He.
  cbn in Hl. apply orb_false_elim in Hl as [_ Hl]. split.
  - apply trim_fixed. split; [apply trimStart_idem|].
    by apply trimStart_keeps_trimmed_end.
  - by apply trimStart_line_feed.
Qed.

Lemma after_first_line_feed (line : string) :
  ParseSummary.has_line_feed line = false ->
  ParseSummary.has_line_feed (ParseSummary.after_first line) = false.
Proof.
  destruct line as [|c rest]; [done|]. cbn.
  by intros [_ H]%orb_false_elim.
Qed.

Section SummaryParts.

Variable split_at_header : string -> list string.
Variable strip_title : string -> string.

(** X25. What [parseSummary] hands to the page, whatever the two patterns
    of the function match. Every point of the quick summary is a single
    line that is not empty and has no white space at its ends, its bullet
    and the white space after it removed. Every key concept is a single line
    without white space at its ends as well. A summary that is absent or
    empty gives no point and no concept, a text without a header of key
    concepts gives no concept, and there are never more concepts than lines
    after the header. *)
Theorem parseSummary_items (text : option string) :
  Forall (fun point => point <> "" /\ ParseSummary.clean point)
    (fst (ParseSummary.parseSummary split_at_header strip_title text))
  /\ Forall ParseSummary.clean
       (snd (ParseSummary.parseSummary split_at_header strip_title text))
  /\ (truthy text = false ->
      ParseSummary.parseSummary split_at_header strip_title text = ([], []))
  /\ ((length (split_at_header (default "" text)) <= 1)%nat ->
      snd (ParseSummary.parseSummary split_at_header strip_title text) = [])
  /\ (length (snd (ParseSummary.parseSummary split_at_header strip_title text))
      <= length (ParseSummary.split_lines
                   (ParseSummary.part (split_at_header (default "" text)) 1)))%nat.
Proof.
  unfold ParseSummary.parseSummary.
  destruct (truthy text) eqn:Ht; cbn [negb fst snd].
  - split; [| split; [| split; [| split]]].
    + apply Forall_forall. intros point Hin.
      apply list_elem_of_In, filter_In in Hin as [Hin Hne].
      apply list_elem_of_In, list_elem_of_fmap in Hin as (line & -> & Hin).
      apply list_elem_of_fmap in Hin as (raw & -> & Hin).
      split.
      * unfold ParseSummary.nonempty in Hne. apply negb_true_iff in Hne.
        by apply String.eqb_neq in Hne.
      * apply strip_bullet_clean, trim_clean.
        pose proof (split_lines_line_feed
                      (JS.trim (strip_title
                                  (ParseSummary.part
                                     (split_at_header (default "" text)) 0))))
          as Hall.
        rewrite Forall_forall in Hall. by apply Hall.
    + apply Forall_forall. intros concept Hin.
      apply list_elem_of_fmap in Hin as (line & -> & Hin).
      apply list_elem_of_In, filter_In in Hin as [Hin _].
      apply list_elem_of_In, list_elem_of_fmap in Hin as (raw & -> & Hin).
      apply trim_clean, after_first_line_feed.
      apply trim_clean.
      pose proof (split_lines_line_feed
                    (ParseSummary.part (split_at_header (default "" text)) 1))
        as Hall.
      rewrite Forall_forall in Hall. by apply Hall.
    + discriminate.
    + intros Hlen. unfold ParseSummary.part.
      rewrite lookup_ge_None_2 by lia. reflexivity.
    + rewrite length_map.
      etransitivity; [apply filter_length_le|]. by rewrite length_map.
  - split; [by constructor|]. split; [by constructor|]. split; [done|].
    split; [done|]. cbn. lia.
Qed.

End SummaryParts.

(** ** The media of the session *)

Lemma quiz_click_selectedMedia (question : QuizQuestion) (ci qi : nat)
    (c : QuizItem.Click) (s : App.AppState) :
  App.selectedMedia (QuizItem.quiz_click question ci qi c s) = App.selectedMedia s.
Proof.
  unfold QuizItem.quiz_click.
  by destruct (QuizItem.click question ci qi _ c).
Qed.

Lemma handleFileChange_accepts (files : list File) (err : option string)
    (file : File) :
  FileUpload.handleFileChange files = (err, Some file) ->
  (JS.startsWith "audio/" (file_type file)
   || JS.startsWith "video/" (file_type file)) = true
  /\ file_size file <= 20 * 1024 * 1024.
Proof.
  unfold FileUpload.handleFileChange. destruct files as [|f rest]; [intros [=]|].
  destruct (JS.startsWith "audio/" (file_type f)) eqn:Ha;
    destruct (JS.startsWith "video/" (file_type f)) eqn:Hv; cbn [negb andb];
    try (intros [=]; fail);
    rewrite MAX_FILE_SIZE_BYTES_value;
    destruct (Z.gtb_spec (file_size f) 20971520); intros [= <- <-];
    rewrite ?Ha, ?Hv; split; (reflexivity || lia).
Qed.

Lemma step_selectedMedia (e : Session.Event) (st st' : Session.State) :
  Session.step e st = Some st' ->
  App.selectedMedia (Session.app st') = App.selectedMedia (Session.app st)
  \/ App.selectedMedia (Session.app st') = None
  \/ (exists v, App.selectedMedia (Session.app st') = Some (RemoteVideo v))
  \/ (exists files err file,
        FileUpload.handleFileChange files = (err, Some file)
        /\ App.selectedMedia (Session.app st') = Some (LocalFile file)).
Proof.
  destruct e; cbn [Session.step].
  all: try (destruct (Session.crashed (Session.app st)); [intros [=]|];
            destruct (Session.press _ (Session.app st)) as [s'|] eqn:Hp;
            [| intros [=]]; intros [= <-]; cbn [Session.app];
            cbn [Session.press] in Hp).
  - destruct (App.view (Session.app st)); try discriminate.
    injection Hp as <-. unfold FileUpload.selectFile.
    destruct (FileUpload.handleFileChange files) as [err [file|]] eqn:Hf;
      cbn [fst]; [| by left].
    right. right. right. by exists files, err, file.
  - destruct (App.view (Session.app st)); try discriminate.
    injection Hp as <-. right. right. left. by eexists.
  - destruct (App.view (Session.app st)); try discriminate.
    injection Hp as <-. by right; left.
  - destruct (Session.analysis_rendered _); [| discriminate].
    injection Hp as <-. by right; left.
  - destruct (_ && _); [| discriminate]. injection Hp as <-. by left.
  - destruct (_ && _); [| discriminate]. injection Hp as <-. by left.
  - destruct (Session.pending st); [intros [=]|]. intros [= <-]. left.
    cbn [Session.app]. unfold App.startGeneration_settle.
    destruct o as [data | message]; [| reflexivity].
    by destruct (length (concepts data) =? 0)%nat.
  - destruct (Session.prequest_rendered _); [| discriminate].
    injection Hp as <-. by left.
  - destruct (_ && _); [| discriminate]. injection Hp as <-. left.
    unfold App.handleNextConcept.
    destruct (App.moduleData (Session.app st)); [| reflexivity].
    by destruct (_ <? _).
  - destruct (_ && _); [| discriminate]. injection Hp as <-. left.
    unfold App.handlePrevConcept. by destruct (_ <? _).
  - destruct (_ && _); [| discriminate]. injection Hp as <-. by left.
  - destruct (Session.quest_rendered _); [| discriminate].
    destruct (QuestView.currentConcept _ _) as [concept|]; [| discriminate].
    destruct (quiz concept !! questionIndex) as [question|]; [| discriminate].
    destruct (QuizItem.rendered question c); [| discriminate].
    injection Hp as <-. left. apply quiz_click_selectedMedia.
Qed.

Lemma run_selectedMedia (events : list Session.Event) :
  forall st st',
    (forall file,
        App.selectedMedia (Session.app st) = Some (LocalFile file) ->
        (JS.startsWith "audio/" (file_type file)
         || JS.startsWith "video/" (file_type file)) = true
        /\ file_size file <= 20 * 1024 * 1024) ->
    Session.run events st = Some st' ->
    forall file,
      App.selectedMedia (Session.app st') = Some (LocalFile file) ->
      (JS.startsWith "audio/" (file_type file)
       || JS.startsWith "video/" (file_type file)) = true
      /\ file_size file <= 20 * 1024 * 1024.
Proof.
  induction events as [|e events IH]; intros st st' Hvalid; cbn [Session.run].
  - by intros [= <-].
  - destruct (Session.step e st) as [st1|] eqn:Hs; [| intros [=]].
    apply IH. intros file Hfile.
    destruct (step_selectedMedia e st st1 Hs)
      as [Hsame | [Hnone | [[v Hv] | (files & err & f & Hf & Hsel)]]].
    + apply Hvalid. by rewrite <- Hsame.
    + congruence.
    + congruence.
    + rewrite Hsel in Hfile. injection Hfile as <-.
      by apply (handleFileChange_accepts files err).
Qed.

(** The element that shows a selected element of the search results: the
    frame exactly for an object with its own [videoId], and never the audio
    or the video element. *)
Lemma search_result_element (element : json) :
  (Unvalidated.media_element (Unvalidated.SearchResult element)
   = Some (GeminiService.Returned AnalysisView.iframe)
   <-> exists members v,
         element = JObject members
         /\ Unvalidated.own "videoId" members = Some v)
  /\ (forall p,
        Unvalidated.media_element (Unvalidated.SearchResult element)
        = Some (GeminiService.Returned p) -> p = AnalysisView.iframe)
  /\ (forall video,
        Unvalidated.decode_video element = Some video ->
        Unvalidated.media_element (Unvalidated.SearchResult element)
        = Some (GeminiService.Returned
                  (AnalysisView.player (RemoteVideo video)))).
Proof.
  split; [| split].
  - split.
    + destruct element as [| b | n | t | items | members]; cbn;
        try discriminate; try (by destruct b); try (by destruct (Unvalidated.truthy_value _)).
      all: try (destruct (Unvalidated.own "videoId" members) as [v|] eqn:Hv;
                [intros _; by exists members, v | discriminate]).
      all: try (intros H; exfalso; revert H; unfold Unvalidated.media_element;
                cbn; by repeat case_match).
    + intros (members & v & -> & Hv). unfold Unvalidated.media_element. cbn.
      by rewrite Hv.
  - intros p. unfold Unvalidated.media_element.
    destruct (Unvalidated.media_truthy _); [| discriminate].
    destruct (Unvalidated.isYouTubeVideo _) as [[|]|]; [| discriminate..].
    by intros [= <-].
  - intros video Hv. unfold Unvalidated.decode_video in Hv.
    apply bind_Some in Hv as (i & Hi & _).
    unfold Unvalidated.string_field in Hi.
    apply bind_Some in Hi as (v & Hf & _).
    destruct element; try discriminate. cbn in *. by rewrite Hf.
Qed.

(** X26. When every value that the session receives has its declared
    shape, the media that the application holds passed the validation of the
    upload component or is a video of the search. A file that is held is at
    most 20 MB and its type starts with [audio/] or with [video/]: the
    analysis view plays it in its audio element exactly when the type is an
    audio type, and a file it plays in its video element has a video type,
    never any other type. A video of the declared shape is shown in the
    frame. The shape is not checked by the view: any selected object with
    its own [videoId] is shown in the frame, no element of the search is
    ever played in the audio or the video element, and an object without
    [videoId] is taken for a file, so that the render throws. *)
Theorem media_is_validated (received : list Unvalidated.Event)
    (events : list Session.Event) (st : Session.State) (media : SelectedMedia) :
  Unvalidated.typed_events received = Some events ->
  Session.run events Session.initial = Some st ->
  App.selectedMedia (Session.app st) = Some media ->
  match media with
  | RemoteVideo video =>
      forall element,
        Unvalidated.decode_video element = Some video ->
        Unvalidated.media_element (Unvalidated.SearchResult element)
        = Some (GeminiService.Returned AnalysisView.iframe)
  | LocalFile file =>
      file_size file <= 20 * 1024 * 1024
      /\ Unvalidated.media_element (Unvalidated.UploadedFile file)
         = Some (GeminiService.Returned (AnalysisView.player media))
      /\ (AnalysisView.player media = AnalysisView.audio
          /\ JS.startsWith "audio/" (file_type file) = true
          \/ AnalysisView.player media = AnalysisView.video
             /\ JS.startsWith "audio/" (file_type file) = false
             /\ JS.startsWith "video/" (file_type file) = true)
  end
  /\ (forall element,
        (Unvalidated.media_element (Unvalidated.SearchResult element)
         = Some (GeminiService.Returned AnalysisView.iframe)
         <-> exists members v,
               element = JObject members
               /\ Unvalidated.own "videoId" members = Some v)
        /\ (forall p,
              Unvalidated.media_element (Unvalidated.SearchResult element)
              = Some (GeminiService.Returned p) -> p = AnalysisView.iframe))
  /\ (forall members,
        Unvalidated.own "videoId" members = None ->
        Unvalidated.media_element (Unvalidated.SearchResult (JObject members))
        = Some (GeminiService.Threw Unvalidated.type_error)).
Proof.
  intros _ Hrun Hmedia. split; [| split].
  - destruct media as [file | video].
    + destruct (run_selectedMedia events Session.initial st) with (file := file)
        as [Htype Hsize]; [by intros f [=] | exact Hrun | exact Hmedia |].
      split; [exact Hsize|]. split; [reflexivity|]. cbn [AnalysisView.player].
      destruct (JS.startsWith "audio/" (file_type file)); [by left | by right].
    + intros element Hv.
      destruct (search_result_element element) as (_ & _ & H).
      exact (H video Hv).
  - intros element. destruct (search_result_element element) as (H1 & H2 & _).
    by split.
  - intros members Hv. unfold Unvalidated.media_element. cbn. by rewrite Hv.
Qed.

Lemma media_is_validated_witness :
  Unvalidated.media_element
    (Unvalidated.UploadedFile {| file_type := "video/mp4"; file_size := 2048 |})
  = Some (GeminiService.Returned AnalysisView.video).
Proof.
  refine (proj1 (proj2 (proj1 (media_is_validated
                   [Unvalidated.SelectVideo Received.a_video;
                    Unvalidated.ResetApp;
                    Unvalidated.SelectFile
                      [{| file_type := "video/mp4"; file_size := 2048 |}]]
                   [Session.SelectVideo
                      {| videoId := "kKKM8Y-u7ds";
                         video_title := "Newton's laws of motion";
                         channelName := "Physics lectures" |};
                    Session.ResetApp;
                    Session.SelectFile
                      [{| file_type := "video/mp4"; file_size := 2048 |}]]
                   {| Session.app :=
                        App.handleFileSelect
                          {| file_type := "video/mp4"; file_size := 2048 |}
                          App.initial;
                      Session.pending := 0 |}
                   (LocalFile {| file_type := "video/mp4"; file_size := 2048 |})
                   _ _ _)))).
  - vm_compute. reflexivity.
  - vm_compute. reflexivity.
  - reflexivity.
Defined.

(** ** The error view *)

Lemma error_view_not_rendered (s : App.AppState) :
  App.view s = App.error_view ->
  Session.analysis_rendered s = false /\ Session.crashed s = false.
Proof.
  intros Hv. unfold Session.crashed, Session.quest_rendered,
    Session.analysis_rendered. by rewrite Hv.
Qed.

Lemma error_view_step (e : Session.Event) (st st' : Session.State) :
  App.view (Session.app st) = App.error_view ->
  Session.step e st = Some st' ->
  (e = Session.TryAgain
   /\ Session.app st' = App.initial
   /\ Session.pending st' = Session.pending st)
  \/ (Session.is_settle e = true
      /\ App.view (Session.app st') = App.error_view
      /\ App.selectedMedia (Session.app st')
         = App.selectedMedia (Session.app st)).
Proof.
  intros Hv. destruct (error_view_not_rendered _ Hv) as [Hr Hc].
  destruct e; cbn [Session.step Session.press];
    unfold Session.prequest_rendered, Session.quest_rendered;
    rewrite ?Hc, ?Hv, ?Hr; cbn [andb]; try (intros [=]; fail).
  - intros [= <-]. left. by repeat split.
  - destruct (Session.pending st); [intros [=]|]. intros [= <-]. right.
    split; [reflexivity|]. cbn [Session.app]. unfold App.startGeneration_settle.
    destruct o as [data | message]; [| by split].
    destruct (length (concepts data) =? 0)%nat; by split.
Qed.

(** X27. The error view is left by a restart only. From a state that shows
    the error view, in every run of events either nothing happens but
    requests settling, and then the error view and the chosen media stay, or
    the first event that is not a request settling is the press of Try
    Again, which puts the application back to its initial state: the media
    and the transcription are dropped, and the user has to provide the
    lecture again. *)
Theorem error_view_left_by_restart_only (events : list Session.Event)
    (st st' : Session.State) :
  App.view (Session.app st) = App.error_view ->
  Session.run events st = Some st' ->
  (forallb Session.is_settle events = true
   /\ App.view (Session.app st') = App.error_view
   /\ App.selectedMedia (Session.app st') = App.selectedMedia (Session.app st))
  \/ (exists before after restarted,
        events = (before ++ Session.TryAgain :: after)%list
        /\ forallb Session.is_settle before = true
        /\ Session.app restarted = App.initial
        /\ Session.run after restarted = Some st').
Proof.
  revert st. induction events as [|e events IH]; intros st Hv;
    cbn [Session.run forallb].
  - intros [= <-]. by left.
  - destruct (Session.step e st) as [st1|] eqn:Hs; [| intros [=]].
    intros Hrun.
    destruct (error_view_step e st st1 Hv Hs)
      as [(-> & Happ & _) | (Hset & Hv1 & Hm1)].
    + right. exists [], events, st1. by repeat split.
    + destruct (IH st1 Hv1 Hrun)
        as [(Hall & Hv' & Hm') | (before & after & r & -> & Hall & Hr & Hrun')].
      * left. rewrite Hset, Hall. repeat split; [exact Hv' | congruence].
      * right. exists (e :: before), after, r.
        cbn [forallb]. rewrite Hset, Hall. by repeat split.
Qed.

Lemma error_view_left_by_restart_only_witness :
  exists before after restarted,
    [Session.TryAgain] = (before ++ Session.TryAgain :: after)%list
    /\ forallb Session.is_settle before = true
    /\ Session.app restarted = App.initial
    /\ Session.run after restarted = Some Session.initial.
Proof.
  destruct (error_view_left_by_restart_only
              [Session.TryAgain]
              {| Session.app :=
                   App.startGeneration "a lecture" (App.Rejected None)
                     (App.handleFileSelect
                        {| file_type := "audio/mpeg"; file_size := 1024 |}
                        App.initial);
                 Session.pending := 0 |}
              Session.initial)
    as [(Hall & _) | Hrestart].
  - reflexivity.
  - reflexivity.
  - discriminate Hall.
  - exact Hrestart.
Defined.
